(** * ErrorWatch SDK: capture-to-delivery pipeline

    A shallow embedding of the [ErrorWatch] class of the SDK (the
    source file with [loadQueue], [saveQueue], [handleError],
    [addToBatch], [flushBatch], [flushQueue], [redactDom], ...) and the
    properties of its breadcrumb trail, batch accumulator, persistent
    delivery queue, session recorder adapter and redaction filter.

    The class is single-threaded and event driven.  Its fields and the
    parts of the host it touches (clock, timers, window listeners,
    console functions, localStorage, the rrweb recorder and the fetches
    in flight) are one record [Sys]; every method is a function on
    [Sys].

    - An [async] method is split at its [await]: the part that runs
      when the method is called, and the part that runs when the
      awaited fetch settles ([settle]).  What other handlers do in
      between is a separate step on [Sys].
    - Synchronous code that may throw returns a [Completion]; an
      [async] method returns a [Promise].
    - Timeouts run at their due time ([elapse]).
    - What happens to an instance over time is a list of steps ([Op],
      [run]): calls of its public API, window events, console calls,
      frames from the recorder, time passing and fetches settling.
    - The breadcrumb array is a cell of a store ([heap]), so that a copy
      and an alias differ; the other arrays are never shared and are
      plain lists.
    - A JSON text is represented by the value it encodes; the arguments
      of [console.error] and [console.warn] by their string forms;
      timestamps are instants in the range of [Date].
    - The patched [console.warn] calls [handleError], whose [catch]
      block calls [console.warn]: the functions that can reach this
      cycle take the number of nested calls the call stack still has
      room for ([stack]), and a call beyond it throws a [RangeError].
    - The DOM is an interface ([DomApi]); [MiniDom] is a small model of
      it to run [redactDom] on. *)

From stdpp Require Import gmap strings list.
From Stdlib Require Import ZArith Lia Ascii.

Set Default Proof Using "Type".

(** ** JavaScript values and completions *)

(** The outcome of running synchronous code: it returns or it throws. *)
Inductive Completion (A : Type) : Type :=
  | Normal (a : A)
  | Throw (err : string).
Arguments Normal {A} a.
Arguments Throw {A} err.

(** The state of the promise an [async] function hands back. *)
Inductive Promise : Type :=
  | Fulfilled
  | Rejected (err : string).

(** An [async] function never throws at its caller: a throw inside the
    body rejects the promise it returns. *)
Definition async {S : Type} (body : S * Completion unit) : S * Promise :=
  match body with
  | (s, Normal _) => (s, Fulfilled)
  | (s, Throw err) => (s, Rejected err)
  end.

(** A frame emitted by the rrweb recorder.  [frame_data] is the recorded
    DOM content; [frame_serializable] is false for a frame on which
    [JSON.stringify] throws (a cycle, a BigInt). *)
Record Frame := mkFrame {
  frame_timestamp : Z;
  frame_data : string;
  frame_serializable : bool
}.

(** Values of type [any] that end up in metadata and breadcrumbs.
    [VArrRef r] is a reference to the mutable breadcrumb array stored at
    index [r] of the array store; [VFramesJson] is a string holding the
    JSON text of a frame array, represented by the array it encodes.
    [VBigInt] is a value that [JSON.stringify] throws on (an object with
    a cycle, the other such value, has no representation here). *)
#[local] Unset Elimination Schemes.
Inductive JsVal : Type :=
  | VUndefined
  | VNull
  | VBool (b : bool)
  | VNum (z : Z)
  | VStr (s : string)
  | VFramesJson (fs : list Frame)
  | VArr (l : list JsVal)
  | VObj (fields : list (string * JsVal))
  | VArrRef (r : nat)
  | VBigInt (z : Z).
#[local] Set Elimination Schemes.

(** JavaScript truthiness, as used by [||], [!] and [?:]. *)
Definition truthy (v : JsVal) : bool :=
  match v with
  | VUndefined | VNull => false
  | VBool b => b
  | VNum z | VBigInt z => negb (z =? 0)%Z
  | VStr s => negb (String.eqb s "")
  | VFramesJson _ | VArr _ | VObj _ | VArrRef _ => true
  end.

Definition js_or (a b : JsVal) : JsVal := if truthy a then a else b.

Fixpoint assoc_get (k : string) (fields : list (string * JsVal)) : JsVal :=
  match fields with
  | [] => VUndefined
  | (k', v) :: rest => if String.eqb k k' then v else assoc_get k rest
  end.

(** [v?.k]: property read with optional chaining. *)
Definition js_get (v : JsVal) (k : string) : JsVal :=
  match v with
  | VObj fields => assoc_get k fields
  | _ => VUndefined
  end.

Inductive Severity := SevError | SevWarning | SevInfo.

Inductive Environment := Development | Staging | Production.

(** ** The interfaces of the source *)

Record Breadcrumb := mkBreadcrumb {
  bc_type : string;
  bc_message : string;
  bc_data : JsVal;
  bc_timestamp : Z
}.

(** [metadata?: Record<string, any>]: [None] is an absent metadata
    field, which spreads as the empty object. *)
Record ErrorData := mkErrorData {
  message : string;
  stack : option string;
  url : string;
  line : option Z;
  column : option Z;
  userAgent : string;
  timestamp : Z;
  severity : Severity;
  metadata : option (gmap string JsVal);
  screenRecording : option (list Frame)
}.

(** [ErrorEvent] is [ErrorData] with an optional [type] tag. *)
Record ErrorEvent := mkErrorEvent {
  ev_data : ErrorData;
  ev_type : option string
}.

Record AnalyticsHooks := mkHooks {
  onErrorCaptured : option (ErrorData -> Completion unit);
  onSessionStart : option (string -> Completion unit);
  onSessionEnd : option (string -> Completion unit)
}.

(** [Required<ErrorWatchConfig>] as it is at run time.  The user's
    options are spread over the defaults, so an option given as
    [undefined] replaces its default: [redactSelectors] and
    [analyticsHooks] are read with a guard in the source and keep that
    case ([None]). *)
Record Config := mkConfig {
  apiKey : string;
  projectId : string;
  environment : Environment;
  baseUrl : string;
  enableScreenRecording : bool;
  maxRecordingDuration : Z;
  captureConsole : bool;
  captureNetwork : bool;
  beforeSend : ErrorEvent -> Completion (option ErrorEvent);
  redactSelectors : option (list string);
  allowPII : bool;
  analyticsHooks : option AnalyticsHooks
}.

(** The options object passed to the constructor: [None] is an omitted
    key. *)
Record ErrorWatchConfig := mkUserConfig {
  u_apiKey : string;
  u_projectId : string;
  u_environment : option Environment;
  u_baseUrl : option string;
  u_enableScreenRecording : option bool;
  u_maxRecordingDuration : option Z;
  u_captureConsole : option bool;
  u_captureNetwork : option bool;
  u_beforeSend : option (ErrorEvent -> Completion (option ErrorEvent));
  u_redactSelectors : option (option (list string));
  u_allowPII : option bool;
  u_analyticsHooks : option AnalyticsHooks
}.

Definition BATCH_INTERVAL : Z := 5000.
Definition BATCH_SIZE : nat := 10.
Definition BREADCRUMB_LIMIT : nat := 30.

(** ** The host environment *)

(** The item stored under [ERROR_QUEUE_KEY]: absent, text that
    [JSON.parse] rejects, or the JSON text of a queue (represented by the
    queue it encodes).  Text that parses to anything but an array of
    events has no representation here. *)
Inductive Stored :=
  | NoItem
  | Corrupt
  | Encoded (q : list ErrorData).

(** The closures the class registers on [window]. *)
Inductive Handler :=
  | HOnline
  | HBeforeUnload
  | HError
  | HUnhandledRejection
  | HPopstate
  | HHashchange
  | HClick.

(** A call of [console.error], [console.warn] or [console.log]. *)
Record ConsoleCall := mkConsoleCall {
  cc_level : string;
  cc_args : list JsVal
}.

(** One element of the [batch] array in the body that [sendBatch]
    posts.  [p_breadcrumbs] is the empty string or a JSON text,
    represented by the value it encodes; [p_timestamp] is the instant
    that [toISOString] renders. *)
Record PayloadItem := mkPayloadItem {
  project_id : string;
  p_message : string;
  level : Severity;
  p_environment : Environment;
  exception_type : JsVal;
  stacktrace : string;
  user_id : JsVal;
  ip_address : string;
  sdk : string;
  p_breadcrumbs : JsVal;
  p_timestamp : Z
}.

(** What resumes when an awaited [sendBatch] settles: the rest of
    [flushBatch] or the rest of one [flushQueue] iteration, with the
    local array it holds. *)
Inductive Kont :=
  | KFlushBatch (batchToSend : list ErrorData)
  | KFlushQueue (taken : list ErrorData).

(** A fetch in flight. *)
Record Request := mkRequest {
  req_url : string;
  req_authorization : string;
  req_project : string;
  req_body : list PayloadItem;
  req_time : Z;
  req_kont : Kont
}.

(** How a fetch settles: the promise rejects, or a response arrives
    with its [ok] flag and a body that [response.json()] accepts or
    not. *)
Inductive FetchOutcome :=
  | NetworkError (err : string)
  | HttpResponse (ok : bool) (status : string) (jsonOk : bool).

(** A call of one of the analytics hooks. *)
Inductive HookCall :=
  | CalledErrorCaptured (e : ErrorData)
  | CalledSessionStart (id : string)
  | CalledSessionEnd (id : string).

(** The fields of the class (first twelve) and the host state it reads
    and writes.  [breadcrumbs] is a reference into [heap], the store of
    breadcrumb arrays; [stopRecording], [batchTimer] and the keys of
    [timers], [recorders] and [inflight] are handles drawn from
    [nextId]. *)
Record Sys := mkSys {
  config : Config;
  isRecording : bool;
  recordingEvents : list Frame;
  stopRecording : option nat;
  errorQueue : list ErrorData;
  isSendingQueue : bool;
  batch : list ErrorData;
  batchTimer : option nat;
  breadcrumbs : nat;
  sessionId : string;
  userId : option string;
  sessionStartTime : Z;
  isBrowser : bool;
  now : Z;
  location_href : string;
  navigator_userAgent : string;
  localStorage : Stored;
  storageOk : bool;
  listeners : list (string * Handler);
  console_error_patched : bool;
  console_warn_patched : bool;
  console_log_patched : bool;
  consoleCalls : list ConsoleCall;
  timers : list (nat * Z);
  recorders : list nat;
  inflight : list (nat * Request);
  nextId : nat;
  heap : list (list Breadcrumb);
  hookCalls : list HookCall
}.

(** Field updates. *)
Definition set_config (v : Config) (s : Sys) : Sys :=
  mkSys
    v (isRecording s) (recordingEvents s) (stopRecording s) (errorQueue s)
    (isSendingQueue s) (batch s) (batchTimer s) (breadcrumbs s) (sessionId s)
    (userId s) (sessionStartTime s) (isBrowser s) (now s) (location_href s)
    (navigator_userAgent s) (localStorage s) (storageOk s) (listeners s)
    (console_error_patched s) (console_warn_patched s)
    (console_log_patched s) (consoleCalls s) (timers s) (recorders s)
    (inflight s) (nextId s) (heap s) (hookCalls s).

Definition set_isRecording (v : bool) (s : Sys) : Sys :=
  mkSys
    (config s) v (recordingEvents s) (stopRecording s) (errorQueue s)
    (isSendingQueue s) (batch s) (batchTimer s) (breadcrumbs s) (sessionId s)
    (userId s) (sessionStartTime s) (isBrowser s) (now s) (location_href s)
    (navigator_userAgent s) (localStorage s) (storageOk s) (listeners s)
    (console_error_patched s) (console_warn_patched s)
    (console_log_patched s) (consoleCalls s) (timers s) (recorders s)
    (inflight s) (nextId s) (heap s) (hookCalls s).

Definition set_recordingEvents (v : list Frame) (s : Sys) : Sys :=
  mkSys
    (config s) (isRecording s) v (stopRecording s) (errorQueue s)
    (isSendingQueue s) (batch s) (batchTimer s) (breadcrumbs s) (sessionId s)
    (userId s) (sessionStartTime s) (isBrowser s) (now s) (location_href s)
    (navigator_userAgent s) (localStorage s) (storageOk s) (listeners s)
    (console_error_patched s) (console_warn_patched s)
    (console_log_patched s) (consoleCalls s) (timers s) (recorders s)
    (inflight s) (nextId s) (heap s) (hookCalls s).

Definition set_stopRecording (v : option nat) (s : Sys) : Sys :=
  mkSys
    (config s) (isRecording s) (recordingEvents s) v (errorQueue s)
    (isSendingQueue s) (batch s) (batchTimer s) (breadcrumbs s) (sessionId s)
    (userId s) (sessionStartTime s) (isBrowser s) (now s) (location_href s)
    (navigator_userAgent s) (localStorage s) (storageOk s) (listeners s)
    (console_error_patched s) (console_warn_patched s)
    (console_log_patched s) (consoleCalls s) (timers s) (recorders s)
    (inflight s) (nextId s) (heap s) (hookCalls s).

Definition set_errorQueue (v : list ErrorData) (s : Sys) : Sys :=
  mkSys
    (config s) (isRecording s) (recordingEvents s) (stopRecording s) v
    (isSendingQueue s) (batch s) (batchTimer s) (breadcrumbs s) (sessionId s)
    (userId s) (sessionStartTime s) (isBrowser s) (now s) (location_href s)
    (navigator_userAgent s) (localStorage s) (storageOk s) (listeners s)
    (console_error_patched s) (console_warn_patched s)
    (console_log_patched s) (consoleCalls s) (timers s) (recorders s)
    (inflight s) (nextId s) (heap s) (hookCalls s).

Definition set_isSendingQueue (v : bool) (s : Sys) : Sys :=
  mkSys
    (config s) (isRecording s) (recordingEvents s) (stopRecording s)
    (errorQueue s) v (batch s) (batchTimer s) (breadcrumbs s) (sessionId s)
    (userId s) (sessionStartTime s) (isBrowser s) (now s) (location_href s)
    (navigator_userAgent s) (localStorage s) (storageOk s) (listeners s)
    (console_error_patched s) (console_warn_patched s)
    (console_log_patched s) (consoleCalls s) (timers s) (recorders s)
    (inflight s) (nextId s) (heap s) (hookCalls s).

Definition set_batch (v : list ErrorData) (s : Sys) : Sys :=
  mkSys
    (config s) (isRecording s) (recordingEvents s) (stopRecording s)
    (errorQueue s) (isSendingQueue s) v (batchTimer s) (breadcrumbs s)
    (sessionId s) (userId s) (sessionStartTime s) (isBrowser s) (now s)
    (location_href s) (navigator_userAgent s) (localStorage s) (storageOk s)
    (listeners s) (console_error_patched s) (console_warn_patched s)
    (console_log_patched s) (consoleCalls s) (timers s) (recorders s)
    (inflight s) (nextId s) (heap s) (hookCalls s).

Definition set_batchTimer (v : option nat) (s : Sys) : Sys :=
  mkSys
    (config s) (isRecording s) (recordingEvents s) (stopRecording s)
    (errorQueue s) (isSendingQueue s) (batch s) v (breadcrumbs s)
    (sessionId s) (userId s) (sessionStartTime s) (isBrowser s) (now s)
    (location_href s) (navigator_userAgent s) (localStorage s) (storageOk s)
    (listeners s) (console_error_patched s) (console_warn_patched s)
    (console_log_patched s) (consoleCalls s) (timers s) (recorders s)
    (inflight s) (nextId s) (heap s) (hookCalls s).

Definition set_userId (v : option string) (s : Sys) : Sys :=
  mkSys
    (config s) (isRecording s) (recordingEvents s) (stopRecording s)
    (errorQueue s) (isSendingQueue s) (batch s) (batchTimer s)
    (breadcrumbs s) (sessionId s) v (sessionStartTime s) (isBrowser s)
    (now s) (location_href s) (navigator_userAgent s) (localStorage s)
    (storageOk s) (listeners s) (console_error_patched s)
    (console_warn_patched s) (console_log_patched s) (consoleCalls s)
    (timers s) (recorders s) (inflight s) (nextId s) (heap s) (hookCalls s).

Definition set_now (v : Z) (s : Sys) : Sys :=
  mkSys
    (config s) (isRecording s) (recordingEvents s) (stopRecording s)
    (errorQueue s) (isSendingQueue s) (batch s) (batchTimer s)
    (breadcrumbs s) (sessionId s) (userId s) (sessionStartTime s)
    (isBrowser s) v (location_href s) (navigator_userAgent s)
    (localStorage s) (storageOk s) (listeners s) (console_error_patched s)
    (console_warn_patched s) (console_log_patched s) (consoleCalls s)
    (timers s) (recorders s) (inflight s) (nextId s) (heap s) (hookCalls s).

Definition set_localStorage (v : Stored) (s : Sys) : Sys :=
  mkSys
    (config s) (isRecording s) (recordingEvents s) (stopRecording s)
    (errorQueue s) (isSendingQueue s) (batch s) (batchTimer s)
    (breadcrumbs s) (sessionId s) (userId s) (sessionStartTime s)
    (isBrowser s) (now s) (location_href s) (navigator_userAgent s) v
    (storageOk s) (listeners s) (console_error_patched s)
    (console_warn_patched s) (console_log_patched s) (consoleCalls s)
    (timers s) (recorders s) (inflight s) (nextId s) (heap s) (hookCalls s).

Definition set_listeners (v : list (string * Handler)) (s : Sys) : Sys :=
  mkSys
    (config s) (isRecording s) (recordingEvents s) (stopRecording s)
    (errorQueue s) (isSendingQueue s) (batch s) (batchTimer s)
    (breadcrumbs s) (sessionId s) (userId s) (sessionStartTime s)
    (isBrowser s) (now s) (location_href s) (navigator_userAgent s)
    (localStorage s) (storageOk s) v (console_error_patched s)
    (console_warn_patched s) (console_log_patched s) (consoleCalls s)
    (timers s) (recorders s) (inflight s) (nextId s) (heap s) (hookCalls s).

Definition set_console_error_patched (v : bool) (s : Sys) : Sys :=
  mkSys
    (config s) (isRecording s) (recordingEvents s) (stopRecording s)
    (errorQueue s) (isSendingQueue s) (batch s) (batchTimer s)
    (breadcrumbs s) (sessionId s) (userId s) (sessionStartTime s)
    (isBrowser s) (now s) (location_href s) (navigator_userAgent s)
    (localStorage s) (storageOk s) (listeners s) v (console_warn_patched s)
    (console_log_patched s) (consoleCalls s) (timers s) (recorders s)
    (inflight s) (nextId s) (heap s) (hookCalls s).

Definition set_console_warn_patched (v : bool) (s : Sys) : Sys :=
  mkSys
    (config s) (isRecording s) (recordingEvents s) (stopRecording s)
    (errorQueue s) (isSendingQueue s) (batch s) (batchTimer s)
    (breadcrumbs s) (sessionId s) (userId s) (sessionStartTime s)
    (isBrowser s) (now s) (location_href s) (navigator_userAgent s)
    (localStorage s) (storageOk s) (listeners s) (console_error_patched s) v
    (console_log_patched s) (consoleCalls s) (timers s) (recorders s)
    (inflight s) (nextId s) (heap s) (hookCalls s).

Definition set_console_log_patched (v : bool) (s : Sys) : Sys :=
  mkSys
    (config s) (isRecording s) (recordingEvents s) (stopRecording s)
    (errorQueue s) (isSendingQueue s) (batch s) (batchTimer s)
    (breadcrumbs s) (sessionId s) (userId s) (sessionStartTime s)
    (isBrowser s) (now s) (location_href s) (navigator_userAgent s)
    (localStorage s) (storageOk s) (listeners s) (console_error_patched s)
    (console_warn_patched s) v (consoleCalls s) (timers s) (recorders s)
    (inflight s) (nextId s) (heap s) (hookCalls s).

Definition set_consoleCalls (v : list ConsoleCall) (s : Sys) : Sys :=
  mkSys
    (config s) (isRecording s) (recordingEvents s) (stopRecording s)
    (errorQueue s) (isSendingQueue s) (batch s) (batchTimer s)
    (breadcrumbs s) (sessionId s) (userId s) (sessionStartTime s)
    (isBrowser s) (now s) (location_href s) (navigator_userAgent s)
    (localStorage s) (storageOk s) (listeners s) (console_error_patched s)
    (console_warn_patched s) (console_log_patched s) v (timers s)
    (recorders s) (inflight s) (nextId s) (heap s) (hookCalls s).

Definition set_timers (v : list (nat * Z)) (s : Sys) : Sys :=
  mkSys
    (config s) (isRecording s) (recordingEvents s) (stopRecording s)
    (errorQueue s) (isSendingQueue s) (batch s) (batchTimer s)
    (breadcrumbs s) (sessionId s) (userId s) (sessionStartTime s)
    (isBrowser s) (now s) (location_href s) (navigator_userAgent s)
    (localStorage s) (storageOk s) (listeners s) (console_error_patched s)
    (console_warn_patched s) (console_log_patched s) (consoleCalls s) v
    (recorders s) (inflight s) (nextId s) (heap s) (hookCalls s).

Definition set_recorders (v : list nat) (s : Sys) : Sys :=
  mkSys
    (config s) (isRecording s) (recordingEvents s) (stopRecording s)
    (errorQueue s) (isSendingQueue s) (batch s) (batchTimer s)
    (breadcrumbs s) (sessionId s) (userId s) (sessionStartTime s)
    (isBrowser s) (now s) (location_href s) (navigator_userAgent s)
    (localStorage s) (storageOk s) (listeners s) (console_error_patched s)
    (console_warn_patched s) (console_log_patched s) (consoleCalls s)
    (timers s) v (inflight s) (nextId s) (heap s) (hookCalls s).

Definition set_inflight (v : list (nat * Request)) (s : Sys) : Sys :=
  mkSys
    (config s) (isRecording s) (recordingEvents s) (stopRecording s)
    (errorQueue s) (isSendingQueue s) (batch s) (batchTimer s)
    (breadcrumbs s) (sessionId s) (userId s) (sessionStartTime s)
    (isBrowser s) (now s) (location_href s) (navigator_userAgent s)
    (localStorage s) (storageOk s) (listeners s) (console_error_patched s)
    (console_warn_patched s) (console_log_patched s) (consoleCalls s)
    (timers s) (recorders s) v (nextId s) (heap s) (hookCalls s).

Definition set_nextId (v : nat) (s : Sys) : Sys :=
  mkSys
    (config s) (isRecording s) (recordingEvents s) (stopRecording s)
    (errorQueue s) (isSendingQueue s) (batch s) (batchTimer s)
    (breadcrumbs s) (sessionId s) (userId s) (sessionStartTime s)
    (isBrowser s) (now s) (location_href s) (navigator_userAgent s)
    (localStorage s) (storageOk s) (listeners s) (console_error_patched s)
    (console_warn_patched s) (console_log_patched s) (consoleCalls s)
    (timers s) (recorders s) (inflight s) v (heap s) (hookCalls s).

Definition set_heap (v : list (list Breadcrumb)) (s : Sys) : Sys :=
  mkSys
    (config s) (isRecording s) (recordingEvents s) (stopRecording s)
    (errorQueue s) (isSendingQueue s) (batch s) (batchTimer s)
    (breadcrumbs s) (sessionId s) (userId s) (sessionStartTime s)
    (isBrowser s) (now s) (location_href s) (navigator_userAgent s)
    (localStorage s) (storageOk s) (listeners s) (console_error_patched s)
    (console_warn_patched s) (console_log_patched s) (consoleCalls s)
    (timers s) (recorders s) (inflight s) (nextId s) v (hookCalls s).

Definition set_hookCalls (v : list HookCall) (s : Sys) : Sys :=
  mkSys
    (config s) (isRecording s) (recordingEvents s) (stopRecording s)
    (errorQueue s) (isSendingQueue s) (batch s) (batchTimer s)
    (breadcrumbs s) (sessionId s) (userId s) (sessionStartTime s)
    (isBrowser s) (now s) (location_href s) (navigator_userAgent s)
    (localStorage s) (storageOk s) (listeners s) (console_error_patched s)
    (console_warn_patched s) (console_log_patched s) (consoleCalls s)
    (timers s) (recorders s) (inflight s) (nextId s) (heap s) v.

(** ** Persistent delivery queue: storage *)

Definition crumb_val (b : Breadcrumb) : JsVal :=
  VObj [("type", VStr (bc_type b)); ("message", VStr (bc_message b));
        ("data", bc_data b); ("timestamp", VNum (bc_timestamp b))].

(** What [JSON.stringify] writes for a metadata value: a reference to a
    breadcrumb array is written as the array's contents at that moment.
    (References occur only as the value of a metadata key.) *)
Definition freeze (h : list (list Breadcrumb)) (v : JsVal) : JsVal :=
  match v with
  | VArrRef r => VArr (crumb_val <$> default [] (h !! r))
  | _ => v
  end.

Definition set_metadata (m : option (gmap string JsVal)) (e : ErrorData)
  : ErrorData :=
  mkErrorData (message e) (stack e) (url e) (line e) (column e)
    (userAgent e) (timestamp e) (severity e) m (screenRecording e).

Definition set_screenRecording (r : option (list Frame)) (e : ErrorData)
  : ErrorData :=
  mkErrorData (message e) (stack e) (url e) (line e) (column e)
    (userAgent e) (timestamp e) (severity e) (metadata e) r.

(** [JSON.stringify] throws on a value that holds a BigInt. *)
Fixpoint writable (v : JsVal) : bool :=
  match v with
  | VBigInt _ => false
  | VArr l => forallb writable l
  | VObj fields => forallb (fun kv : string * JsVal => writable kv.2) fields
  | _ => true
  end.

(** The value that the text [JSON.stringify] writes for [v] encodes: a
    property whose value is [undefined] is left out, an [undefined]
    element of an array is written [null]. *)
Fixpoint json_val (v : JsVal) : JsVal :=
  match v with
  | VArr l =>
      VArr ((fun x => match x with
                      | VUndefined => VNull
                      | _ => json_val x
                      end) <$> l)
  | VObj fields =>
      VObj (omap (fun kv : string * JsVal =>
                    match kv.2 with
                    | VUndefined => None
                    | _ => Some (kv.1, json_val kv.2)
                    end) fields)
  | _ => v
  end.

(** One metadata property in the text: left out when its value is
    [undefined]. *)
Definition json_prop (h : list (list Breadcrumb)) (v : JsVal) : option JsVal :=
  match freeze h v with
  | VUndefined => None
  | w => Some (json_val w)
  end.

(** [JSON.stringify] can write the event: no metadata value holds a
    BigInt.  (The other fields are strings and numbers.) *)
Definition stringifies (h : list (list Breadcrumb)) (e : ErrorData) : bool :=
  match metadata e with
  | Some m => forallb (fun kv : string * JsVal => writable (freeze h kv.2))
                (map_to_list m)
  | None => true
  end.

(** The event that the text [JSON.stringify] writes for [e] encodes. *)
Definition freezeEvent (h : list (list Breadcrumb)) (e : ErrorData)
  : ErrorData :=
  set_metadata
    (match metadata e with
     | Some m => Some (omap (json_prop h) m)
     | None => None
     end) e.

(** [loadQueue]: outside a browser, or when [getItem] or [JSON.parse]
    throws, the queue is empty. *)
Definition loadQueue (browser ok : bool) (item : Stored) : list ErrorData :=
  if negb browser then []
  else if negb ok then []
  else match item with
       | NoItem => []
       | Corrupt => []
       | Encoded q => q
       end.

(** [saveQueue]: the throw of [JSON.stringify] on a queue it cannot
    write and the throw of [setItem] ([storageOk] is false) are
    swallowed, and the stored item stays as it is. *)
Definition saveQueue (queue : list ErrorData) (s : Sys) : Sys :=
  if negb (isBrowser s) then s
  else if storageOk s && forallb (stringifies (heap s)) queue
       then set_localStorage (Encoded (freezeEvent (heap s) <$> queue)) s
       else s.

(** ** Session recorder adapter *)

(** [record({emit, ...})] of rrweb registers the emit callback and
    returns the function that stops this recording. *)
Definition rrweb_record (s : Sys) : nat * Sys :=
  (nextId s,
   set_nextId (S (nextId s)) (set_recorders (recorders s ++ [nextId s]) s)).

Definition rrweb_stop (h : nat) (s : Sys) : Sys :=
  set_recorders (filter (fun x => x <> h) (recorders s)) s.

Definition startScreenRecording (s : Sys) : Sys :=
  if negb (isBrowser s) || isRecording s then s
  else
    let s1 := set_isRecording true (set_recordingEvents [] s) in
    let '(h, s2) := rrweb_record s1 in
    set_stopRecording (Some h) s2.

Definition restartRecording (s : Sys) : Sys :=
  let s1 := match stopRecording s with
            | Some h => rrweb_stop h s
            | None => s
            end in
  startScreenRecording s1.

(** The [emit] callback handed to rrweb. *)
Definition emit (event : Frame) (s : Sys) : Sys :=
  let s1 := set_recordingEvents (recordingEvents s ++ [event]) s in
  match recordingEvents s1 with
  | firstEvent :: _ =>
      if (maxRecordingDuration (config s1)
            <? now s1 - frame_timestamp firstEvent)%Z
      then restartRecording s1
      else s1
  | [] => s1
  end.

(** ** Breadcrumb trail *)

(** [push], then [shift] when the length exceeds the limit; both act on
    the array the field refers to. *)
Definition addBreadcrumb (breadcrumb : Breadcrumb) (s : Sys) : Sys :=
  let r := breadcrumbs s in
  let pushed := default [] (heap s !! r) ++ [breadcrumb] in
  let arr := if (BREADCRUMB_LIMIT <? length pushed)%nat
             then tail pushed else pushed in
  set_heap (<[r := arr]> (heap s)) s.

(** [this.breadcrumbs.slice()]: a new array with the same elements. *)
Definition slice_breadcrumbs (s : Sys) : nat * Sys :=
  (length (heap s),
   set_heap (heap s ++ [default [] (heap s !! breadcrumbs s)]) s).

(** ** Console *)

Definition log_call (lvl : string) (args : list JsVal) (s : Sys) : Sys :=
  set_consoleCalls (consoleCalls s ++ [mkConsoleCall lvl args]) s.

(** [console.log]: once [setupBreadcrumbs] has patched it, each call
    leaves a breadcrumb before reaching the original function. *)
Definition console_log (args : list JsVal) (s : Sys) : Sys :=
  let s1 := log_call "log" args s in
  if console_log_patched s1
  then addBreadcrumb
         (mkBreadcrumb "console" "log" (VObj [("args", VArr args)]) (now s1))
         s1
  else s1.

(** The event that the patched [console.error] / [console.warn] hands
    to [handleError].  The arguments are modelled by their string
    forms. *)
Definition consoleEvent (sev : Severity) (ty : string) (args : list string)
    (s : Sys) : ErrorData :=
  mkErrorData (String.concat " " args) None (location_href s) None None
    (navigator_userAgent s) (now s) sev
    (Some (<["args" := VArr (VStr <$> args)]>
             (<["type" := VStr ty]> (∅ : gmap string JsVal))))
    None.

(** [console.error] and [console.warn].  Unpatched, the call only
    prints.  Patched by [setupConsoleCapture], it first calls
    [handleError] ([capture]) and drops the promise.  [capture = None]
    is a call stack with no room left for that call, which throws. *)
Definition console_capture (patched : Sys -> bool) (lvl : string)
    (sev : Severity) (ty : string)
    (capture : option (ErrorData -> Sys -> Sys * Promise))
    (args : list string) (s : Sys) : Sys * Completion unit :=
  let s1 := log_call lvl (VStr <$> args) s in
  if patched s1 then
    match capture with
    | None => (s1, Throw "RangeError: Maximum call stack size exceeded")
    | Some handle => ((handle (consoleEvent sev ty args s1) s1).1, Normal tt)
    end
  else (s1, Normal tt).

(** ** Transport *)

Definition meta_get (e : ErrorData) (k : string) : JsVal :=
  match metadata e with
  | Some m => default VUndefined (m !! k)
  | None => VUndefined
  end.

Definition payloadItem (s : Sys) (e : ErrorData) : PayloadItem :=
  mkPayloadItem (projectId (config s)) (message e) (severity e)
    (environment (config s))
    (js_or (meta_get e "type") (VStr "error"))
    (default "" (stack e))
    (js_or (js_get (meta_get e "user") "id") (VStr ""))
    "" "errorwatch-js/1.0.0"
    (if truthy (meta_get e "breadcrumbs")
     then freeze (heap s) (meta_get e "breadcrumbs") else VStr "")
    (timestamp e).

(** [sendBatch] up to its [await fetch(...)]: the request is in flight
    and [k] is what its caller resumes with.  [JSON.stringify] of the
    body is taken to return: of a payload item, only [user_id] and
    [breadcrumbs] are values of type [any]. *)
Definition sendBatch (k : Kont) (errors : list ErrorData) (s : Sys) : Sys :=
  let req := mkRequest (baseUrl (config s))
               (String.append "Bearer " (apiKey (config s)))
               (projectId (config s)) (payloadItem s <$> errors) (now s) k in
  set_nextId (S (nextId s)) (set_inflight (inflight s ++ [(nextId s, req)]) s).

(** [sendBatch] after the fetch settles: it throws on a rejected fetch
    and on a response that is not [ok]; it returns [response.json()],
    whose rejection is the caller's too. *)
Definition sendBatch_settled (o : FetchOutcome) : Completion unit :=
  match o with
  | NetworkError err => Throw err
  | HttpResponse false status _ => Throw (String.append "Error: HTTP " status)
  | HttpResponse true _ false => Throw "SyntaxError: Unexpected end of JSON input"
  | HttpResponse true _ true => Normal tt
  end.

(** ** Batch accumulator *)

Definition clearTimeout (id : nat) (s : Sys) : Sys :=
  set_timers (filter (fun t => t.1 <> id) (timers s)) s.

Definition setTimeout (delay : Z) (s : Sys) : nat * Sys :=
  (nextId s,
   set_nextId (S (nextId s))
     (set_timers (timers s ++ [(nextId s, (now s + delay)%Z)]) s)).

(** [flushBatch] up to its [await]. *)
Definition flushBatch (s : Sys) : Sys :=
  match batch s with
  | [] => s
  | _ :: _ =>
      let batchToSend := batch s in
      let s1 := set_batch [] s in
      let s2 := match batchTimer s1 with
                | Some id => set_batchTimer None (clearTimeout id s1)
                | None => s1
                end in
      sendBatch (KFlushBatch batchToSend) batchToSend s2
  end.

Definition addToBatch (errorData : ErrorData) (s : Sys) : Sys :=
  let s1 := set_batch (batch s ++ [errorData]) s in
  if (BATCH_SIZE <=? length (batch s1))%nat then flushBatch s1
  else match batchTimer s1 with
       | None =>
           let '(id, s2) := setTimeout BATCH_INTERVAL s1 in
           set_batchTimer (Some id) s2
       | Some _ => s1
       end.

(** ** Persistent delivery queue *)

Definition queueError (errorData : ErrorData) (s : Sys) : Sys :=
  let s1 := set_errorQueue (errorQueue s ++ [errorData]) s in
  saveQueue (errorQueue s1) s1.

(** The head of the [while] loop of [flushQueue]: either [splice] the
    next group and await its delivery, or leave through [finally]. *)
Definition flushQueue_loop (s : Sys) : Sys :=
  match errorQueue s with
  | [] => set_isSendingQueue false s
  | _ :: _ =>
      let taken := take BATCH_SIZE (errorQueue s) in
      let s1 := set_errorQueue (drop BATCH_SIZE (errorQueue s)) s in
      sendBatch (KFlushQueue taken) taken s1
  end.

Definition flushQueue (s : Sys) : Sys :=
  if isSendingQueue s then s
  else flushQueue_loop (set_isSendingQueue true s).

(** [flushQueue] from the point where the awaited [sendBatch] settles. *)
Definition flushQueue_settled (taken : list ErrorData) (o : FetchOutcome)
    (s : Sys) : Sys :=
  match sendBatch_settled o with
  | Normal _ => flushQueue_loop (saveQueue (errorQueue s) s)
  | Throw _ =>
      let s1 := set_errorQueue (taken ++ errorQueue s) s in
      set_isSendingQueue false (saveQueue (errorQueue s1) s1)
  end.

(** ** Capture layer *)

(** [JSON.stringify(this.recordingEvents)]. *)
Definition JSON_stringify_frames (fs : list Frame) : Completion (list Frame) :=
  if forallb frame_serializable fs then Normal fs
  else Throw "TypeError: Converting circular structure to JSON".

(** "Add screen recording if available": the frames are serialised as
    they are, and the text is logged with [console.log]. *)
Definition attachRecording (errorData : ErrorData) (s : Sys)
  : Completion (ErrorData * Sys) :=
  if enableScreenRecording (config s) && (0 <? length (recordingEvents s))%nat
  then
    match JSON_stringify_frames (recordingEvents s) with
    | Throw err => Throw err
    | Normal js =>
        Normal (set_screenRecording (Some js) errorData,
                console_log [VStr "[ErrorWatch] screenRecording:";
                             VFramesJson js] s)
    end
  else Normal (errorData, s).

Definition userId_val (s : Sys) : JsVal :=
  match userId s with
  | Some u => VStr u
  | None => VUndefined
  end.

(** [errorData.metadata = {...errorData.metadata, breadcrumbs, sessionId,
    userId, sessionStart}]. *)
Definition mergeMetadata (errorData : ErrorData) (s : Sys) : ErrorData * Sys :=
  let '(r, s1) := slice_breadcrumbs s in
  (set_metadata
     (Some (<["sessionStart" := VNum (sessionStartTime s)]>
              (<["userId" := userId_val s]>
                 (<["sessionId" := VStr (sessionId s)]>
                    (<["breadcrumbs" := VArrRef r]>
                       (default ∅ (metadata errorData)))))))
     errorData,
   s1).

Definition callOnErrorCaptured (errorData : ErrorData) (s : Sys)
  : Sys * Completion unit :=
  match analyticsHooks (config s) with
  | Some hooks =>
      match onErrorCaptured hooks with
      | Some hook =>
          (set_hookCalls (hookCalls s ++ [CalledErrorCaptured errorData]) s,
           hook errorData)
      | None => (s, Normal tt)
      end
  | None => (s, Normal tt)
  end.

(** The [catch] block of [handleError]; [warn] is [console.warn]. *)
Definition handleError_catch
    (warn : list string -> Sys -> Sys * Completion unit)
    (errorData : ErrorData) (err : string) (s : Sys) : Sys * Completion unit :=
  warn ["ErrorWatch: Failed to queue error for batch"; err]
       (queueError errorData s).

(** The body of [handleError].  [errorData] is mutated in place in the
    source: the [catch] block sees it as it is when the throw happens.
    [beforeSend] is handed a shallow copy of [errorData], whose
    metadata object is that of [errorData] itself; it is taken to
    write into neither, as the default transform and the wrappers of
    [setUser] and [setContext] do not. *)
Definition handleError_body
    (warn : list string -> Sys -> Sys * Completion unit)
    (errorData : ErrorData) (s : Sys) : Sys * Completion unit :=
  match beforeSend (config s) (mkErrorEvent errorData (Some "error")) with
  | Throw err => handleError_catch warn errorData err s
  | Normal None => (s, Normal tt)
  | Normal (Some processedError) =>
      match attachRecording errorData s with
      | Throw err => handleError_catch warn errorData err s
      | Normal (errorData1, s1) =>
          let '(errorData2, s2) := mergeMetadata errorData1 s1 in
          match callOnErrorCaptured errorData2 s2 with
          | (s3, Throw err) => handleError_catch warn errorData2 err s3
          | (s3, Normal _) => (addToBatch errorData2 s3, Normal tt)
          end
      end
  end.

(** [handleError].  When [console.warn] is patched, its diagnostic
    re-enters [handleError]; [stack] bounds how many such nested calls
    the call stack still has room for. *)
Fixpoint handleError (stack : nat) (errorData : ErrorData) (s : Sys)
  : Sys * Promise :=
  async
    (handleError_body
       (console_capture console_warn_patched "warn" SevWarning "console.warn"
          (match stack with
           | O => None
           | S k => Some (handleError k)
           end))
       errorData s).

Definition nested (stack : nat)
  : option (ErrorData -> Sys -> Sys * Promise) :=
  match stack with
  | O => None
  | S k => Some (handleError k)
  end.

Definition console_warn (stack : nat) : list string -> Sys -> Sys * Completion unit :=
  console_capture console_warn_patched "warn" SevWarning "console.warn"
    (nested stack).

Definition console_error (stack : nat) : list string -> Sys -> Sys * Completion unit :=
  console_capture console_error_patched "error" SevError "console.error"
    (nested stack).

(** [flushBatch] from the point where the awaited [sendBatch] settles. *)
Definition flushBatch_settled (stack : nat) (batchToSend : list ErrorData)
    (o : FetchOutcome) (s : Sys) : Sys * Promise :=
  match sendBatch_settled o with
  | Normal _ => (s, Fulfilled)
  | Throw err =>
      let s1 := foldl (fun acc e => queueError e acc) s batchToSend in
      async (console_warn stack
               ["ErrorWatch: Failed to send batch, queued for retry"; err] s1)
  end.

(** The fetch [id] settles with outcome [o]: the method awaiting it
    resumes. *)
Definition settle (stack : nat) (id : nat) (o : FetchOutcome) (s : Sys) : Sys :=
  match list_find (fun r => r.1 = id) (inflight s) with
  | None => s
  | Some (_, (_, req)) =>
      let s1 := set_inflight (filter (fun r => r.1 <> id) (inflight s)) s in
      match req_kont req with
      | KFlushBatch batchToSend => (flushBatch_settled stack batchToSend o s1).1
      | KFlushQueue taken => flushQueue_settled taken o s1
      end
  end.

(** ** Public API *)

Record JsError := mkJsError {
  err_message : string;
  err_stack : option string
}.

(** A call of an [async] method whose promise is dropped. *)
Definition drop_promise (r : Sys * Promise) : Sys * Completion unit :=
  (r.1, Normal tt).

Definition captureError (stack : nat) (error : JsError)
    (meta : option (gmap string JsVal)) (s : Sys) : Sys * Completion unit :=
  drop_promise
    (handleError stack
       (mkErrorData (err_message error) (err_stack error)
          (if isBrowser s then location_href s else "nodejs") None None
          (if isBrowser s then navigator_userAgent s else "nodejs")
          (now s) SevError
          (Some (<["type" := VStr "manual"]> (default ∅ meta))) None)
       s).

Definition captureMessage (stack : nat) (msg : string) (sev : option Severity)
    (meta : option (gmap string JsVal)) (s : Sys) : Sys * Completion unit :=
  drop_promise
    (handleError stack
       (mkErrorData msg None
          (if isBrowser s then location_href s else "nodejs") None None
          (if isBrowser s then navigator_userAgent s else "nodejs")
          (now s) (default SevInfo sev)
          (Some (<["type" := VStr "message"]> (default ∅ meta))) None)
       s).

Definition captureEvent (stack : nat) (eventName : string)
    (data : option (gmap string JsVal)) (s : Sys) : Sys * Completion unit :=
  drop_promise
    (handleError stack
       (mkErrorData (String.append "Event: " eventName) None
          (if isBrowser s then location_href s else "nodejs") None None
          (if isBrowser s then navigator_userAgent s else "nodejs")
          (now s) SevInfo
          (Some (<["eventName" := VStr eventName]>
                   (<["type" := VStr "event"]> (default ∅ data)))) None)
       s).

Definition set_beforeSend
    (f : ErrorEvent -> Completion (option ErrorEvent)) (c : Config) : Config :=
  mkConfig (apiKey c) (projectId c) (environment c) (baseUrl c)
    (enableScreenRecording c) (maxRecordingDuration c) (captureConsole c)
    (captureNetwork c) f (redactSelectors c) (allowPII c) (analyticsHooks c).

(** The wrapper that [setUser] and [setContext] install around the
    current [beforeSend]: a falsy result is passed on, any other gets
    the key added to a copy of its metadata. *)
Definition with_metadata_key (k : string) (v : JsVal)
    (originalBeforeSend : ErrorEvent -> Completion (option ErrorEvent))
  : ErrorEvent -> Completion (option ErrorEvent) :=
  fun error =>
    match originalBeforeSend error with
    | Normal (Some processed) =>
        Normal (Some (mkErrorEvent
                        (set_metadata
                           (Some (<[k := v]>
                                    (default ∅ (metadata (ev_data processed)))))
                           (ev_data processed))
                        (ev_type processed)))
    | Normal None => Normal None
    | Throw err => Throw err
    end.

Record User := mkUser {
  usr_id : string;
  usr_email : option string;
  usr_name : option string
}.

Definition user_val (u : User) : JsVal :=
  VObj (("id", VStr (usr_id u))
          :: match usr_email u with
             | Some m => [("email", VStr m)]
             | None => []
             end
          ++ match usr_name u with
             | Some n => [("name", VStr n)]
             | None => []
             end).

Definition setUser (user : User) (s : Sys) : Sys :=
  let s1 := set_userId (Some (usr_id user)) s in
  set_config
    (set_beforeSend
       (with_metadata_key "user" (user_val user) (beforeSend (config s1)))
       (config s1)) s1.

Definition setContext (key : string) (value : JsVal) (s : Sys) : Sys :=
  set_config
    (set_beforeSend
       (with_metadata_key key value (beforeSend (config s)))
       (config s)) s.

Definition destroy (s : Sys) : Sys :=
  let s1 := match stopRecording s with
            | Some h => rrweb_stop h s
            | None => s
            end in
  let s2 := set_recordingEvents [] (set_isRecording false s1) in
  let s3 := match batchTimer s2 with
            | Some id => set_batchTimer None (clearTimeout id s2)
            | None => s2
            end in
  flushBatch s3.

(** ** Window events, timers and set-up *)

Inductive WindowEvent :=
  | EvOnline
  | EvBeforeUnload
  | EvError (msg : string) (errStack : option string) (filename : string)
            (lineno colno : Z)
  | EvUnhandledRejection (reason : string) (reasonStack : option string)
  | EvPopstate
  | EvHashchange
  | EvClick (tag id cls : string).

Definition eventType (ev : WindowEvent) : string :=
  match ev with
  | EvOnline => "online"
  | EvBeforeUnload => "beforeunload"
  | EvError _ _ _ _ _ => "error"
  | EvUnhandledRejection _ _ => "unhandledrejection"
  | EvPopstate => "popstate"
  | EvHashchange => "hashchange"
  | EvClick _ _ _ => "click"
  end.

Definition navigationCrumb (what : string) (s : Sys) : Breadcrumb :=
  mkBreadcrumb "navigation" what (VObj [("url", VStr (location_href s))])
    (now s).

(** The body of each registered listener. *)
Definition runHandler (stack : nat) (h : Handler) (ev : WindowEvent) (s : Sys)
  : Sys :=
  match h, ev with
  | HOnline, EvOnline => flushQueue s
  | HBeforeUnload, EvBeforeUnload =>
      match analyticsHooks (config s) with
      | Some hooks =>
          match onSessionEnd hooks with
          | Some _ =>
              set_hookCalls (hookCalls s ++ [CalledSessionEnd (sessionId s)]) s
          | None => s
          end
      | None => s
      end
  | HError, EvError msg errStack filename lineno colno =>
      (handleError stack
         (mkErrorData msg errStack
            (if String.eqb filename "" then location_href s else filename)
            (Some lineno) (Some colno) (navigator_userAgent s) (now s)
            SevError None None) s).1
  | HUnhandledRejection, EvUnhandledRejection reason reasonStack =>
      (handleError stack
         (mkErrorData (String.append "Unhandled Promise Rejection: " reason)
            reasonStack (location_href s) None None (navigator_userAgent s)
            (now s) SevError
            (Some (<["reason" := VStr reason]>
                     (<["type" := VStr "unhandledrejection"]>
                        (∅ : gmap string JsVal))))
            None) s).1
  | HPopstate, EvPopstate => addBreadcrumb (navigationCrumb "popstate" s) s
  | HHashchange, EvHashchange => addBreadcrumb (navigationCrumb "hashchange" s) s
  | HClick, EvClick tag id cls =>
      addBreadcrumb
        (mkBreadcrumb "ui" "click"
           (VObj [("tag", VStr tag); ("id", VStr id); ("class", VStr cls)])
           (now s)) s
  | _, _ => s
  end.

(** [window] delivers an event to the listeners registered for its
    type, in registration order. *)
Definition dispatchEvent (stack : nat) (ev : WindowEvent) (s : Sys) : Sys :=
  foldl (fun acc l =>
           if String.eqb l.1 (eventType ev) then runHandler stack l.2 ev acc
           else acc)
        s (listeners s).

Definition addEventListener (ty : string) (h : Handler) (s : Sys) : Sys :=
  set_listeners (listeners s ++ [(ty, h)]) s.

Definition setupErrorHandlers (s : Sys) : Sys :=
  if negb (isBrowser s) then s
  else addEventListener "unhandledrejection" HUnhandledRejection
         (addEventListener "error" HError s).

Definition setupConsoleCapture (s : Sys) : Sys :=
  if negb (isBrowser s) then s
  else set_console_warn_patched true (set_console_error_patched true s).

Definition setupBreadcrumbs (s : Sys) : Sys :=
  if negb (isBrowser s) then s
  else set_console_log_patched true
         (addEventListener "click" HClick
            (addEventListener "hashchange" HHashchange
               (addEventListener "popstate" HPopstate s))).

Definition init (s : Sys) : Sys :=
  let s1 := setupErrorHandlers s in
  let s2 := if enableScreenRecording (config s1) && isBrowser s1
            then startScreenRecording s1 else s1 in
  let s3 := if captureConsole (config s2) then setupConsoleCapture s2 else s2 in
  flushQueue (setupBreadcrumbs s3).

(** The environment a new instance starts in.  [host_sessionId] is what
    [generateSessionId] returns (time and randomness). *)
Record Host := mkHost {
  host_isBrowser : bool;
  host_now : Z;
  host_href : string;
  host_userAgent : string;
  host_storage : Stored;
  host_storageOk : bool;
  host_sessionId : string
}.

Definition defaultConfig (c : ErrorWatchConfig) : Config :=
  mkConfig (u_apiKey c) (u_projectId c)
    (default Production (u_environment c))
    (default "http://localhost:8000/errors" (u_baseUrl c))
    (default true (u_enableScreenRecording c))
    (default 30000%Z (u_maxRecordingDuration c))
    (default true (u_captureConsole c))
    (default false (u_captureNetwork c))
    (default (fun error => Normal (Some error)) (u_beforeSend c))
    (default (Some []) (u_redactSelectors c))
    (default false (u_allowPII c))
    (Some (default (mkHooks None None None) (u_analyticsHooks c))).

(** The field initialisers of the class, in the environment [h]. *)
Definition blank (cfg : Config) (h : Host) : Sys :=
  mkSys cfg false [] None [] false [] None 0 "" None 0
    (host_isBrowser h) (host_now h) (host_href h) (host_userAgent h)
    (host_storage h) (host_storageOk h)
    [] false false false [] [] [] [] 1 [[]] [].

Definition set_session (id : string) (start : Z) (s : Sys) : Sys :=
  mkSys (config s) (isRecording s) (recordingEvents s) (stopRecording s)
    (errorQueue s) (isSendingQueue s) (batch s) (batchTimer s) (breadcrumbs s)
    id (userId s) start (isBrowser s) (now s) (location_href s)
    (navigator_userAgent s) (localStorage s) (storageOk s) (listeners s)
    (console_error_patched s) (console_warn_patched s)
    (console_log_patched s) (consoleCalls s) (timers s) (recorders s)
    (inflight s) (nextId s) (heap s) (hookCalls s).

(** [new ErrorWatch(config)].  A throwing [onSessionStart] hook aborts
    the construction. *)
Definition constructor (c : ErrorWatchConfig) (h : Host) : Completion Sys :=
  let cfg := defaultConfig c in
  let s0 :=
    set_errorQueue
      (loadQueue (host_isBrowser h) (host_storageOk h) (host_storage h))
      (blank cfg h) in
  let s1 := if isBrowser s0 then addEventListener "online" HOnline s0 else s0 in
  let s1 := set_session (host_sessionId h) (now s1) s1 in
  let started :=
    match analyticsHooks cfg with
    | Some hooks =>
        match onSessionStart hooks with
        | Some hook =>
            (set_hookCalls (hookCalls s1 ++ [CalledSessionStart (sessionId s1)])
               s1,
             hook (sessionId s1))
        | None => (s1, Normal tt)
        end
    | None => (s1, Normal tt)
    end in
  match started with
  | (_, Throw err) => Throw err
  | (s2, Normal _) =>
      let s3 := if isBrowser s2
                then addEventListener "beforeunload" HBeforeUnload s2 else s2 in
      Normal (init s3)
  end.

(** A timeout comes due: the only callback the class schedules is
    [() => this.flushBatch()]. *)
Definition fireTimer (id : nat) (due : Z) (s : Sys) : Sys :=
  if existsb (fun t => Nat.eqb t.1 id) (timers s)
  then flushBatch (set_now (Z.max (now s) due)
                     (set_timers (filter (fun t => t.1 <> id) (timers s)) s))
  else s.

(** [dt] milliseconds pass: the timeouts due by then run at their due
    time, oldest first (all are scheduled with the same delay, so the
    list is in due order), and the clock ends at [now + dt]. *)
Definition elapse (dt : Z) (s : Sys) : Sys :=
  let target := (now s + Z.max 0 dt)%Z in
  set_now target
    (foldl (fun acc t =>
              if (t.2 <=? target)%Z then fireTimer t.1 t.2 acc else acc)
           s (timers s)).

(** ** Redaction filter *)

(** The DOM operations [redactDom] uses.  An [Element] is a handle to
    an element of a document; [querySelectorAll] throws a [SyntaxError]
    on a selector it cannot parse; [parseFromString] (with
    ['text/html']) has no failure case. *)
Class DomApi := {
  Document : Type;
  Element : Type;
  parseFromString : string -> Document;
  querySelectorAll : Document -> string -> Completion (list Element);
  isFormField : Document -> Element -> bool;
  setValue : Element -> string -> Document -> Document;
  setTextContent : Element -> string -> Document -> Document;
  outerHTML : Document -> string
}.

Definition REDACTED : string := "[REDACTED]".

Section Redaction.
Context {dom : DomApi}.

(** The body of the [forEach] callback; [isFormField] is the
    [instanceof HTMLInputElement || instanceof HTMLTextAreaElement]
    test. *)
Definition redactElement (doc : Document) (el : Element) : Document :=
  if isFormField doc el then setValue el REDACTED doc
  else setTextContent el REDACTED doc.

(** The [for ... of] loop over the selectors. *)
Fixpoint redactSelectorsIn (selectors : list string) (doc : Document)
  : Completion Document :=
  match selectors with
  | [] => Normal doc
  | selector :: rest =>
      match querySelectorAll doc selector with
      | Throw err => Throw err
      | Normal els => redactSelectorsIn rest (foldl redactElement doc els)
      end
  end.

Definition redactDom (browser : bool) (cfg : Config) (domString : string)
  : Completion string :=
  if negb browser then Normal domString
  else match redactSelectors cfg with
       | None => Normal domString
       | Some selectors =>
           if allowPII cfg then Normal domString
           else match redactSelectorsIn selectors (parseFromString domString) with
                | Throw err => Throw err
                | Normal doc => Normal (outerHTML doc)
                end
       end.
End Redaction.

(** *** A small DOM

    An instance of [DomApi] to run [redactDom] on: element trees with
    attributes, an HTML serialiser, and a parser and selector matcher
    for a fragment of HTML and CSS.  The fragment on which it agrees
    with a browser: lower-case tags that are properly nested (or void),
    attribute values without quotes inside, text without [&], no
    comments or white space between the structural tags; selectors of
    the forms [tag], [.class] and [#id].  The parser is total: like the
    HTML parser it builds a document from any string. *)
Module MiniDom.

(** [value] is the value an [<input>] or [<textarea>] holds once a
    script has assigned [el.value]: it is state of the element, not
    an attribute, and the serialiser does not print it. *)
#[local] Unset Elimination Schemes.
Inductive Node :=
  | Text (s : string)
  | Elem (tag : string) (attrs : list (string * string))
         (value : option string) (children : list Node).
#[local] Set Elimination Schemes.

Inductive Token :=
  | TText (s : string)
  | TOpen (tag : string) (attrs : list (string * string))
  | TClose (tag : string).

Definition dquote : ascii := "034"%char.
Definition is_space (c : ascii) : bool :=
  Ascii.eqb c " " || Ascii.eqb c "010" || Ascii.eqb c "009".
Definition is_void (tag : string) : bool :=
  existsb (String.eqb tag) ["input"; "br"; "img"; "hr"; "meta"; "link"].

Fixpoint span (p : ascii -> bool) (l : list ascii) : list ascii * list ascii :=
  match l with
  | [] => ([], [])
  | c :: r => if p c then let '(a, b) := span p r in (c :: a, b) else ([], l)
  end.

Fixpoint parse_attrs (fuel : nat) (l : list ascii) : list (string * string) :=
  match fuel with
  | O => []
  | S f =>
      match (span is_space l).2 with
      | [] => []
      | c :: r =>
          if Ascii.eqb c "/" then parse_attrs f r
          else
            let '(name, r1) :=
              span (fun x => negb (is_space x || Ascii.eqb x "=")) (c :: r) in
            match r1 with
            | e :: q :: r2 =>
                if Ascii.eqb e "=" && Ascii.eqb q dquote then
                  let '(val, r3) := span (fun x => negb (Ascii.eqb x dquote)) r2 in
                  (String.string_of_list_ascii name, String.string_of_list_ascii val)
                    :: parse_attrs f (tail r3)
                else if Ascii.eqb e "=" then
                  let '(val, r3) := span (fun x => negb (is_space x)) (q :: r2) in
                  (String.string_of_list_ascii name, String.string_of_list_ascii val)
                    :: parse_attrs f r3
                else (String.string_of_list_ascii name, "") :: parse_attrs f r1
            | _ => [(String.string_of_list_ascii name, "")]
            end
      end
  end.

Fixpoint tokenize (fuel : nat) (l : list ascii) : list Token :=
  match fuel with
  | O => []
  | S f =>
      match l with
      | [] => []
      | c :: r =>
          if Ascii.eqb c "<" then
            let '(body, r1) := span (fun x => negb (Ascii.eqb x ">")) r in
            match r1 with
            | [] => [TText (String.string_of_list_ascii l)]
            | _ :: r2 =>
                match body with
                | b :: nm =>
                    if Ascii.eqb b "/"
                    then TClose (String.string_of_list_ascii nm) :: tokenize f r2
                    else if Ascii.eqb b "!" then tokenize f r2
                    else
                      let '(name, rest) :=
                        span (fun x => negb (is_space x || Ascii.eqb x "/")) body in
                      TOpen (String.string_of_list_ascii name)
                            (parse_attrs (length rest) rest)
                        :: tokenize f r2
                | [] => tokenize f r2
                end
            end
          else
            let '(txt, r1) := span (fun x => negb (Ascii.eqb x "<")) l in
            TText (String.string_of_list_ascii txt) :: tokenize f r1
      end
  end.

(** Tree construction: an end tag closes the innermost open element;
    what is still open at the end of input is closed there. *)
Fixpoint forest (fuel : nat) (toks : list Token) : list Node * list Token :=
  match fuel with
  | O => ([], [])
  | S f =>
      match toks with
      | [] => ([], [])
      | TText s :: rest =>
          let '(ns, rest') := forest f rest in (Text s :: ns, rest')
      | TClose _ :: rest => ([], rest)
      | TOpen tag attrs :: rest =>
          if is_void tag then
            let '(ns, rest') := forest f rest in
            (Elem tag attrs None [] :: ns, rest')
          else
            let '(kids, rest1) := forest f rest in
            let '(sibs, rest2) := forest f rest1 in
            (Elem tag attrs None kids :: sibs, rest2)
      end
  end.

Fixpoint top_level (fuel : nat) (toks : list Token) : list Node :=
  match fuel with
  | O => []
  | S f =>
      match toks with
      | [] => []
      | _ :: _ =>
          let '(ns, rest) := forest (S (length toks)) toks in
          ns ++ top_level f rest
      end
  end.

Definition has_tag (t : string) (n : Node) : bool :=
  match n with
  | Elem tag _ _ _ => String.eqb tag t
  | Text _ => false
  end.

Definition kids (n : Node) : list Node :=
  match n with
  | Elem _ _ _ children => children
  | Text _ => []
  end.

Definition attrs_of (n : Node) : list (string * string) :=
  match n with
  | Elem _ attrs _ _ => attrs
  | Text _ => []
  end.

(** The [html], [head] and [body] elements are there whether or not
    the text has their tags. *)
Definition document_of (ns : list Node) : Node :=
  let '(hattrs, content) :=
    match ns with
    | [Elem "html" a _ c] => (a, c)
    | _ => ([], ns)
    end in
  let head := default (Elem "head" [] None [])
                      (snd <$> list_find (has_tag "head") content) in
  let others :=
    List.filter (fun n => negb (has_tag "head" n || has_tag "body" n)) content in
  let body :=
    match snd <$> list_find (has_tag "body") content with
    | Some b => Elem "body" (attrs_of b) None (kids b ++ others)
    | None => Elem "body" [] None others
    end in
  Elem "html" hattrs None [head; body].

Definition parse (s : string) : Node :=
  let toks := tokenize (S (String.length s)) (String.list_ascii_of_string s) in
  document_of (top_level (S (length toks)) toks).

Fixpoint escape (attr : bool) (s : string) : string :=
  match s with
  | EmptyString => EmptyString
  | String c r =>
      String.append
        (if Ascii.eqb c "&" then "&amp;"
         else if attr then
                (if Ascii.eqb c dquote then "&quot;" else String c EmptyString)
         else if Ascii.eqb c "<" then "&lt;"
         else if Ascii.eqb c ">" then "&gt;"
         else String c EmptyString)
        (escape attr r)
  end.

Definition print_attr (a : string * string) : string :=
  String.append " "
    (String.append a.1
       (String.append "="
          (String (dquote)
             (String.append (escape true a.2) (String dquote EmptyString))))).

Fixpoint serialize (n : Node) : string :=
  match n with
  | Text s => escape false s
  | Elem tag attrs _ children =>
      String.append "<"
        (String.append tag
           (String.append (String.concat "" (print_attr <$> attrs))
              (String.append ">"
                 (if is_void tag then ""
                  else String.append
                         (String.concat "" (List.map serialize children))
                         (String.append "</" (String.append tag ">"))))))
  end.

Inductive Selector :=
  | SelTag (t : string)
  | SelClass (c : string)
  | SelId (i : string).

Definition ident_char (c : ascii) : bool :=
  let n := nat_of_ascii c in
  ((97 <=? n) && (n <=? 122) || (65 <=? n) && (n <=? 90)
   || (48 <=? n) && (n <=? 57) || (n =? 45) || (n =? 95))%nat.

Definition is_ident (s : string) : bool :=
  match s with
  | EmptyString => false
  | String c _ =>
      negb ((48 <=? nat_of_ascii c) && (nat_of_ascii c <=? 57))%nat
      && forallb ident_char (String.list_ascii_of_string s)
  end.

Definition parse_selector (s : string) : option Selector :=
  match s with
  | String c r =>
      if Ascii.eqb c "." then (if is_ident r then Some (SelClass r) else None)
      else if Ascii.eqb c "#" then (if is_ident r then Some (SelId r) else None)
      else if is_ident s then Some (SelTag s) else None
  | EmptyString => None
  end.

Fixpoint split_spaces (fuel : nat) (l : list ascii) : list string :=
  match fuel with
  | O => []
  | S f =>
      match (span is_space l).2 with
      | [] => []
      | c :: r =>
          let '(w, rest) := span (fun x => negb (is_space x)) (c :: r) in
          String.string_of_list_ascii w :: split_spaces f rest
      end
  end.

Definition attr (k : string) (n : Node) : option string :=
  snd <$> (snd <$> list_find (fun a => a.1 = k) (attrs_of n)).

Definition node_matches (sel : Selector) (n : Node) : bool :=
  match n with
  | Text _ => false
  | Elem tag _ _ _ =>
      match sel with
      | SelTag t => String.eqb tag t
      | SelClass c =>
          match attr "class" n with
          | Some v =>
              existsb (String.eqb c)
                (split_spaces (S (String.length v)) (String.list_ascii_of_string v))
          | None => false
          end
      | SelId i =>
          match attr "id" n with
          | Some v => String.eqb v i
          | None => false
          end
      end
  end.

(** Paths (child indices from the root) of the matching elements, in
    document order. *)
Fixpoint matches_in (sel : Selector) (n : Node) : list (list nat) :=
  match n with
  | Text _ => []
  | Elem _ _ _ children =>
      (if node_matches sel n then [[]] else [])
        ++ (fix go (i : nat) (ks : list Node) : list (list nat) :=
              match ks with
              | [] => []
              | k :: ks' => (cons i <$> matches_in sel k) ++ go (S i) ks'
              end) O children
  end.

Fixpoint node_at (p : list nat) (n : Node) : option Node :=
  match p with
  | [] => Some n
  | i :: p' =>
      match kids n !! i with
      | Some k => node_at p' k
      | None => None
      end
  end.

Fixpoint update_at (p : list nat) (f : Node -> Node) (n : Node) : Node :=
  match p with
  | [] => f n
  | i :: p' =>
      match n with
      | Elem tag attrs v children =>
          Elem tag attrs v (alter (update_at p' f) i children)
      | Text _ => n
      end
  end.

Definition assign_value (v : string) (n : Node) : Node :=
  match n with
  | Elem tag attrs _ children => Elem tag attrs (Some v) children
  | Text _ => n
  end.

Definition assign_textContent (v : string) (n : Node) : Node :=
  match n with
  | Elem tag attrs val _ =>
      Elem tag attrs val (if String.eqb v "" then [] else [Text v])
  | Text _ => n
  end.

#[export] Instance dom : DomApi := {|
  Document := Node;
  Element := list nat;
  parseFromString := parse;
  querySelectorAll doc selector :=
    match parse_selector selector with
    | Some sel => Normal (matches_in sel doc)
    | None =>
        Throw (String.append "SyntaxError: not a valid selector: " selector)
    end;
  isFormField doc el :=
    match node_at el doc with
    | Some n => has_tag "input" n || has_tag "textarea" n
    | None => false
    end;
  setValue el v doc := update_at el (assign_value v) doc;
  setTextContent el v doc := update_at el (assign_textContent v) doc;
  outerHTML := serialize
|}.

End MiniDom.

(** ** Runs of the delivery queue *)

(** What happens while one [sendBatch] of a drain is awaited: the
    events that [queueError] appends meanwhile, then how the fetch
    settles. *)
Record Round := mkRound {
  arrivals : list ErrorData;
  outcome : FetchOutcome
}.

Definition is_drain (k : Kont) : bool :=
  match k with
  | KFlushQueue _ => true
  | KFlushBatch _ => false
  end.

(** The fetch a running drain is waiting for. *)
Definition drainRequest (s : Sys) : option nat :=
  match list_find (fun r => is_drain (req_kont r.2) = true) (inflight s) with
  | Some (_, (id, _)) => Some id
  | None => None
  end.

Definition queueErrors (es : list ErrorData) (s : Sys) : Sys :=
  foldl (fun acc e => queueError e acc) s es.

(** A drain in progress goes through the rounds until it ends. *)
Fixpoint drain (rounds : list Round) (s : Sys) : Sys :=
  match rounds with
  | [] => s
  | r :: rest =>
      match drainRequest s with
      | None => s
      | Some id => drain rest (settle 0 id (outcome r) (queueErrors (arrivals r) s))
      end
  end.

(** Handles in use are below [nextId]; no drain is awaiting a fetch. *)
Definition ids_fresh (s : Sys) : Prop :=
  Forall (fun r => r.1 < nextId s) (inflight s).

Definition no_drain (s : Sys) : Prop :=
  Forall (fun r => is_drain (req_kont r.2) = false) (inflight s).

(** What [saveQueue queue] leaves in storage. *)
Definition persisted (queue : list ErrorData) (s : Sys) : Stored :=
  if isBrowser s && storageOk s && forallb (stringifies (heap s)) queue
  then Encoded (freezeEvent (heap s) <$> queue)
  else localStorage s.

(** ** Runs of the breadcrumb trail *)

(** The contents of the trail array. *)
Definition trail (s : Sys) : list Breadcrumb :=
  default [] (heap s !! breadcrumbs s).

Definition addBreadcrumbs (bs : list Breadcrumb) (s : Sys) : Sys :=
  foldl (fun acc b => addBreadcrumb b acc) s bs.

(** The last [BREADCRUMB_LIMIT] elements of a list. *)
Definition newest (l : list Breadcrumb) : list Breadcrumb :=
  drop (length l - BREADCRUMB_LIMIT) l.

(** ** Failure points of the capture pipeline *)

(** Where the steps of [handleError] that follow the transform throw,
    if they do: the error, the event as mutated so far, and the state
    at that point.  (Merging the metadata and handing the event to the
    batch have no throwing operation.) *)
Definition failsAfterTransform (errorData : ErrorData) (s : Sys)
  : option (string * ErrorData * Sys) :=
  match attachRecording errorData s with
  | Throw err => Some (err, errorData, s)
  | Normal (errorData1, s1) =>
      let '(errorData2, s2) := mergeMetadata errorData1 s1 in
      match callOnErrorCaptured errorData2 s2 with
      | (s3, Throw err) => Some (err, errorData2, s3)
      | (_, Normal _) => None
      end
  end.

Definition diagnostic (err : string) : ConsoleCall :=
  mkConsoleCall "warn"
    [VStr "ErrorWatch: Failed to queue error for batch"; VStr err].

(** ** Runs of the batch accumulator *)

(** What happens to the accumulator: an event is added, or time
    passes. *)
Inductive BatchInput :=
  | Add (e : ErrorData)
  | Wait (dt : Z).

Definition batch_step (s : Sys) (i : BatchInput) : Sys :=
  match i with
  | Add e => addToBatch e s
  | Wait dt => elapse dt s
  end.

Definition batch_run (inputs : list BatchInput) (s : Sys) : Sys :=
  foldl batch_step s inputs.

(** The flushes so far: when each was made and what it carried. *)
Definition flushes (s : Sys) : list (Z * list ErrorData) :=
  omap (fun r : nat * Request =>
          match req_kont r.2 with
          | KFlushBatch b => Some (req_time r.2, b)
          | KFlushQueue _ => None
          end) (inflight s).

Definition added (inputs : list BatchInput) : list ErrorData :=
  omap (fun i => match i with Add e => Some e | Wait _ => None end) inputs.

(** The accumulator as the specification words it: the pending events,
    the time of the first addition to the empty batch, and a flush when
    the count reaches [BATCH_SIZE] or when [BATCH_INTERVAL] has elapsed
    since that first addition, whichever comes first. *)
Record Accumulator := mkAccumulator {
  acc_now : Z;
  acc_pending : list ErrorData;
  acc_since : option Z;
  acc_flushed : list (Z * list ErrorData)
}.

Definition spec_step (a : Accumulator) (i : BatchInput) : Accumulator :=
  match i with
  | Add e =>
      let pending := acc_pending a ++ [e] in
      if (BATCH_SIZE <=? length pending)%nat
      then mkAccumulator (acc_now a) [] None
             (acc_flushed a ++ [(acc_now a, pending)])
      else mkAccumulator (acc_now a) pending
             (Some (default (acc_now a) (acc_since a))) (acc_flushed a)
  | Wait dt =>
      let target := (acc_now a + Z.max 0 dt)%Z in
      match acc_since a with
      | Some t0 =>
          if (t0 + BATCH_INTERVAL <=? target)%Z
          then mkAccumulator target [] None
                 (acc_flushed a ++ [((t0 + BATCH_INTERVAL)%Z, acc_pending a)])
          else mkAccumulator target (acc_pending a) (Some t0) (acc_flushed a)
      | None => mkAccumulator target (acc_pending a) None (acc_flushed a)
      end
  end.

Definition spec_run (inputs : list BatchInput) (a : Accumulator) : Accumulator :=
  foldl spec_step a inputs.

(** The event and the state that [handleError] hands to [addToBatch]
    when no step throws. *)
Definition enriched (errorData : ErrorData) (s : Sys) : ErrorData * Sys :=
  match attachRecording errorData s with
  | Normal (errorData1, s1) =>
      let '(errorData2, s2) := mergeMetadata errorData1 s1 in
      (errorData2, (callOnErrorCaptured errorData2 s2).1)
  | Throw _ => (errorData, s)
  end.

(** The listeners a new instance registers in a browser. *)
Definition browserListeners : list (string * Handler) :=
  [("online", HOnline); ("beforeunload", HBeforeUnload); ("error", HError);
   ("unhandledrejection", HUnhandledRejection); ("popstate", HPopstate);
   ("hashchange", HHashchange); ("click", HClick)].

(** The event the ['error'] listener makes of an [ErrorEvent] of the
    window. *)
Definition windowErrorData (msg : string) (errStack : option string)
    (filename : string) (lineno colno : Z) (s : Sys) : ErrorData :=
  mkErrorData msg errStack
    (if String.eqb filename "" then location_href s else filename)
    (Some lineno) (Some colno) (navigator_userAgent s) (now s)
    SevError None None.

(** The event the ['unhandledrejection'] listener makes of a
    [PromiseRejectionEvent]. *)
Definition rejectionData (reason : string) (reasonStack : option string)
    (s : Sys) : ErrorData :=
  mkErrorData (String.append "Unhandled Promise Rejection: " reason)
    reasonStack (location_href s) None None (navigator_userAgent s)
    (now s) SevError
    (Some (<["reason" := VStr reason]>
             (<["type" := VStr "unhandledrejection"]>
                (∅ : gmap string JsVal))))
    None.

(** ** Instances to run the code on *)

(** A new instance, or the field initialisers alone when the
    constructor throws. *)
Definition newInstance (c : ErrorWatchConfig) (h : Host) : Sys :=
  match constructor c h with
  | Normal s => s
  | Throw _ => blank (defaultConfig c) h
  end.

(** Only the two required options are given. *)
Definition sampleConfig : ErrorWatchConfig :=
  mkUserConfig "key" "proj" None None None None None None None None None None.

Definition browserHost : Host :=
  mkHost true 1000 "http://app.test/" "UA" NoItem true "s1".

Definition nodeHost : Host :=
  mkHost false 1000 "" "" NoItem false "s1".

Definition sampleEvent (msg : string) : ErrorData :=
  mkErrorData msg None "http://app.test/" None None "UA" 1000 SevError None None.

Definition sampleUser : User := mkUser "u1" (Some "u1@app.test") None.

(** A drain entering its loop with four queued events. *)
Definition queued4 : Sys :=
  set_isSendingQueue true
    (set_errorQueue
       [sampleEvent "a"; sampleEvent "b"; sampleEvent "c"; sampleEvent "d"]
       (newInstance sampleConfig browserHost)).

(** Two frames of a recording, 30001 ms apart. *)
Definition frame0 : Frame := mkFrame 1000 "<p>first</p>" true.
Definition frame1 : Frame := mkFrame 31001 "<p>second</p>" true.

Definition sampleCrumbs (n : nat) : list Breadcrumb :=
  (fun i => mkBreadcrumb "ui" "click" VNull (Z.of_nat i)) <$> seq 0 n.

Definition set_redaction (selectors : option (list string)) (pii : bool)
    (c : Config) : Config :=
  mkConfig (apiKey c) (projectId c) (environment c) (baseUrl c)
    (enableScreenRecording c) (maxRecordingDuration c) (captureConsole c)
    (captureNetwork c) (beforeSend c) selectors pii (analyticsHooks c).

(** An instance told to redact the elements of class [pw]. *)
Definition redactingConfig : ErrorWatchConfig :=
  mkUserConfig "key" "proj" None None None None None None None
    (Some (Some [".pw"])) (Some false) None.

Definition secretFrame : Frame :=
  mkFrame 1000 "<p class=pw>secret</p>" true.

(** What the attached recording would be if every frame's DOM content
    went through [redactDom] before serialisation. *)
Definition redactedFrames (cfg : Config) (fs : list Frame) : list Frame :=
  (fun f =>
     match redactDom (dom := MiniDom.dom) true cfg (frame_data f) with
     | Normal d => mkFrame (frame_timestamp f) d (frame_serializable f)
     | Throw _ => f
     end) <$> fs.

(** One event waiting in the batch, outside a browser. *)
Definition pendingNode : Sys :=
  (captureMessage 1 "m" None None (newInstance sampleConfig nodeHost)).1.

(** An instance outside a browser whose [onErrorCaptured] hook throws. *)
Definition hookThrows : Sys :=
  newInstance
    (mkUserConfig "key" "proj" None None None None None None None None None
       (Some (mkHooks (Some (fun _ => Throw "Error: hook failed")) None None)))
    nodeHost.

(** ** Relations between states used in the proofs *)

(** From [s] to [s']: the queue and the console trace only grow at the
    end; [console.warn] and the drain flag stay as they are; the
    fetches issued meanwhile are batch flushes with new handles. *)
Definition grows (s s' : Sys) : Prop :=
  (exists q, errorQueue s' = errorQueue s ++ q)
  /\ (exists c, consoleCalls s' = consoleCalls s ++ c)
  /\ console_warn_patched s' = console_warn_patched s
  /\ isSendingQueue s' = isSendingQueue s
  /\ nextId s <= nextId s'
  /\ (exists new,
        inflight s' = inflight s ++ new
        /\ Forall (fun r : nat * Request =>
                     nextId s <= r.1 < nextId s'
                     /\ is_drain (req_kont r.2) = false) new).

(** From [s] to [s']: the batch, the queue, the timers and the fetches
    are the same, and the console trace has grown at the end. *)
Definition same_delivery (s s' : Sys) : Prop :=
  errorQueue s' = errorQueue s /\ batch s' = batch s
  /\ inflight s' = inflight s /\ timers s' = timers s
  /\ batchTimer s' = batchTimer s
  /\ console_warn_patched s' = console_warn_patched s
  /\ (exists c, consoleCalls s' = consoleCalls s ++ c)
  /\ now s' = now s /\ nextId s' = nextId s.

(** The accumulator of the specification, kept well formed: fewer than
    [BATCH_SIZE] events pending, a first-addition time exactly when
    something is pending, and the events flushed or pending are the
    events added. *)
Definition spec_inv (a : Accumulator) : Prop :=
  length (acc_pending a) < BATCH_SIZE
  /\ (acc_since a = None <-> acc_pending a = [])
  /\ Forall (fun f : Z * list ErrorData =>
               length f.2 = BATCH_SIZE \/ 0 < length f.2 < BATCH_SIZE)
            (acc_flushed a).

(** The state of the class matches the accumulator of the
    specification; [f0] is what had been flushed before the run. *)
Definition batch_inv (f0 : list (Z * list ErrorData)) (s : Sys)
    (a : Accumulator) : Prop :=
  now s = acc_now a
  /\ batch s = acc_pending a
  /\ flushes s = f0 ++ acc_flushed a
  /\ match acc_since a with
     | None => batchTimer s = None /\ timers s = []
     | Some t0 =>
         exists id, batchTimer s = Some id
                    /\ timers s = [(id, (t0 + BATCH_INTERVAL)%Z)]
                    /\ (now s < t0 + BATCH_INTERVAL)%Z
     end.

(** ** Runs of an instance *)

(** What can happen to an instance once it is constructed: a call of
    its public API, a window event, a console call, a frame from the
    recorder, time passing, a fetch settling. *)
Inductive Op :=
  | CallCaptureError (error : JsError) (meta : option (gmap string JsVal))
  | CallCaptureMessage (msg : string) (sev : option Severity)
                       (meta : option (gmap string JsVal))
  | CallCaptureEvent (eventName : string) (data : option (gmap string JsVal))
  | CallSetUser (user : User)
  | CallSetContext (key : string) (value : JsVal)
  | CallDestroy
  | Window (ev : WindowEvent)
  | ConsoleError (args : list string)
  | ConsoleWarn (args : list string)
  | ConsoleLog (args : list JsVal)
  | RecorderEmits (event : Frame)
  | TimePasses (dt : Z)
  | FetchSettles (id : nat) (o : FetchOutcome).

(** One step of a run.  The recorder calls [emit] only while a
    recording is registered. *)
Definition step (stack : nat) (s : Sys) (op : Op) : Sys :=
  match op with
  | CallCaptureError error meta => (captureError stack error meta s).1
  | CallCaptureMessage msg sev meta => (captureMessage stack msg sev meta s).1
  | CallCaptureEvent eventName data => (captureEvent stack eventName data s).1
  | CallSetUser user => setUser user s
  | CallSetContext key value => setContext key value s
  | CallDestroy => destroy s
  | Window ev => dispatchEvent stack ev s
  | ConsoleError args => (console_error stack args s).1
  | ConsoleWarn args => (console_warn stack args s).1
  | ConsoleLog args => console_log args s
  | RecorderEmits event =>
      match recorders s with
      | [] => s
      | _ :: _ => emit event s
      end
  | TimePasses dt => elapse dt s
  | FetchSettles id o => settle stack id o s
  end.

Definition run (stack : nat) (ops : list Op) (s : Sys) : Sys :=
  foldl (step stack) s ops.

(** The fetches a drain of the queue is waiting for. *)
Definition drains (s : Sys) : list (nat * Request) :=
  filter (fun r => is_drain (req_kont r.2) = true) (inflight s).

(** The batch at rest: fewer than [BATCH_SIZE] events, and one timeout
    pending exactly when there is an event, due within
    [BATCH_INTERVAL]. *)
Definition batch_ok (s : Sys) : Prop :=
  length (batch s) < BATCH_SIZE
  /\ match batchTimer s with
     | Some id =>
         batch s <> []
         /\ exists due, timers s = [(id, due)]
                        /\ (now s < due <= now s + BATCH_INTERVAL)%Z
     | None => batch s = [] /\ timers s = []
     end.

(** The fetches in flight have distinct handles, and a drain is waiting
    for exactly one of them when [isSendingQueue] is set, for none
    otherwise. *)
Definition drain_ok (s : Sys) : Prop :=
  NoDup (fst <$> inflight s)
  /\ ids_fresh s
  /\ length (drains s) = if isSendingQueue s then 1 else 0.

(** The fields the two conditions read are the same, up to handles
    drawn. *)
Definition delivery_frame (s s' : Sys) : Prop :=
  batch s' = batch s /\ batchTimer s' = batchTimer s /\ timers s' = timers s
  /\ now s' = now s /\ inflight s' = inflight s /\ nextId s <= nextId s'
  /\ isSendingQueue s' = isSendingQueue s.

Definition delivery_ok (s : Sys) : Prop := batch_ok s /\ drain_ok s.

(** The events a continuation holds while its fetch is awaited. *)
Definition kont_events (k : Kont) : list ErrorData :=
  match k with
  | KFlushBatch batchToSend => batchToSend
  | KFlushQueue taken => taken
  end.

(** The events the instance holds for delivery: in the queue, in the
    batch, or in a local array of a flush or drain awaiting its fetch. *)
Definition pending (s : Sys) : list ErrorData :=
  errorQueue s ++ batch s
    ++ concat ((fun r : nat * Request => kont_events (req_kont r.2)) <$> inflight s).

(** The events whose delivery a step confirms: those of the fetch that
    settles, when [sendBatch] returns for it. *)
Definition delivered (s : Sys) (op : Op) : list ErrorData :=
  match op with
  | FetchSettles id o =>
      match list_find (fun r : nat * Request => r.1 = id) (inflight s),
            sendBatch_settled o with
      | Some (_, (_, req)), Normal _ => kont_events (req_kont req)
      | _, _ => []
      end
  | _ => []
  end.

Fixpoint delivered_in (stack : nat) (ops : list Op) (s : Sys) : list ErrorData :=
  match ops with
  | [] => []
  | op :: rest => delivered s op ++ delivered_in stack rest (step stack s op)
  end.

(** The steps in which nothing is captured. *)
Definition captures_nothing (op : Op) : bool :=
  match op with
  | CallSetUser _ | CallSetContext _ _ | CallDestroy | ConsoleLog _
  | RecorderEmits _ | TimePasses _ => true
  | Window ev =>
      match ev with
      | EvError _ _ _ _ _ | EvUnhandledRejection _ _ => false
      | _ => true
      end
  | FetchSettles _ o =>
      match sendBatch_settled o with
      | Normal _ => true
      | Throw _ => false
      end
  | _ => false
  end.

(** From [s] to [s']: every event held for delivery is still held. *)
Definition keeps (s s' : Sys) : Prop :=
  exists new, pending s' ≡ₚ pending s ++ new.

(** What construction installs and the identity of the session are
    the same in [s] and [s']; of the configuration, only [beforeSend]
    may differ. *)
Definition same_setup (s s' : Sys) : Prop :=
  listeners s' = listeners s
  /\ console_error_patched s' = console_error_patched s
  /\ console_warn_patched s' = console_warn_patched s
  /\ console_log_patched s' = console_log_patched s
  /\ sessionId s' = sessionId s
  /\ sessionStartTime s' = sessionStartTime s
  /\ breadcrumbs s' = breadcrumbs s
  /\ set_beforeSend (beforeSend (config s)) (config s') = config s.

(** An event without its metadata. *)
Definition plain (e : ErrorData) : ErrorData := set_metadata None e.

(** The queue, its stored copy and the drain flag are the same in [s]
    and [s']. *)
Definition queue_frame (s s' : Sys) : Prop :=
  errorQueue s' = errorQueue s /\ localStorage s' = localStorage s
  /\ isSendingQueue s' = isSendingQueue s
  /\ isBrowser s' = isBrowser s /\ storageOk s' = storageOk s.

(** The stored copy lists the events of the queue, in order. *)
Definition synced (s : Sys) : Prop :=
  plain <$> loadQueue true true (localStorage s) = plain <$> errorQueue s.

(** A metadata value that [JSON.stringify] can write, the breadcrumb
    array it may refer to apart. *)
Definition val_ok (v : JsVal) : bool :=
  match v with
  | VArrRef _ => true
  | _ => writable v
  end.

Definition event_ok (e : ErrorData) : Prop :=
  forall m k v, metadata e = Some m -> m !! k = Some v -> val_ok v = true.

Definition crumb_ok (b : Breadcrumb) : Prop := writable (bc_data b) = true.

(** Nothing that [JSON.stringify] throws on is held: not in a
    breadcrumb array, not in an event held for delivery. *)
Definition all_writable (s : Sys) : Prop :=
  Forall (Forall crumb_ok) (heap s) /\ Forall event_ok (pending s).

(** The values a step hands to the instance are ones that
    [JSON.stringify] can write. *)
Definition meta_ok (meta : option (gmap string JsVal)) : Prop :=
  forall m k v, meta = Some m -> m !! k = Some v -> val_ok v = true.

Definition op_writable (op : Op) : Prop :=
  match op with
  | CallCaptureError _ meta => meta_ok meta
  | CallCaptureMessage _ _ meta => meta_ok meta
  | CallCaptureEvent _ data => meta_ok data
  | ConsoleLog args => forallb writable args = true
  | _ => True
  end.

(** A stored queue read by [JSON.parse] holds no such value. *)
Definition stored_writable (item : Stored) : Prop :=
  match item with
  | Encoded q => Forall event_ok q
  | _ => True
  end.

(** Storage works, nothing held defeats [JSON.stringify], and storage
    holds the queue whenever no drain is running. *)
Definition persists (s : Sys) : Prop :=
  isBrowser s = true /\ storageOk s = true /\ all_writable s
  /\ (isSendingQueue s = false -> synced s).

(** Storage is out of reach, and holds [item]. *)
Definition never_stores (item : Stored) (s : Sys) : Prop :=
  isBrowser s && storageOk s = false /\ localStorage s = item.

(** The steps that only move events along leave these fields as they
    are. *)
Definition delivery_only (s s' : Sys) : Prop :=
  config s' = config s /\ isRecording s' = isRecording s
  /\ recordingEvents s' = recordingEvents s
  /\ stopRecording s' = stopRecording s /\ recorders s' = recorders s
  /\ hookCalls s' = hookCalls s /\ sessionId s' = sessionId s
  /\ isBrowser s' = isBrowser s.

(** The recorder is off for good, or it is the one that construction
    started. *)
Definition recording_ok (s0 s : Sys) : Prop :=
  recorders s = []
  \/ (isRecording s = true /\ recorders s = recorders s0
      /\ exists r, recorders s = [r] /\ stopRecording s = Some r).

(** No recorder is registered, and the frame buffer is [frames] or has
    been emptied. *)
Definition recording_over (frames : list Frame) (s : Sys) : Prop :=
  recorders s = []
  /\ (recordingEvents s = frames \/ recordingEvents s = []).

(** A hook call that may follow construction: anything but a session
    start, and a session end reports the session [id]. *)
Definition after_start (id : string) (c : HookCall) : Prop :=
  match c with
  | CalledSessionStart _ => False
  | CalledSessionEnd id' => id' = id
  | CalledErrorCaptured _ => True
  end.

(** The hook calls of [s] are those of [s0] followed by calls that may
    follow construction. *)
Definition hooks_ok (s0 s : Sys) : Prop :=
  sessionId s = sessionId s0
  /\ exists rest, hookCalls s = hookCalls s0 ++ rest
                  /\ Forall (after_start (sessionId s0)) rest.

(** A request as [sendBatch] makes it under the configuration [cfg]:
    where it goes, and that its body lists, in order, the events its
    caller holds on to. *)
Definition request_ok (cfg : Config) (req : Request) : Prop :=
  req_url req = baseUrl cfg
  /\ req_authorization req = String.append "Bearer " (apiKey cfg)
  /\ req_project req = projectId cfg
  /\ kont_events (req_kont req) <> []
  /\ p_message <$> req_body req = message <$> kont_events (req_kont req)
  /\ level <$> req_body req = severity <$> kont_events (req_kont req)
  /\ p_timestamp <$> req_body req = timestamp <$> kont_events (req_kont req)
  /\ Forall (fun p => project_id p = projectId cfg
                      /\ p_environment p = environment cfg
                      /\ sdk p = "errorwatch-js/1.0.0" /\ ip_address p = "")
            (req_body req).

(** The configuration is that of [s0] but for [beforeSend], and the
    fetches in flight are well made. *)
Definition requests_ok (s0 s : Sys) : Prop :=
  set_beforeSend (beforeSend (config s0)) (config s) = config s0
  /\ Forall (fun r : nat * Request => request_ok (config s0) r.2) (inflight s).

(** [beforeSend] as [setUser] and [setContext] make it of the default
    transform: the identity, wrapped once per call. *)
Inductive default_transform
  : (ErrorEvent -> Completion (option ErrorEvent)) -> Prop :=
  | transform_default : default_transform (fun error => Normal (Some error))
  | transform_key k v f :
      default_transform f -> default_transform (with_metadata_key k v f).

(** * Properties *)

#[local] Arguments Nat.ltb : simpl never.
#[local] Arguments Nat.leb : simpl never.
#[local] Arguments Z.ltb : simpl never.
#[local] Arguments Z.leb : simpl never.

(** ** Storage and queue lemmas *)

Lemma saveQueue_eq queue s :
  saveQueue queue s = set_localStorage (persisted queue s) s.
Proof.
  unfold saveQueue, persisted.
  destruct s as [? ? ? ? ? ? ? ? ? ? ? ? browser ? ? ? ? ok ? ? ? ? ? ? ? ? ? ? ?].
  destruct browser, ok; cbn; try reflexivity.
  by destruct (forallb _ _).
Qed.

Lemma queueError_eq e s :
  queueError e s =
  set_localStorage (persisted (errorQueue s ++ [e]) s)
    (set_errorQueue (errorQueue s ++ [e]) s).
Proof. unfold queueError. rewrite saveQueue_eq. reflexivity. Qed.

(** [queueErrors] changes the queue and the stored item only. *)
Lemma queueErrors_eq es : forall s,
  queueErrors es s =
  set_localStorage (localStorage (queueErrors es s))
    (set_errorQueue (errorQueue s ++ es) s).
Proof.
  induction es as [|e es IH]; intros s.
  - cbn. rewrite app_nil_r. by destruct s.
  - unfold queueErrors in *. cbn [foldl]. rewrite IH at 1.
    rewrite queueError_eq. cbn.
    by rewrite <- (app_assoc (errorQueue s) [e] es).
Qed.

Lemma queueErrors_errorQueue es s :
  errorQueue (queueErrors es s) = errorQueue s ++ es.
Proof. by rewrite queueErrors_eq. Qed.

Lemma queueErrors_frame es s :
  inflight (queueErrors es s) = inflight s
  /\ nextId (queueErrors es s) = nextId s
  /\ isSendingQueue (queueErrors es s) = isSendingQueue s
  /\ batch (queueErrors es s) = batch s
  /\ batchTimer (queueErrors es s) = batchTimer s
  /\ isBrowser (queueErrors es s) = isBrowser s
  /\ storageOk (queueErrors es s) = storageOk s
  /\ heap (queueErrors es s) = heap s
  /\ config (queueErrors es s) = config s.
Proof. rewrite queueErrors_eq. by cbn. Qed.

Lemma queueErrors_snoc es e s :
  queueErrors (es ++ [e]) s = queueError e (queueErrors es s).
Proof. unfold queueErrors. by rewrite foldl_app. Qed.

(** Where no save goes through, the stored item stays. *)
Lemma queueErrors_unsaved es s :
  isBrowser s && storageOk s = false ->
  localStorage (queueErrors es s) = localStorage s.
Proof.
  intros Hno. induction es as [|e es IH] using rev_ind; [done|].
  rewrite queueErrors_snoc, queueError_eq. cbn. unfold persisted.
  destruct (queueErrors_frame es s) as (_ & _ & _ & _ & _ & -> & -> & _).
  by rewrite Hno.
Qed.

(** After [queueErrors] the stored item is what the last save that
    went through wrote: the whole queue when [JSON.stringify] can write
    it. *)
Lemma queueErrors_localStorage es s :
  es <> [] ->
  isBrowser s && storageOk s = false
  \/ forallb (stringifies (heap s)) (errorQueue s ++ es) = true ->
  localStorage (queueErrors es s) = persisted (errorQueue s ++ es) s.
Proof.
  intros Hne Hcase.
  induction es as [|e0 es0 _] using rev_ind; [done|]. clear Hne.
  rewrite queueErrors_snoc, queueError_eq. cbn. unfold persisted.
  rewrite queueErrors_errorQueue, <- app_assoc.
  destruct (queueErrors_frame es0 s) as (_ & _ & _ & _ & _ & -> & -> & -> & _).
  destruct Hcase as [Hno|Hw].
  - rewrite Hno. cbn. by apply queueErrors_unsaved.
  - rewrite Hw. destruct (isBrowser s && storageOk s) eqn:E; [done|].
    cbn. by apply queueErrors_unsaved.
Qed.

Lemma filter_keep_all {A} (P : A -> Prop) `{!forall x, Decision (P x)} (l : list A) :
  Forall P l -> filter P l = l.
Proof.
  induction 1 as [|x l Hx _ IH]; [done|].
  rewrite filter_cons_True by done. by rewrite IH.
Qed.

Lemma list_find_last {A} (P : A -> Prop) `{!forall x, Decision (P x)}
    (l : list A) (x : A) :
  Forall (fun y => ~ P y) l -> P x -> list_find P (l ++ [x]) = Some (length l, x).
Proof.
  induction 1 as [|y l Hy _ IH]; intros Hx; cbn.
  - by rewrite decide_True.
  - rewrite decide_False by done. by rewrite IH.
Qed.

(** Settling the fetch that was issued last. *)
Lemma settle_last stack l id req o s :
  inflight s = l ++ [(id, req)] ->
  Forall (fun r : nat * Request => r.1 <> id) l ->
  settle stack id o s =
  match req_kont req with
  | KFlushBatch batchToSend =>
      (flushBatch_settled stack batchToSend o (set_inflight l s)).1
  | KFlushQueue taken => flushQueue_settled taken o (set_inflight l s)
  end.
Proof.
  intros Hin Hl. unfold settle. rewrite Hin.
  rewrite (list_find_last (fun r : nat * Request => r.1 = id) l (id, req)); [|done..].
  rewrite filter_app, (filter_keep_all _ l Hl).
  rewrite filter_cons_False, filter_nil, app_nil_r by (cbn; tauto).
  reflexivity.
Qed.

Lemma ids_fresh_ne s : ids_fresh s -> Forall (fun r : nat * Request => r.1 <> nextId s) (inflight s).
Proof. unfold ids_fresh. intros H. eapply Forall_impl; [exact H|]. cbn. lia. Qed.

(** One pass through the loop head with a non-empty queue. *)
Lemma flushQueue_loop_cons s :
  errorQueue s <> [] ->
  flushQueue_loop s =
  sendBatch (KFlushQueue (take BATCH_SIZE (errorQueue s)))
    (take BATCH_SIZE (errorQueue s))
    (set_errorQueue (drop BATCH_SIZE (errorQueue s)) s).
Proof. unfold flushQueue_loop. destruct (errorQueue s); [congruence|done]. Qed.

Lemma flushQueue_settled_ok taken o s :
  sendBatch_settled o = Normal tt ->
  flushQueue_settled taken o s = flushQueue_loop (saveQueue (errorQueue s) s).
Proof. intros H. unfold flushQueue_settled. by rewrite H. Qed.

Lemma flushQueue_settled_fail taken o s :
  sendBatch_settled o <> Normal tt ->
  flushQueue_settled taken o s =
  set_isSendingQueue false
    (saveQueue (taken ++ errorQueue s) (set_errorQueue (taken ++ errorQueue s) s)).
Proof.
  intros H. unfold flushQueue_settled.
  destruct (sendBatch_settled o) as [[]|err]; [congruence|done].
Qed.

(** [persisted] reads the environment, the array store and the stored
    item only. *)
Lemma persisted_frame queue s s' :
  isBrowser s' = isBrowser s -> storageOk s' = storageOk s ->
  heap s' = heap s -> localStorage s' = localStorage s ->
  persisted queue s' = persisted queue s.
Proof. intros H1 H2 H3 H4. unfold persisted. by rewrite H1, H2, H3, H4. Qed.

(** Saving [queue] after [queueErrors es]: the saves of [es] leave no
    trace when nothing was enqueued, when no save goes through, and
    when [JSON.stringify] can write [queue]. *)
Lemma persisted_queueErrors queue es s :
  es = [] \/ isBrowser s && storageOk s = false
  \/ forallb (stringifies (heap s)) queue = true ->
  persisted queue (queueErrors es s) = persisted queue s.
Proof.
  intros Hcase. unfold persisted.
  destruct (queueErrors_frame es s) as (_ & _ & _ & _ & _ & -> & -> & -> & _).
  destruct Hcase as [->|[Hno|Hw]]; [done| |].
  - rewrite Hno. cbn. by apply queueErrors_unsaved.
  - rewrite Hw. destruct (isBrowser s && storageOk s) eqn:E; [done|].
    cbn. by apply queueErrors_unsaved.
Qed.

(** ** C1: the queue drain *)

(** C1.  [flushQueue] enters its loop unless a drain is already
    running.  One round of the loop, from any state with a non-empty
    queue [q]: the first [BATCH_SIZE] events of [q] are taken, in order,
    and one delivery is attempted for them.  If the attempt succeeds,
    the queue that is left (with what was enqueued meanwhile) is saved
    and the loop is at its head again, where it stops once the queue is
    empty.  If it fails, the taken events go back in front of the rest
    and of what was enqueued meanwhile, the queue is saved and the drain
    stops: the queue is [q] followed by the new arrivals, so it is
    exactly [q] when nothing arrived.  Saving replaces the stored item
    when storage works and [JSON.stringify] can write the queue, and
    leaves it as it is otherwise. *)
Theorem flushQueue_round (s : Sys) (r : Round) :
  ids_fresh s ->
  errorQueue s <> [] ->
  let q := errorQueue s in
  let taken := take BATCH_SIZE q in
  let s1 := flushQueue_loop s in
  let s3 := settle 0 (nextId s) (outcome r) (queueErrors (arrivals r) s1) in
  (flushQueue s = if isSendingQueue s then s
                  else flushQueue_loop (set_isSendingQueue true s))
  /\ (inflight s1 =
        inflight s ++
          [(nextId s,
            mkRequest (baseUrl (config s))
              (String.append "Bearer " (apiKey (config s)))
              (projectId (config s)) (payloadItem s <$> taken) (now s)
              (KFlushQueue taken))]
      /\ errorQueue s1 = drop BATCH_SIZE q)
  /\ (sendBatch_settled (outcome r) = Normal tt ->
      exists s', s3 = flushQueue_loop s'
                 /\ errorQueue s' = drop BATCH_SIZE q ++ arrivals r
                 /\ localStorage s'
                    = persisted (drop BATCH_SIZE q ++ arrivals r)
                        (queueErrors (arrivals r) s1)
                 /\ (arrivals r = [] \/ isBrowser s && storageOk s = false
                     \/ forallb (stringifies (heap s))
                          (drop BATCH_SIZE q ++ arrivals r) = true ->
                     localStorage s'
                     = persisted (drop BATCH_SIZE q ++ arrivals r) s)
                 /\ inflight s' = inflight s
                 /\ ids_fresh s'
                 /\ (errorQueue s' = [] ->
                     flushQueue_loop s' = set_isSendingQueue false s'))
  /\ (sendBatch_settled (outcome r) <> Normal tt ->
      errorQueue s3 = q ++ arrivals r
      /\ localStorage s3
         = persisted (q ++ arrivals r) (queueErrors (arrivals r) s1)
      /\ (arrivals r = [] \/ isBrowser s && storageOk s = false
          \/ forallb (stringifies (heap s)) (q ++ arrivals r) = true ->
          localStorage s3 = persisted (q ++ arrivals r) s)
      /\ isSendingQueue s3 = false
      /\ inflight s3 = inflight s
      /\ (arrivals r = [] -> errorQueue s3 = q)).
Proof.
  intros Hfresh Hq q taken s1 s3.
  split; [reflexivity|].
  assert (Hs1 : s1 = sendBatch (KFlushQueue taken) taken
                       (set_errorQueue (drop BATCH_SIZE q) s)).
  { subst s1. by rewrite flushQueue_loop_cons. }
  destruct (queueErrors_frame (arrivals r) s1)
    as (Hin & Hid & _ & _ & _ & Hbr & Hok & Hheap & _).
  assert (Hin1 : inflight s1 = inflight s ++
            [(nextId s,
              mkRequest (baseUrl (config s))
                (String.append "Bearer " (apiKey (config s)))
                (projectId (config s)) (payloadItem s <$> taken) (now s)
                (KFlushQueue taken))]) by (by rewrite Hs1).
  assert (Hq1 : errorQueue s1 = drop BATCH_SIZE q) by (by rewrite Hs1).
  split; [done|].
  assert (Hs3 : s3 = flushQueue_settled taken (outcome r)
                       (set_inflight (inflight s) (queueErrors (arrivals r) s1))).
  { subst s3.
    rewrite (settle_last 0 (inflight s) (nextId s)
               (mkRequest (baseUrl (config s))
                  (String.append "Bearer " (apiKey (config s)))
                  (projectId (config s)) (payloadItem s <$> taken) (now s)
                  (KFlushQueue taken)));
      [reflexivity| |by apply ids_fresh_ne].
    by rewrite Hin, Hin1. }
  assert (Hb1 : isBrowser s1 = isBrowser s) by (by rewrite Hs1).
  assert (Hk1 : storageOk s1 = storageOk s) by (by rewrite Hs1).
  assert (Hh1 : heap s1 = heap s) by (by rewrite Hs1).
  assert (Hl1 : localStorage s1 = localStorage s) by (by rewrite Hs1).
  assert (Hn1 : nextId s1 = S (nextId s)) by (by rewrite Hs1).
  clearbody s1. clear Hs1.
  assert (Hsaved : forall queue,
             persisted queue
               (set_inflight (inflight s) (queueErrors (arrivals r) s1))
             = persisted queue (queueErrors (arrivals r) s1)).
  { intros queue. by apply persisted_frame. }
  assert (Hplain : forall queue,
             arrivals r = [] \/ isBrowser s && storageOk s = false
             \/ forallb (stringifies (heap s)) queue = true ->
             persisted queue (queueErrors (arrivals r) s1) = persisted queue s).
  { intros queue Hcase. rewrite persisted_queueErrors.
    - by apply persisted_frame.
    - by rewrite Hb1, Hk1, Hh1. }
  split.
  - intros Hsucc. rewrite flushQueue_settled_ok in Hs3 by done.
    eexists. split; [exact Hs3|].
    rewrite saveQueue_eq. cbn.
    rewrite queueErrors_errorQueue, Hq1.
    split; [done|]. split; [apply Hsaved|].
    split; [intros Hcase; rewrite Hsaved; by apply Hplain|].
    split; [done|split].
    + unfold ids_fresh. cbn. rewrite Hid, Hn1.
      eapply Forall_impl; [exact Hfresh|]. cbn. lia.
    + intros Hempty. unfold flushQueue_loop.
      cbn [errorQueue set_localStorage set_inflight].
      by rewrite queueErrors_errorQueue, Hq1, Hempty.
  - intros Hfail. rewrite flushQueue_settled_fail in Hs3 by done.
    rewrite Hs3, saveQueue_eq. cbn.
    rewrite queueErrors_errorQueue, Hq1.
    assert (Hrestore : take 10 q ++ drop BATCH_SIZE q ++ arrivals r = q ++ arrivals r).
    { rewrite app_assoc. change (take 10 q) with (take BATCH_SIZE q).
      by rewrite take_drop. }
    rewrite Hrestore.
    assert (Hframe : persisted (q ++ arrivals r)
                       (set_errorQueue (q ++ arrivals r)
                          (set_inflight (inflight s) (queueErrors (arrivals r) s1)))
                     = persisted (q ++ arrivals r) (queueErrors (arrivals r) s1))
      by (by apply persisted_frame).
    split; [done|]. split; [exact Hframe|].
    split; [intros Hcase; rewrite Hframe; by apply Hplain|].
    split; [done|]. split; [done|].
    intros ->. by rewrite app_nil_r.
Qed.

Lemma drainRequest_none s : no_drain s -> drainRequest s = None.
Proof.
  unfold no_drain, drainRequest. intros H.
  destruct (list_find _ _) as [[i [id req]]|] eqn:E; [|done].
  apply list_find_Some in E as (Hi & Hd & _).
  apply list_elem_of_lookup_2 in Hi.
  rewrite Forall_forall in H. specialize (H _ Hi). cbn in *. congruence.
Qed.

Lemma drainRequest_last s l id req :
  inflight s = l ++ [(id, req)] ->
  Forall (fun r : nat * Request => is_drain (req_kont r.2) = false) l ->
  is_drain (req_kont req) = true ->
  drainRequest s = Some id.
Proof.
  intros Hin Hl Hreq. unfold drainRequest. rewrite Hin.
  rewrite (list_find_last _ l (id, req)); [done| |done].
  eapply Forall_impl; [exact Hl|]. cbn. intros r Hr. congruence.
Qed.

(** A drain in which every delivery succeeds and nothing is enqueued
    meanwhile empties the queue, [BATCH_SIZE] events a round. *)
Lemma drain_success_empties rounds : forall s,
  ids_fresh s -> no_drain s ->
  Forall (fun r => arrivals r = [] /\ sendBatch_settled (outcome r) = Normal tt)
         rounds ->
  length (errorQueue s) <= length rounds * BATCH_SIZE ->
  let s' := drain rounds (flushQueue_loop s) in
  errorQueue s' = [] /\ isSendingQueue s' = false /\ inflight s' = inflight s
  /\ (errorQueue s <> [] -> localStorage s' = persisted [] s).
Proof.
  induction rounds as [|r rounds IH]; intros s Hfresh Hnd Hok Hlen.
  - cbn in Hlen. destruct (errorQueue s) eqn:Hq; [|cbn in Hlen; lia].
    cbn. unfold flushQueue_loop. rewrite Hq. by cbn.
  - destruct (errorQueue s) as [|e q] eqn:Hq.
    { cbn zeta. unfold flushQueue_loop. rewrite Hq. cbn [drain].
      rewrite drainRequest_none by done. by cbn. }
    cbn zeta. rewrite flushQueue_loop_cons by (rewrite Hq; done).
    set (taken := take BATCH_SIZE (errorQueue s)).
    set (req := mkRequest (baseUrl (config s))
                  (String.append "Bearer " (apiKey (config s)))
                  (projectId (config s)) (payloadItem s <$> taken) (now s)
                  (KFlushQueue taken)).
    set (s1 := sendBatch _ _ _).
    assert (Hin1 : inflight s1 = inflight s ++ [(nextId s, req)]) by done.
    cbn [drain]. rewrite (drainRequest_last s1 (inflight s) (nextId s) req);
      [|exact Hin1|exact Hnd|reflexivity].
    apply Forall_cons in Hok as [[Harr Hsucc] Hok]. rewrite Harr. cbn [queueErrors foldl].
    rewrite (settle_last 0 (inflight s) (nextId s) req); [|done|by apply ids_fresh_ne].
    cbn [req_kont req]. rewrite flushQueue_settled_ok by done.
    rewrite saveQueue_eq.
    set (s2 := set_localStorage _ _).
    assert (Hq2 : errorQueue s2 = drop BATCH_SIZE (errorQueue s)) by done.
    assert (Hin2 : inflight s2 = inflight s) by done.
    destruct (IH s2) as (H1 & H2 & H3 & H4).
    + unfold ids_fresh. rewrite Hin2. eapply Forall_impl; [exact Hfresh|].
      cbn. lia.
    + unfold no_drain. by rewrite Hin2.
    + done.
    + rewrite Hq2, length_drop, Hq. cbn [length] in *. unfold BATCH_SIZE in *. lia.
    + repeat split; try done. intros _.
      destruct (errorQueue s2) eqn:Hq3.
      * clear H4. unfold flushQueue_loop. rewrite Hq3.
        assert (Hnd2 : no_drain (set_isSendingQueue false s2)) by exact Hnd.
        destruct rounds; cbn [drain]; [|rewrite (drainRequest_none _ Hnd2)].
        all: subst s2 s1; cbn in *; unfold persisted; cbn; by rewrite Hq3.
      * rewrite H4 by done. subst s2 s1. unfold persisted. cbn.
        by destruct (isBrowser s && storageOk s).
Qed.

Lemma flushQueue_round_witness :
  errorQueue
    (settle 0 (nextId queued4) (NetworkError "TypeError: Failed to fetch")
       (queueErrors [] (flushQueue_loop queued4)))
  = [sampleEvent "a"; sampleEvent "b"; sampleEvent "c"; sampleEvent "d"].
Proof.
  pose proof (flushQueue_round queued4
                (mkRound [] (NetworkError "TypeError: Failed to fetch")))
    as H.
  cbv zeta in H.
  destruct H as (_ & _ & _ & Hfail); [constructor|discriminate|].
  destruct Hfail as (_ & _ & _ & _ & _ & Hq); [discriminate|].
  exact (Hq eq_refl).
Defined.

(** ** C2: the transform in the capture pipeline *)

(** A [beforeSend] that returns null discards the event: nothing at all
    changes (no hook call, no batch or queue entry, no request). *)
Lemma handleError_null_discards stack errorData s :
  beforeSend (config s) (mkErrorEvent errorData (Some "error")) = Normal None ->
  handleError stack errorData s = (s, Fulfilled).
Proof. intros H. destruct stack; cbn; unfold handleError_body; by rewrite H. Qed.

(** C2.  After [setUser] and [setContext], [beforeSend] does return the
    event with [user] and [version] in its metadata, yet the event that
    [handleError] puts in the batch has neither key, and the [user_id]
    posted for it is empty. *)
Theorem handleError_drops_transformed_event :
  let s := setContext "version" (VStr "1.2.3")
             (setUser sampleUser (newInstance sampleConfig browserHost)) in
  let s' := (captureMessage 1 "m" None None s).1 in
  match beforeSend (config s) (mkErrorEvent (sampleEvent "m") (Some "error")) with
  | Normal (Some p) =>
      meta_get (ev_data p) "version" = VStr "1.2.3"
      /\ js_get (meta_get (ev_data p) "user") "id" = VStr "u1"
  | _ => False
  end
  /\ (fun e => (message e, meta_get e "version", meta_get e "user")) <$> batch s'
     = [("m", VUndefined, VUndefined)]
  /\ (fun r => user_id <$> req_body r.2) <$> inflight (elapse 5000 s')
     = [[VStr ""]].
Proof. vm_compute. repeat split; reflexivity. Qed.

(** ** C4: the recording window *)

(** Once the window is exceeded the recorder is stopped, and
    [startScreenRecording] returns at its [isRecording] guard: the
    buffer is kept and nothing records any more. *)
Lemma emit_over_window s event h first rest :
  isRecording s = true ->
  stopRecording s = Some h ->
  recordingEvents s ++ [event] = first :: rest ->
  (maxRecordingDuration (config s) < now s - frame_timestamp first)%Z ->
  let s' := emit event s in
  recordingEvents s' = recordingEvents s ++ [event]
  /\ recorders s' = filter (fun x => x <> h) (recorders s)
  /\ isRecording s' = true
  /\ stopRecording s' = Some h.
Proof.
  intros Hrec Hstop Hbuf Hlate. unfold emit. cbn. rewrite Hbuf.
  destruct (Z.ltb_spec (maxRecordingDuration (config s))
                       (now s - frame_timestamp first)); [|lia].
  unfold restartRecording, startScreenRecording. cbn. rewrite Hstop. cbn.
  rewrite Hrec, orb_true_r. by cbn.
Qed.

(** C4.  A frame arrives 30001 ms after the first buffered frame, with
    the default [maxRecordingDuration] of 30000 ms: the recording is
    stopped and not restarted.  The buffer still holds both frames, no
    recorder is registered, and the frames that follow are not
    recorded. *)
Theorem restartRecording_does_not_restart :
  let s0 := emit frame0 (newInstance sampleConfig browserHost) in
  let s1 := emit frame1 (elapse 30001 s0) in
  recorders s0 = [1]
  /\ recordingEvents s1 = [frame0; frame1]
  /\ recorders s1 = []
  /\ isRecording s1 = true.
Proof. vm_compute. repeat split; reflexivity. Qed.

(** ** C6: the breadcrumb trail *)

Lemma addBreadcrumb_frame b s :
  breadcrumbs (addBreadcrumb b s) = breadcrumbs s
  /\ length (heap (addBreadcrumb b s)) = length (heap s).
Proof. unfold addBreadcrumb. cbn. by rewrite length_insert. Qed.

Lemma addBreadcrumb_trail b s :
  breadcrumbs s < length (heap s) ->
  length (trail s) <= BREADCRUMB_LIMIT ->
  trail (addBreadcrumb b s) = newest (trail s ++ [b]).
Proof.
  intros Hr Hlen. unfold trail at 1, addBreadcrumb. cbn.
  rewrite list_lookup_insert_eq by done. cbn. fold (trail s).
  unfold newest. rewrite length_app. cbn [length].
  destruct (Nat.ltb_spec BREADCRUMB_LIMIT (length (trail s) + 1)).
  - replace (length (trail s) + 1 - BREADCRUMB_LIMIT) with 1 by lia.
    by destruct (trail s).
  - by replace (length (trail s) + 1 - BREADCRUMB_LIMIT) with 0 by lia.
Qed.

Lemma addBreadcrumb_other b s r :
  r <> breadcrumbs s -> heap (addBreadcrumb b s) !! r = heap s !! r.
Proof. intros Hr. unfold addBreadcrumb. cbn. by rewrite list_lookup_insert_ne. Qed.

Lemma newest_length l : length (newest l) <= BREADCRUMB_LIMIT.
Proof. unfold newest. rewrite length_drop. unfold BREADCRUMB_LIMIT. lia. Qed.

Lemma newest_snoc l b : newest (newest l ++ [b]) = newest (l ++ [b]).
Proof.
  unfold newest. rewrite <- drop_app_le by lia.
  rewrite drop_drop. f_equal.
  rewrite length_drop, !length_app. cbn [length]. unfold BREADCRUMB_LIMIT. lia.
Qed.

Lemma addBreadcrumbs_frame bs : forall s,
  breadcrumbs (addBreadcrumbs bs s) = breadcrumbs s
  /\ length (heap (addBreadcrumbs bs s)) = length (heap s).
Proof.
  induction bs as [|b bs IH]; intros s; [done|].
  unfold addBreadcrumbs in *. cbn [foldl].
  destruct (IH (addBreadcrumb b s)) as [-> ->]. apply addBreadcrumb_frame.
Qed.

Lemma addBreadcrumbs_trail bs : forall s,
  breadcrumbs s < length (heap s) ->
  length (trail s) <= BREADCRUMB_LIMIT ->
  trail (addBreadcrumbs bs s) = newest (trail s ++ bs).
Proof.
  induction bs as [|b bs IH]; intros s Hr Hlen.
  - cbn. rewrite app_nil_r. unfold newest.
    by replace (length (trail s) - BREADCRUMB_LIMIT) with 0 by lia.
  - unfold addBreadcrumbs in *. cbn [foldl].
    destruct (addBreadcrumb_frame b s) as [Hb Hh].
    rewrite IH.
    + rewrite addBreadcrumb_trail by done.
      rewrite (cons_middle b (trail s) bs), app_assoc.
      generalize (trail s ++ [b]). clear. intros l.
      induction bs as [|c bs IH] using rev_ind.
      * rewrite !app_nil_r. unfold newest at 1.
        pose proof (newest_length l).
        by replace (length (newest l) - BREADCRUMB_LIMIT) with 0 by lia.
      * rewrite !app_assoc, <- (newest_snoc (newest l ++ bs)), IH.
        apply newest_snoc.
    + by rewrite Hb, Hh.
    + rewrite addBreadcrumb_trail by done. apply newest_length.
Qed.

Lemma addBreadcrumbs_other bs r : forall s,
  r <> breadcrumbs s -> heap (addBreadcrumbs bs s) !! r = heap s !! r.
Proof.
  induction bs as [|b bs IH]; intros s Hr; [done|].
  unfold addBreadcrumbs in *. cbn [foldl].
  rewrite IH by (by destruct (addBreadcrumb_frame b s) as [-> _]).
  by apply addBreadcrumb_other.
Qed.

(** C6.  From an empty trail, after any additions the trail holds at
    most [BREADCRUMB_LIMIT] entries: the most recent ones, in insertion
    order (the oldest [N - 30] are gone when [N > 30]).  The metadata of
    a captured event refers to a new array with the contents of the
    trail at that moment, and no later addition or eviction changes that
    array, nor what is serialised for the event. *)
Theorem breadcrumb_trail_bounded_snapshot_copied
    (s : Sys) (added later : list Breadcrumb) (errorData : ErrorData) :
  breadcrumbs s < length (heap s) ->
  trail s = [] ->
  let s1 := addBreadcrumbs added s in
  let e := (mergeMetadata errorData s1).1 in
  let s2 := (mergeMetadata errorData s1).2 in
  let s3 := addBreadcrumbs later s2 in
  length (trail s1) <= BREADCRUMB_LIMIT
  /\ trail s1 = drop (length added - BREADCRUMB_LIMIT) added
  /\ (BREADCRUMB_LIMIT < length added -> length (trail s1) = BREADCRUMB_LIMIT)
  /\ (exists r, meta_get e "breadcrumbs" = VArrRef r
                /\ r <> breadcrumbs s1
                /\ heap s2 !! r = Some (trail s1)
                /\ heap s3 !! r = Some (trail s1))
  /\ trail s3 = newest (trail s1 ++ later)
  /\ freeze (heap s3) (meta_get e "breadcrumbs") = VArr (crumb_val <$> trail s1).
Proof.
  intros Hr Hempty s1 e s2 s3.
  destruct (addBreadcrumbs_frame added s) as [Hb1 Hh1].
  assert (Ht1 : trail s1 = drop (length added - BREADCRUMB_LIMIT) added).
  { subst s1. rewrite addBreadcrumbs_trail; [|done|rewrite Hempty; cbn; lia].
    by rewrite Hempty. }
  assert (Hr1 : breadcrumbs s1 < length (heap s1)) by (subst s1; lia).
  assert (He : meta_get e "breadcrumbs" = VArrRef (length (heap s1))).
  { subst e. unfold meta_get, mergeMetadata. cbn.
    rewrite !lookup_insert_ne by done. by rewrite lookup_insert_eq. }
  assert (Hh2 : heap s2 = heap s1 ++ [trail s1]) by done.
  assert (Hb2 : breadcrumbs s2 = breadcrumbs s1) by done.
  assert (Hl2 : heap s2 !! length (heap s1) = Some (trail s1)).
  { rewrite Hh2. by rewrite list_lookup_middle. }
  assert (Hl3 : heap s3 !! length (heap s1) = Some (trail s1)).
  { subst s3. rewrite addBreadcrumbs_other; [done|]. rewrite Hb2. lia. }
  assert (Ht2 : trail s2 = trail s1).
  { unfold trail. rewrite Hh2, Hb2. by rewrite lookup_app_l. }
  repeat split.
  - rewrite Ht1, length_drop. unfold BREADCRUMB_LIMIT. lia.
  - exact Ht1.
  - intros Hn. rewrite Ht1, length_drop. lia.
  - exists (length (heap s1)). repeat split; try done. lia.
  - subst s3. rewrite addBreadcrumbs_trail.
    + by rewrite Ht2.
    + rewrite Hb2, Hh2, length_app. cbn. lia.
    + rewrite Ht2, Ht1, length_drop. unfold BREADCRUMB_LIMIT. lia.
  - rewrite He. cbn. by rewrite Hl3.
Qed.

Lemma breadcrumb_trail_witness :
  trail (addBreadcrumbs (sampleCrumbs 32) (newInstance sampleConfig browserHost))
  = drop 2 (sampleCrumbs 32).
Proof.
  destruct (breadcrumb_trail_bounded_snapshot_copied
              (newInstance sampleConfig browserHost) (sampleCrumbs 32) []
              (sampleEvent "m")) as (_ & H & _);
    [vm_compute; lia | reflexivity | exact H].
Defined.

(** ** C9: the redaction filter *)

Section RedactionProperties.
Context {dom : DomApi}.

Lemma redactSelectorsIn_returns selectors : forall doc,
  Forall (fun sel => forall d, exists els, querySelectorAll d sel = Normal els)
         selectors ->
  exists doc', redactSelectorsIn selectors doc = Normal doc'.
Proof.
  induction selectors as [|sel selectors IH]; intros doc Hok; [by eexists|].
  apply Forall_cons in Hok as [Hsel Hok]. cbn.
  destruct (Hsel doc) as [els ->]. by apply IH.
Qed.

(** The paths through [redactDom], for any DOM.  It returns its input
    unchanged when [allowPII] is true, when the selector list is
    absent, and outside a browser.  With [allowPII] false and an empty
    selector list it returns the serialisation of the parsed input.  It
    has no failure path of its own: it returns whenever
    [querySelectorAll] accepts each selector.  When the one selector
    matches one form field, what it returns is the serialisation of the
    parsed document after [el.value] was assigned the marker. *)
Lemma redactDom_contract (browser : bool) (cfg : Config) (domString : string) :
  (allowPII cfg = true \/ redactSelectors cfg = None \/ browser = false ->
   redactDom browser cfg domString = Normal domString)
  /\ (browser = true -> allowPII cfg = false -> redactSelectors cfg = Some [] ->
      redactDom browser cfg domString
      = Normal (outerHTML (parseFromString domString)))
  /\ (forall selectors,
        redactSelectors cfg = Some selectors ->
        Forall (fun sel => forall d, exists els, querySelectorAll d sel = Normal els)
               selectors ->
        exists out, redactDom browser cfg domString = Normal out)
  /\ (forall selector el,
        browser = true -> allowPII cfg = false ->
        redactSelectors cfg = Some [selector] ->
        querySelectorAll (parseFromString domString) selector = Normal [el] ->
        isFormField (parseFromString domString) el = true ->
        redactDom browser cfg domString
        = Normal (outerHTML (setValue el REDACTED (parseFromString domString)))).
Proof.
  unfold redactDom. repeat split.
  - intros [Hpii|[Hsel|Hb]].
    + rewrite Hpii. destruct browser, (redactSelectors cfg); reflexivity.
    + rewrite Hsel. by destruct browser.
    + by rewrite Hb.
  - by intros -> -> ->.
  - intros selectors Hsel Hok. rewrite Hsel.
    destruct browser; cbn; [|by eexists].
    destruct (allowPII cfg); [by eexists|].
    destruct (redactSelectorsIn_returns selectors (parseFromString domString) Hok)
      as [doc' ->].
    by eexists.
  - intros selector el -> -> -> Hq Hfield. cbn. rewrite Hq. cbn.
    unfold redactElement. by rewrite Hfield.
Qed.

End RedactionProperties.

(** With the default (empty) selector list and [allowPII] false,
    [redactDom] does not return the input byte for byte. *)
Lemma redactDom_empty_selectors_reserialises :
  allowPII (defaultConfig sampleConfig) = false
  /\ redactSelectors (defaultConfig sampleConfig) = Some []
  /\ redactDom (dom := MiniDom.dom) true (defaultConfig sampleConfig) "hello"
     = Normal "<html><head></head><body>hello</body></html>"
  /\ redactDom (dom := MiniDom.dom) true (defaultConfig sampleConfig) "hello"
     <> Normal "hello".
Proof. repeat split; try reflexivity. vm_compute. discriminate. Qed.

(** C9.  A form field that a selector matches is not redacted in what
    [redactDom] returns.  With [allowPII] false and the selector
    [input] matching the one input field of the snapshot, [redactDom]
    assigns the marker to [el.value], which sets the value the element
    holds and not its [value] attribute, and [outerHTML] prints
    attributes.  The string returned is the serialisation of the
    document as parsed, the same as with an empty selector list: the
    field's value is still in it and the marker is not.  The same
    holds for a [textarea].  An element that is no form field is
    redacted: the marker replaces its text. *)
Theorem redactDom_field_value_not_serialised :
  let cfg sel := set_redaction (Some sel) false (defaultConfig sampleConfig) in
  let snapshot := "<p>name</p><input value=secret>" in
  let out := MiniDom.serialize (MiniDom.parse snapshot) in
  querySelectorAll (DomApi := MiniDom.dom) (MiniDom.parse snapshot) "input"
  = Normal [[1; 1]]
  /\ isFormField (DomApi := MiniDom.dom) (MiniDom.parse snapshot) [1; 1] = true
  /\ redactDom (dom := MiniDom.dom) true (cfg ["input"]) snapshot
     = Normal (MiniDom.serialize
                 (MiniDom.update_at [1; 1] (MiniDom.assign_value REDACTED)
                    (MiniDom.parse snapshot)))
  /\ redactDom (dom := MiniDom.dom) true (cfg ["input"]) snapshot = Normal out
  /\ redactDom (dom := MiniDom.dom) true (cfg []) snapshot = Normal out
  /\ String.index 0 "secret" out = Some 50
  /\ String.index 0 REDACTED out = None
  /\ (let area := "<textarea>secret</textarea>" in
      redactDom (dom := MiniDom.dom) true (cfg ["textarea"]) area
      = Normal "<html><head></head><body><textarea>secret</textarea></body></html>")
  /\ redactDom (dom := MiniDom.dom) true (cfg ["p"]) "<p>secret</p>"
     = Normal "<html><head></head><body><p>[REDACTED]</p></body></html>".
Proof. repeat split; vm_compute; reflexivity. Qed.

(** An invalid selector makes [redactDom] throw. *)
Lemma redactDom_invalid_selector_throws :
  redactDom (dom := MiniDom.dom) true
    (set_redaction (Some [""]) false (defaultConfig sampleConfig)) "hello"
  = Throw "SyntaxError: not a valid selector: ".
Proof. vm_compute. reflexivity. Qed.

(** ** What every step of the pipeline preserves *)

(** States that agree on these fields, up to handles drawn. *)
Lemma grows_same s s' :
  errorQueue s' = errorQueue s -> consoleCalls s' = consoleCalls s ->
  console_warn_patched s' = console_warn_patched s ->
  isSendingQueue s' = isSendingQueue s ->
  nextId s <= nextId s' -> inflight s' = inflight s ->
  grows s s'.
Proof.
  intros Hq Hc Hp Hf Hn Hi.
  repeat split; try done; exists []; by rewrite ?app_nil_r.
Qed.

Lemma grows_refl s : grows s s.
Proof. by apply grows_same. Qed.

Lemma grows_trans s1 s2 s3 : grows s1 s2 -> grows s2 s3 -> grows s1 s3.
Proof.
  intros ([q1 Hq1] & [c1 Hc1] & Hp1 & Hf1 & Hn1 & [n1 [Hi1 Hb1]])
         ([q2 Hq2] & [c2 Hc2] & Hp2 & Hf2 & Hn2 & [n2 [Hi2 Hb2]]).
  repeat split.
  - exists (q1 ++ q2). by rewrite Hq2, Hq1, app_assoc.
  - exists (c1 ++ c2). by rewrite Hc2, Hc1, app_assoc.
  - congruence.
  - congruence.
  - lia.
  - exists (n1 ++ n2). split; [by rewrite Hi2, Hi1, app_assoc|].
    apply Forall_app. split.
    + eapply Forall_impl; [exact Hb1|]. cbn. intros r [? ?]. split; [lia|done].
    + eapply Forall_impl; [exact Hb2|]. cbn. intros r [? ?]. split; [lia|done].
Qed.

Lemma queueError_grows e s : grows s (queueError e s).
Proof.
  rewrite queueError_eq.
  repeat split; cbn; try done; [by eexists|exists []..]; by rewrite ?app_nil_r.
Qed.

Lemma queueErrors_grows es : forall s, grows s (queueErrors es s).
Proof.
  induction es as [|e es IH]; intros s; [apply grows_refl|].
  unfold queueErrors in *. cbn [foldl].
  eapply grows_trans; [apply queueError_grows|apply IH].
Qed.

Lemma flushBatch_grows s : grows s (flushBatch s).
Proof.
  unfold flushBatch. destruct (batch s) as [|e b]; [apply grows_refl|].
  cbn. destruct (batchTimer s);
    (repeat split; cbn; try done; [exists []|exists []|lia|];
     [by rewrite app_nil_r..|]);
    (eexists; split; [reflexivity|]; repeat constructor; cbn; lia).
Qed.

Lemma addToBatch_grows e s : grows s (addToBatch e s).
Proof.
  unfold addToBatch. destruct (_ <=? _).
  - eapply grows_trans; [|apply flushBatch_grows]. by apply grows_same.
  - cbn. destruct (batchTimer s); apply grows_same; cbn; try done. lia.
Qed.

Lemma log_call_grows lvl args s : grows s (log_call lvl args s).
Proof.
  repeat split; cbn; try done; [exists []|by eexists|exists []];
    by rewrite ?app_nil_r.
Qed.

Lemma console_log_grows args s : grows s (console_log args s).
Proof.
  unfold console_log.
  destruct (console_log_patched _); [|apply log_call_grows].
  eapply grows_trans; [apply log_call_grows|]. by apply grows_same.
Qed.

Lemma attachRecording_grows e s e1 s1 :
  attachRecording e s = Normal (e1, s1) -> grows s s1.
Proof.
  unfold attachRecording. destruct (_ && _); [|intros [= _ <-]; apply grows_refl].
  destruct (JSON_stringify_frames _); [|done].
  intros [= _ <-]. apply console_log_grows.
Qed.

Lemma callOnErrorCaptured_grows e s : grows s (callOnErrorCaptured e s).1.
Proof.
  unfold callOnErrorCaptured.
  destruct (analyticsHooks (config s)) as [hooks|]; [|apply grows_refl].
  destruct (onErrorCaptured hooks); [|apply grows_refl]. by apply grows_same.
Qed.

Lemma console_capture_grows patched lvl sev ty capture args s :
  (forall e s0 h, capture = Some h -> grows s0 (h e s0).1) ->
  grows s (console_capture patched lvl sev ty capture args s).1.
Proof.
  intros Hcap. unfold console_capture.
  destruct (patched _); [|apply log_call_grows].
  destruct capture as [h|]; [|apply log_call_grows]. cbn.
  eapply grows_trans; [apply log_call_grows|]. by eapply Hcap.
Qed.

Lemma handleError_body_grows warn e s :
  (forall args s0, grows s0 (warn args s0).1) ->
  grows s (handleError_body warn e s).1.
Proof.
  intros Hwarn. unfold handleError_body, handleError_catch.
  destruct (beforeSend _ _) as [[p|]|err].
  - destruct (attachRecording e s) as [[e1 s1]|err] eqn:Hatt.
    + apply attachRecording_grows in Hatt.
      unfold mergeMetadata, slice_breadcrumbs.
      match goal with
      | |- context [callOnErrorCaptured ?e2 ?s2] =>
          pose proof (callOnErrorCaptured_grows e2 s2) as Hhook;
          destruct (callOnErrorCaptured e2 s2) as [s3 [[]|err]]
      end; cbn in Hhook |- *.
      * eapply grows_trans; [exact Hatt|].
        eapply grows_trans; [|apply addToBatch_grows].
        eapply grows_trans; [|exact Hhook]. by apply grows_same.
      * eapply grows_trans; [exact Hatt|].
        eapply grows_trans; [|apply Hwarn].
        eapply grows_trans; [|apply queueError_grows].
        eapply grows_trans; [|exact Hhook]. by apply grows_same.
    + eapply grows_trans; [apply queueError_grows|apply Hwarn].
  - apply grows_refl.
  - eapply grows_trans; [apply queueError_grows|apply Hwarn].
Qed.

Lemma async_fst {S} (b : S * Completion unit) : (async b).1 = b.1.
Proof. by destruct b as [s [[]|err]]. Qed.

Lemma handleError_unfold stack e s :
  handleError stack e s = async (handleError_body (console_warn stack) e s).
Proof. by destruct stack. Qed.

Lemma handleError_grows stack : forall e s, grows s (handleError stack e s).1.
Proof.
  induction stack as [|k IH]; intros e s; rewrite handleError_unfold, async_fst;
    apply handleError_body_grows; intros args s0;
    apply console_capture_grows; try done.
  intros e0 s1 h [= <-]. apply IH.
Qed.

Lemma console_warn_grows stack args s : grows s (console_warn stack args s).1.
Proof.
  apply console_capture_grows.
  intros e s0 h Hh. destruct stack as [|k]; [done|].
  injection Hh as <-. apply handleError_grows.
Qed.

(** ** C8: capture is fail-open *)

Lemma same_delivery_refl s : same_delivery s s.
Proof. repeat split. exists []. by rewrite app_nil_r. Qed.

Lemma same_delivery_trans s1 s2 s3 :
  same_delivery s1 s2 -> same_delivery s2 s3 -> same_delivery s1 s3.
Proof.
  intros (A1 & A2 & A3 & A4 & A5 & A6 & [c1 A7] & A8 & A9)
         (B1 & B2 & B3 & B4 & B5 & B6 & [c2 B7] & B8 & B9).
  repeat split; try congruence.
  exists (c1 ++ c2). by rewrite B7, A7, app_assoc.
Qed.

Lemma attachRecording_same_delivery e s e1 s1 :
  attachRecording e s = Normal (e1, s1) -> same_delivery s s1.
Proof.
  unfold attachRecording.
  destruct (_ && _); [|intros [= _ <-]; apply same_delivery_refl].
  destruct (JSON_stringify_frames _); [|done].
  intros [= _ <-]. unfold console_log. cbn.
  destruct (console_log_patched s); repeat split; by eexists.
Qed.

Lemma mergeMetadata_same_delivery e s :
  same_delivery s (mergeMetadata e s).2.
Proof. repeat split. exists []. cbn. by rewrite app_nil_r. Qed.

Lemma callOnErrorCaptured_same_delivery e s :
  same_delivery s (callOnErrorCaptured e s).1.
Proof.
  unfold callOnErrorCaptured.
  destruct (analyticsHooks (config s)) as [hooks|]; [|apply same_delivery_refl].
  destruct (onErrorCaptured hooks); [|apply same_delivery_refl].
  repeat split. exists []. cbn. by rewrite app_nil_r.
Qed.

(** The steps between the transform and the throw leave the batch, the
    queue, the timers and the fetches as they are. *)
Lemma failsAfterTransform_frame errorData s err e' s' :
  failsAfterTransform errorData s = Some (err, e', s') ->
  same_delivery s s'.
Proof.
  unfold failsAfterTransform.
  destruct (attachRecording errorData s) as [[e1 s1]|e0] eqn:Hatt;
    [|intros [= _ _ <-]; apply same_delivery_refl].
  apply attachRecording_same_delivery in Hatt.
  pose proof (mergeMetadata_same_delivery e1 s1) as Hm.
  destruct (mergeMetadata e1 s1) as [e2 s2].
  pose proof (callOnErrorCaptured_same_delivery e2 s2) as Hc.
  destruct (callOnErrorCaptured e2 s2) as [s3 [[]|e0]]; [done|].
  intros [= _ _ <-].
  eapply same_delivery_trans; [exact Hatt|].
  eapply same_delivery_trans; [exact Hm|exact Hc].
Qed.

Lemma handleError_body_after_transform warn errorData s p :
  beforeSend (config s) (mkErrorEvent errorData (Some "error")) = Normal (Some p) ->
  match failsAfterTransform errorData s with
  | Some (err, e', s') =>
      handleError_body warn errorData s
      = warn ["ErrorWatch: Failed to queue error for batch"; err] (queueError e' s')
  | None => (handleError_body warn errorData s).2 = Normal tt
  end.
Proof.
  intros Hbs. unfold handleError_body, handleError_catch, failsAfterTransform.
  rewrite Hbs.
  destruct (attachRecording errorData s) as [[e1 s1]|e0]; [|done].
  destruct (mergeMetadata e1 s1) as [e2 s2].
  by destruct (callOnErrorCaptured e2 s2) as [s3 [[]|e0]].
Qed.

Lemma handleError_fails stack errorData s p err e' s' :
  beforeSend (config s) (mkErrorEvent errorData (Some "error")) = Normal (Some p) ->
  failsAfterTransform errorData s = Some (err, e', s') ->
  handleError stack errorData s =
  async (console_warn stack ["ErrorWatch: Failed to queue error for batch"; err]
           (queueError e' s')).
Proof.
  intros Hbs Hfail. rewrite handleError_unfold. f_equal.
  pose proof (handleError_body_after_transform (console_warn stack) errorData s p Hbs) as H.
  by rewrite Hfail in H.
Qed.

Lemma console_warn_normal stack args s :
  console_warn_patched s = false \/ 0 < stack ->
  (console_warn stack args s).2 = Normal tt.
Proof.
  intros Hok. unfold console_warn, console_capture. cbn.
  destruct (console_warn_patched s); [|done].
  destruct Hok as [|Hpos]; [done|]. destruct stack; [lia|done].
Qed.

(** The [catch] block throws only when the patched [console.warn] has
    no stack left to call [handleError]. *)
Lemma handleError_fulfilled stack errorData s :
  console_warn_patched s = false \/ 0 < stack ->
  (handleError stack errorData s).2 = Fulfilled.
Proof.
  intros Hok. rewrite handleError_unfold.
  assert (Hcatch : forall err e' s',
             console_warn_patched s' = console_warn_patched s ->
             (console_warn stack
                ["ErrorWatch: Failed to queue error for batch"; err]
                (queueError e' s')).2 = Normal tt).
  { intros err e' s' Hs'. apply console_warn_normal.
    destruct (queueError_grows e' s') as (_ & _ & -> & _). rewrite Hs'. exact Hok. }
  assert (Hbody : (handleError_body (console_warn stack) errorData s).2 = Normal tt).
  { destruct (beforeSend (config s) (mkErrorEvent errorData (Some "error")))
      as [[p|]|err] eqn:Hbs.
    - pose proof (handleError_body_after_transform (console_warn stack) errorData s p Hbs) as H.
      destruct (failsAfterTransform errorData s) as [[[err e'] s']|] eqn:Hf; [|done].
      rewrite H. apply Hcatch.
      by destruct (failsAfterTransform_frame _ _ _ _ _ Hf) as (_ & _ & _ & _ & _ & -> & _).
    - unfold handleError_body. by rewrite Hbs.
    - unfold handleError_body, handleError_catch. rewrite Hbs. by apply Hcatch. }
  destruct (handleError_body _ _ _) as [s1 c]. cbn in Hbody. by subst c.
Qed.

(** C8.  The capture entry points complete normally whatever happens
    inside, and the promise of [handleError] is fulfilled unless the
    diagnostic itself cannot be captured for lack of stack.  When a step
    after the transform throws, the event (as it is at that point) is
    appended to the delivery queue and persisted, then the diagnostic is
    handed to [console.warn], and nothing else runs: the event does not
    reach the batch.  With [console.warn] unpatched the batch, the
    timers and the fetches are exactly as before. *)
Theorem capture_fail_open (stack : nat) (errorData : ErrorData) (s : Sys) :
  (forall error meta, (captureError stack error meta s).2 = Normal tt)
  /\ (forall msg sev meta, (captureMessage stack msg sev meta s).2 = Normal tt)
  /\ (forall name data, (captureEvent stack name data s).2 = Normal tt)
  /\ (console_warn_patched s = false \/ 0 < stack ->
      (handleError stack errorData s).2 = Fulfilled)
  /\ (forall p err e' s',
        beforeSend (config s) (mkErrorEvent errorData (Some "error"))
        = Normal (Some p) ->
        failsAfterTransform errorData s = Some (err, e', s') ->
        let s'' := (handleError stack errorData s).1 in
        s'' = (console_warn stack
                 ["ErrorWatch: Failed to queue error for batch"; err]
                 (queueError e' s')).1
        /\ (exists more, errorQueue s'' = errorQueue s ++ e' :: more)
        /\ diagnostic err ∈ consoleCalls s''
        /\ (console_warn_patched s = false ->
            errorQueue s'' = errorQueue s ++ [e']
            /\ localStorage s'' = persisted (errorQueue s ++ [e']) s'
            /\ batch s'' = batch s
            /\ batchTimer s'' = batchTimer s
            /\ timers s'' = timers s
            /\ inflight s'' = inflight s)).
Proof.
  split; [done|]. split; [done|]. split; [done|].
  split; [apply handleError_fulfilled|].
  intros p err e' s' Hbs Hfail s''.
  assert (Hs'' : s'' = (console_warn stack
                          ["ErrorWatch: Failed to queue error for batch"; err]
                          (queueError e' s')).1).
  { subst s''. rewrite (handleError_fails _ _ _ _ _ _ _ Hbs Hfail). apply async_fst. }
  destruct (failsAfterTransform_frame _ _ _ _ _ Hfail)
    as (Hq & Hb & Hi & Ht & Hbt & Hp & [c Hc] & _).
  split; [exact Hs''|].
  unfold console_warn, console_capture in Hs''.
  set (s1 := log_call "warn"
               (VStr <$> ["ErrorWatch: Failed to queue error for batch"; err])
               (queueError e' s')) in *.
  assert (Hq1 : errorQueue s1 = errorQueue s ++ [e']).
  { subst s1. rewrite queueError_eq. cbn. by rewrite Hq. }
  assert (Hc1 : consoleCalls s1 = consoleCalls (queueError e' s') ++ [diagnostic err])
    by done.
  assert (Hp1 : console_warn_patched s1 = console_warn_patched s).
  { subst s1. rewrite queueError_eq. cbn. exact Hp. }
  rewrite Hp1 in Hs''.
  destruct (console_warn_patched s) eqn:Hpatched.
  - assert (Hg : grows s1 s'').
    { destruct stack as [|k]; cbn in Hs''; rewrite Hs''; [apply grows_refl|].
      apply handleError_grows. }
    destruct Hg as ([more Hmore] & [calls Hcalls] & _).
    split; [|split; [|done]].
    + exists more. rewrite Hmore, Hq1. by rewrite <- app_assoc.
    + rewrite Hcalls, Hc1. set_solver.
  - cbn in Hs''. rewrite Hs''. split; [|split].
    + exists []. by rewrite Hq1.
    + rewrite Hc1. set_solver.
    + intros _. subst s1. rewrite queueError_eq. cbn.
      rewrite Hq, Hb, Hi, Ht, Hbt. by repeat split.
Qed.

Lemma capture_fail_open_witness :
  batch (handleError 1 (sampleEvent "m") hookThrows).1 = batch hookThrows.
Proof.
  destruct (capture_fail_open 1 (sampleEvent "m") hookThrows)
    as (_ & _ & _ & _ & H).
  edestruct H as (_ & _ & _ & Hun).
  - reflexivity.
  - vm_compute. reflexivity.
  - destruct Hun as (_ & _ & Hb & _); [reflexivity|exact Hb].
Defined.

(** ** C5: the recording attached to an event *)

Lemma handleError_batches stack errorData s p :
  beforeSend (config s) (mkErrorEvent errorData (Some "error")) = Normal (Some p) ->
  failsAfterTransform errorData s = None ->
  (handleError stack errorData s).1
  = addToBatch (enriched errorData s).1 (enriched errorData s).2.
Proof.
  intros Hbs Hok. rewrite handleError_unfold, async_fst.
  unfold handleError_body, enriched, failsAfterTransform in *. rewrite Hbs.
  destruct (attachRecording errorData s) as [[e1 s1]|err]; [|done].
  destruct (mergeMetadata e1 s1) as [e2 s2].
  by destruct (callOnErrorCaptured e2 s2) as [s3 [[]|err]].
Qed.




(** ** C7: a failed batch goes to the delivery queue *)

Lemma grows_wf s s' :
  grows s s' -> ids_fresh s -> no_drain s -> ids_fresh s' /\ no_drain s'.
Proof.
  intros (_ & _ & _ & _ & Hn & [new [Hi Hnew]]) Hfresh Hnd.
  unfold ids_fresh, no_drain. rewrite Hi. split; apply Forall_app; split.
  - eapply Forall_impl; [exact Hfresh|]. cbn. lia.
  - eapply Forall_impl; [exact Hnew|]. cbn. lia.
  - exact Hnd.
  - eapply Forall_impl; [exact Hnew|]. cbn. tauto.
Qed.

(** [flushBatch] on a non-empty batch: the snapshot is in flight, the
    batch is empty and the timer is cleared. *)
Lemma flushBatch_cons s :
  batch s <> [] ->
  let s1 := flushBatch s in
  batch s1 = [] /\ batchTimer s1 = None
  /\ inflight s1 =
       inflight s ++
         [(nextId s,
           mkRequest (baseUrl (config s))
             (String.append "Bearer " (apiKey (config s)))
             (projectId (config s)) (payloadItem s <$> batch s) (now s)
             (KFlushBatch (batch s)))]
  /\ errorQueue s1 = errorQueue s /\ isSendingQueue s1 = isSendingQueue s
  /\ nextId s1 = S (nextId s) /\ console_warn_patched s1 = console_warn_patched s
  /\ localStorage s1 = localStorage s /\ isBrowser s1 = isBrowser s
  /\ storageOk s1 = storageOk s /\ heap s1 = heap s
  /\ consoleCalls s1 = consoleCalls s.
Proof.
  intros Hne. unfold flushBatch.
  destruct (batch s) as [|e b] eqn:Hb; [done|].
  cbn. destruct (batchTimer s) eqn:Ht; cbn; rewrite ?Ht; by repeat split.
Qed.

(** The enrichment steps of [handleError] leave the delivery state as
    it is. *)
Lemma enriched_same_delivery errorData s :
  same_delivery s (enriched errorData s).2
  /\ message (enriched errorData s).1 = message errorData.
Proof.
  unfold enriched.
  destruct (attachRecording errorData s) as [[e1 s1]|err] eqn:Hatt;
    [|split; [apply same_delivery_refl|done]].
  assert (He1 : message e1 = message errorData).
  { unfold attachRecording in Hatt. destruct (_ && _); [|by injection Hatt as <- _].
    destruct (JSON_stringify_frames _); [|done]. by injection Hatt as <- _. }
  apply attachRecording_same_delivery in Hatt.
  pose proof (mergeMetadata_same_delivery e1 s1) as Hm.
  assert (He2 : message (mergeMetadata e1 s1).1 = message e1) by done.
  destruct (mergeMetadata e1 s1) as [e2 s2].
  pose proof (callOnErrorCaptured_same_delivery e2 s2) as Hc.
  split; [|cbn in *; congruence].
  eapply same_delivery_trans; [exact Hatt|].
  eapply same_delivery_trans; [exact Hm|exact Hc].
Qed.

(** The fetch [id] settles while other fetches are awaited too. *)
Lemma list_find_fst_NoDup {B} (l : list (nat * B)) (id : nat) (x : B) :
  NoDup (fst <$> l) -> (id, x) ∈ l ->
  exists i, list_find (fun r : nat * B => r.1 = id) l = Some (i, (id, x)).
Proof.
  induction l as [|a l IH]; intros Hnd Hin; [by apply elem_of_nil in Hin|].
  cbn in Hnd. apply NoDup_cons in Hnd as [Hnotin Hnd].
  apply elem_of_cons in Hin as [<-|Hin].
  - exists 0. cbn. by rewrite decide_True.
  - assert (Hne : a.1 <> id).
    { intros Heq. apply Hnotin. rewrite Heq.
      apply list_elem_of_fmap. by exists (id, x). }
    destruct (IH Hnd Hin) as [i Hi]. exists (S i).
    cbn. rewrite decide_False by done. by rewrite Hi.
Qed.

Lemma settle_at stack id req o s :
  NoDup (fst <$> inflight s) -> (id, req) ∈ inflight s ->
  settle stack id o s =
  let s0 := set_inflight (filter (fun r : nat * Request => r.1 <> id) (inflight s)) s in
  match req_kont req with
  | KFlushBatch batchToSend => (flushBatch_settled stack batchToSend o s0).1
  | KFlushQueue taken => flushQueue_settled taken o s0
  end.
Proof.
  intros Hnd Hin. unfold settle.
  destruct (list_find_fst_NoDup (inflight s) id req Hnd Hin) as [i ->]. done.
Qed.

Lemma addToBatch_errorQueue e s : errorQueue (addToBatch e s) = errorQueue s.
Proof.
  unfold addToBatch. destruct (_ <=? _).
  - unfold flushBatch. cbn. destruct (batch s ++ [e]); [done|].
    cbn. by destruct (batchTimer s).
  - cbn. by destruct (batchTimer s).
Qed.

Lemma addToBatch_below e s :
  length (batch s) + 1 < BATCH_SIZE -> batch (addToBatch e s) = batch s ++ [e].
Proof.
  intros Hlen. unfold addToBatch. cbn. rewrite length_app. cbn.
  replace (BATCH_SIZE <=? length (batch s) + 1) with false
    by (symmetry; apply Nat.leb_gt; lia).
  by destruct (batchTimer s).
Qed.

(** C7, as the code has it.  A flush takes the whole batch [b] and
    leaves the in-memory batch empty.  When its delivery fails, in
    whatever state [sm] the instance is by then, the events of [b] are
    appended to the delivery queue one by one, in order, behind what
    the queue holds, and the failure is reported with [console.warn].
    With [console.warn] unpatched that is all: the batch is as it was
    in [sm].  With [console.warn] patched the warning is handed to
    [handleError] as an event of its own: it is dropped when
    [beforeSend] returns null for it, it is added to the batch when no
    step of its capture throws, and whatever the queue gains comes
    behind the events of [b].  A drain that follows while no other is
    running, in which every delivery succeeds and nothing is enqueued
    meanwhile, empties the queue. *)
Theorem flushBatch_failure_requeues
    (stack : nat) (s sm : Sys) (o : FetchOutcome) (err : string)
    (rounds : list Round) :
  let b := batch s in
  let s1 := flushBatch s in
  let req := mkRequest (baseUrl (config s))
               (String.append "Bearer " (apiKey (config s)))
               (projectId (config s)) (payloadItem s <$> b) (now s)
               (KFlushBatch b) in
  let s2 := settle stack (nextId s) o sm in
  let msg := ["ErrorWatch: Failed to send batch, queued for retry"; err] in
  let sq := queueErrors b
              (set_inflight
                 (filter (fun r : nat * Request => r.1 <> nextId s) (inflight sm))
                 sm) in
  let sw := log_call "warn" (VStr <$> msg) sq in
  let diag := consoleEvent SevWarning "console.warn" msg sw in
  batch s <> [] ->
  (nextId s, req) ∈ inflight sm -> NoDup (fst <$> inflight sm) ->
  sendBatch_settled o = Throw err ->
  Forall (fun r => arrivals r = [] /\ sendBatch_settled (outcome r) = Normal tt)
         rounds ->
  (batch s1 = [] /\ batchTimer s1 = None
   /\ inflight s1 = inflight s ++ [(nextId s, req)])
  /\ (errorQueue sw = errorQueue sm ++ b /\ batch sw = batch sm
      /\ timers sw = timers sm /\ config sw = config sm
      /\ (isBrowser sm && storageOk sm = false
          \/ forallb (stringifies (heap sm)) (errorQueue sm ++ b) = true ->
          localStorage sw = persisted (errorQueue sm ++ b) sm))
  /\ (console_warn_patched sm = false -> s2 = sw)
  /\ (console_warn_patched sm = true ->
      match stack with
      | O => s2 = sw
      | S k =>
          s2 = (handleError k diag sw).1
          /\ (beforeSend (config sm) (mkErrorEvent diag (Some "error")) = Normal None ->
              s2 = sw)
          /\ (forall p,
                beforeSend (config sm) (mkErrorEvent diag (Some "error"))
                = Normal (Some p) ->
                failsAfterTransform diag sw = None ->
                s2 = addToBatch (enriched diag sw).1 (enriched diag sw).2
                /\ errorQueue s2 = errorQueue sm ++ b
                /\ (length (batch sm) + 1 < BATCH_SIZE ->
                    batch s2 = batch sm ++ [(enriched diag sw).1]))
      end)
  /\ (exists more, errorQueue s2 = errorQueue sm ++ b ++ more)
  /\ (ids_fresh sm -> no_drain sm -> isSendingQueue sm = false ->
      length (errorQueue s2) <= length rounds * BATCH_SIZE ->
      let s3 := drain rounds (flushQueue s2) in
      errorQueue s3 = [] /\ isSendingQueue s3 = false).
Proof.
  intros b s1 req s2 msg sq sw diag Hne Hin Hnd Hfail Hrounds.
  destruct (flushBatch_cons s Hne)
    as (Hb1 & Ht1 & Hi1 & _).
  split; [by repeat split|].
  set (sm0 := set_inflight
                (filter (fun r : nat * Request => r.1 <> nextId s) (inflight sm))
                sm) in *.
  assert (Hs2 : s2 = (console_warn stack msg sq).1).
  { subst s2. rewrite (settle_at stack (nextId s) req o sm Hnd Hin).
    cbn [req_kont req]. unfold flushBatch_settled. rewrite Hfail.
    by rewrite async_fst. }
  destruct (queueErrors_frame b sm0)
    as (Hqi & Hqn & Hqf & Hqb & Hqbt & Hqbr & Hqok & Hqh & Hqc).
  fold sq in Hqi, Hqn, Hqf, Hqb, Hqbt, Hqbr, Hqok, Hqh, Hqc.
  assert (Hsq : errorQueue sq = errorQueue sm ++ b).
  { subst sq. by rewrite queueErrors_errorQueue. }
  assert (Htm : timers sq = timers sm).
  { subst sq. by rewrite queueErrors_eq. }
  assert (Hpw : console_warn_patched sq = console_warn_patched sm).
  { subst sq. by rewrite queueErrors_eq. }
  assert (Hbw : batch sw = batch sm).
  { change (batch sq = batch sm). by rewrite Hqb. }
  assert (Hcfg : config sw = config sm).
  { change (config sq = config sm). by rewrite Hqc. }
  split.
  { split; [exact Hsq|]. split; [exact Hbw|]. split; [exact Htm|].
    split; [exact Hcfg|].
    intros Hcase. change (localStorage sw) with (localStorage sq). subst sq.
    rewrite queueErrors_localStorage by done.
    by apply persisted_frame. }
  assert (Hunp : console_warn_patched sm = false -> s2 = sw).
  { intros Hp. rewrite Hs2. unfold console_warn, console_capture.
    change (console_warn_patched (log_call "warn" (VStr <$> msg) sq))
      with (console_warn_patched sq).
    by rewrite Hpw, Hp. }
  split; [exact Hunp|].
  assert (Hpat : console_warn_patched sm = true ->
                 match stack with
                 | O => s2 = sw
                 | S k => s2 = (handleError k diag sw).1
                 end).
  { intros Hp. rewrite Hs2. unfold console_warn, console_capture.
    change (console_warn_patched (log_call "warn" (VStr <$> msg) sq))
      with (console_warn_patched sq).
    rewrite Hpw, Hp. by destruct stack. }
  split.
  { intros Hp. specialize (Hpat Hp). destruct stack as [|k]; [exact Hpat|].
    split; [exact Hpat|]. split.
    - intros Hnull. rewrite Hpat, handleError_null_discards; [done|].
      by rewrite Hcfg.
    - intros p Hsome Hok.
      assert (Hadd : s2 = addToBatch (enriched diag sw).1 (enriched diag sw).2).
      { rewrite Hpat. apply (handleError_batches k diag sw p); [|done].
        by rewrite Hcfg. }
      destruct (enriched_same_delivery diag sw)
        as ((Hq3 & Hb3 & _) & _).
      split; [exact Hadd|]. split.
      + rewrite Hadd, addToBatch_errorQueue, Hq3. exact Hsq.
      + intros Hlen. rewrite Hadd, addToBatch_below; rewrite Hb3, Hbw; done. }
  pose proof (console_warn_grows stack msg sq) as Hg. rewrite <- Hs2 in Hg.
  split.
  { destruct Hg as ([more Hmore] & _). exists more.
    by rewrite Hmore, Hsq, <- app_assoc. }
  intros Hfresh Hnodrain Hflag Hlen s3.
  assert (Hfresh0 : ids_fresh sm0 /\ no_drain sm0).
  { unfold ids_fresh, no_drain, sm0. cbn. split.
    - apply Forall_forall. intros r Hr. apply list_elem_of_filter in Hr as [_ Hr].
      unfold ids_fresh in Hfresh. rewrite Forall_forall in Hfresh. by apply Hfresh.
    - apply Forall_forall. intros r Hr. apply list_elem_of_filter in Hr as [_ Hr].
      unfold no_drain in Hnodrain. rewrite Forall_forall in Hnodrain.
      by apply Hnodrain. }
  destruct Hfresh0 as [Hfresh0 Hnodrain0].
  pose proof (queueErrors_grows b sm0) as Hg2. fold sq in Hg2.
  destruct (grows_wf sm0 s2) as [Hfresh2 Hnd2]; [|done|done|].
  { eapply grows_trans; [exact Hg2|exact Hg]. }
  assert (Hflag2 : isSendingQueue s2 = false).
  { destruct Hg as (_ & _ & _ & -> & _). by rewrite Hqf. }
  subst s3. unfold flushQueue. rewrite Hflag2.
  destruct (drain_success_empties rounds (set_isSendingQueue true s2))
    as (H1 & H2 & _); done.
Qed.

Lemma flushBatch_failure_requeues_witness :
  let sm := (captureMessage 1 "n" None None (flushBatch pendingNode)).1 in
  let s2 := settle 1 (nextId pendingNode)
              (NetworkError "TypeError: Failed to fetch") sm in
  message <$> errorQueue s2 = ["m"] /\ message <$> batch s2 = ["n"]
  /\ errorQueue
       (drain [mkRound [] (HttpResponse true "200" true)] (flushQueue s2))
     = [].
Proof.
  intros sm s2.
  pose proof (flushBatch_failure_requeues 1 pendingNode sm
                (NetworkError "TypeError: Failed to fetch")
                "TypeError: Failed to fetch"
                [mkRound [] (HttpResponse true "200" true)]) as H.
  cbv zeta in H.
  destruct H as (_ & (Hq & Hb & _) & Hunp & _ & _ & Hdrain).
  - vm_compute. discriminate.
  - vm_compute. apply list_elem_of_here.
  - vm_compute. repeat constructor; set_solver.
  - reflexivity.
  - repeat constructor.
  - fold s2 in Hunp, Hdrain. rewrite (Hunp eq_refl).
    split; [by rewrite Hq|]. split; [by rewrite Hb|].
    rewrite <- (Hunp eq_refl). apply Hdrain.
    + vm_compute. repeat constructor.
    + vm_compute. repeat constructor.
    + reflexivity.
    + vm_compute. lia.
Defined.

(** In a browser with the default options, the warning that reports
    the failed flush is captured in its turn: after the failure the
    batch is not empty. *)
Lemma failed_flush_diagnostic_is_batched :
  let s := (captureMessage 1 "m" None None
              (newInstance sampleConfig browserHost)).1 in
  let s1 := elapse 5000 s in
  let s2 := settle 1 3 (HttpResponse false "500" false) s1 in
  message <$> batch s = ["m"]
  /\ batch s1 = [] /\ fst <$> inflight s1 = [3]
  /\ message <$> errorQueue s2 = ["m"]
  /\ message <$> batch s2
     = ["ErrorWatch: Failed to send batch, queued for retry Error: HTTP 500"]
  /\ batch s2 <> [].
Proof. vm_compute. repeat split; try reflexivity. discriminate. Qed.

(** ** C3: the batch accumulator *)

Lemma spec_step_inv a i : spec_inv a -> spec_inv (spec_step a i).
Proof.
  intros (Hlen & Hsince & Hfl). destruct i as [e|dt]; unfold spec_step.
  - destruct (Nat.leb_spec BATCH_SIZE (length (acc_pending a ++ [e]))) as [Hge|Hlt];
      unfold spec_inv; cbn [acc_pending acc_since acc_flushed].
    + split; [unfold BATCH_SIZE; cbn; lia|]. split; [done|].
      apply Forall_app. split; [done|]. apply Forall_singleton. left.
      cbn [snd] in *. rewrite length_app in *. cbn [length] in *. lia.
    + split; [done|]. split; [|done].
      split; [done|by destruct (acc_pending a)].
  - destruct (acc_since a) as [t0|] eqn:Hs.
    + destruct (Z.leb_spec (t0 + BATCH_INTERVAL) (acc_now a + Z.max 0 dt));
        unfold spec_inv; cbn [acc_pending acc_since acc_flushed].
      * split; [unfold BATCH_SIZE; cbn; lia|]. split; [done|].
        apply Forall_app. split; [done|]. apply Forall_singleton. right.
        cbn [snd]. split; [|done]. destruct (acc_pending a); [|cbn; lia].
        destruct Hsince as [_ Hs']. by specialize (Hs' eq_refl).
      * by repeat split; try apply Hsince.
    + unfold spec_inv; cbn [acc_pending acc_since acc_flushed].
      by repeat split; try apply Hsince.
Qed.

Lemma spec_step_added a i :
  concat (snd <$> acc_flushed (spec_step a i)) ++ acc_pending (spec_step a i)
  = (concat (snd <$> acc_flushed a) ++ acc_pending a)
      ++ match i with Add e => [e] | Wait _ => [] end.
Proof.
  unfold spec_step. destruct i as [e|dt].
  - destruct (_ <=? _)%nat; cbn.
    + rewrite fmap_app, concat_app. cbn. by rewrite !app_nil_r, app_assoc.
    + by rewrite app_assoc.
  - destruct (acc_since a) as [t0|]; [destruct (_ <=? _)%Z|]; cbn;
      rewrite ?fmap_app, ?concat_app; cbn; by rewrite ?app_nil_r.
Qed.

Lemma flushes_sendBatch b s :
  flushes (sendBatch (KFlushBatch b) b s) = flushes s ++ [(now s, b)].
Proof. unfold flushes, sendBatch. cbn. by rewrite omap_app. Qed.

Lemma filter_timer_single id (due : Z) :
  filter (fun t : nat * Z => t.1 <> id) [(id, due)] = [].
Proof. by rewrite filter_cons_False, filter_nil by (cbn; tauto). Qed.

Lemma batch_step_inv f0 s a i :
  spec_inv a -> batch_inv f0 s a ->
  batch_inv f0 (batch_step s i) (spec_step a i).
Proof.
  intros (Hlen & Hsince & _) (Hnow & Hbatch & Hfl & Htimer).
  unfold batch_inv, batch_step, spec_step. destruct i as [e|dt].
  - unfold addToBatch. cbn [batch set_batch]. rewrite Hbatch.
    destruct (Nat.leb_spec BATCH_SIZE (length (acc_pending a ++ [e]))) as [Hge|Hlt].
    + unfold flushBatch. cbn [batch set_batch batchTimer].
      destruct (acc_pending a ++ [e]) as [|x l] eqn:Hp;
        [by destruct (acc_pending a)|].
      destruct (acc_since a) as [t0|].
      * destruct Htimer as (id & Hid & Htm & Hlt). rewrite Hid.
        rewrite flushes_sendBatch. cbn. rewrite Htm, filter_timer_single.
        rewrite <- Hnow. repeat split; try done.
        unfold flushes in *. cbn. by rewrite Hfl, app_assoc.
      * destruct Hsince as [Hs _]. rewrite (Hs eq_refl) in Hp.
        injection Hp as <- <-. cbn in Hge. unfold BATCH_SIZE in Hge. lia.
    + destruct (acc_since a) as [t0|].
      * destruct Htimer as (id & Hid & Htm & Hlt'). cbn. rewrite Hid. cbn.
        repeat split; try done. by exists id.
      * destruct Htimer as [Hid Htm]. cbn. rewrite Hid. cbn.
        repeat split; try done. exists (nextId s). rewrite Htm, <- Hnow. cbn.
        repeat split; try done. unfold BATCH_INTERVAL. lia.
  - unfold elapse. rewrite <- Hnow.
    destruct (acc_since a) as [t0|].
    + destruct Htimer as (id & Hid & Htm & Hlt'). rewrite Htm. cbn [foldl fst snd].
      destruct (Z.leb_spec (t0 + BATCH_INTERVAL) (now s + Z.max 0 dt)) as [Hdue|Hnot].
      * unfold fireTimer. rewrite Htm. cbn [existsb fst]. rewrite Nat.eqb_refl. cbn [orb].
        rewrite filter_timer_single. unfold flushBatch. cbn [batch set_now set_timers].
        destruct (batch s) as [|x l] eqn:Hb.
        { destruct Hsince as [_ Hs]. rewrite <- Hbatch in Hs. by specialize (Hs eq_refl). }
        cbn [batchTimer set_batch set_now set_timers]. rewrite Hid.
        change (flushes (set_now ?t ?s0)) with (flushes s0).
        rewrite flushes_sendBatch. cbn.
        replace (Z.max (now s) (t0 + BATCH_INTERVAL)) with (t0 + BATCH_INTERVAL)%Z by lia.
        repeat split; try done.
        unfold flushes in *. cbn. by rewrite Hfl, app_assoc, Hbatch.
      * cbn. repeat split; try done. exists id. by repeat split.
    + destruct Htimer as [Hid Htm]. rewrite Htm. cbn. by repeat split.
Qed.

Lemma batch_run_inv f0 inputs : forall s a,
  spec_inv a -> batch_inv f0 s a ->
  spec_inv (spec_run inputs a)
  /\ batch_inv f0 (batch_run inputs s) (spec_run inputs a)
  /\ concat (snd <$> acc_flushed (spec_run inputs a)) ++ acc_pending (spec_run inputs a)
     = (concat (snd <$> acc_flushed a) ++ acc_pending a) ++ added inputs.
Proof.
  induction inputs as [|i inputs IH]; intros s a Hspec Hinv.
  - cbn. by rewrite app_nil_r.
  - unfold batch_run, spec_run in *. cbn [foldl].
    destruct (IH (batch_step s i) (spec_step a i)) as (H1 & H2 & H3).
    + by apply spec_step_inv.
    + by apply batch_step_inv.
    + split; [done|]. split; [done|]. rewrite H3, spec_step_added.
      rewrite <- app_assoc. f_equal. by destruct i.
Qed.

(** C3.  From an empty batch, over any sequence of additions and
    waits, the class flushes exactly as the accumulator of the
    specification does: when the count reaches [BATCH_SIZE] (at once,
    and the timer is cancelled) or [BATCH_INTERVAL] after the first
    addition to the empty batch, whichever comes first; each flush
    carries the events added since the previous one, in insertion
    order. *)
Theorem batch_accumulator_flushes_as_specified
    (inputs : list BatchInput) (s : Sys) :
  batch s = [] -> batchTimer s = None -> timers s = [] ->
  let s' := batch_run inputs s in
  let a := spec_run inputs (mkAccumulator (now s) [] None []) in
  flushes s' = flushes s ++ acc_flushed a
  /\ batch s' = acc_pending a
  /\ snd <$> timers s' = match acc_since a with
                         | Some t0 => [(t0 + BATCH_INTERVAL)%Z]
                         | None => []
                         end
  /\ (batchTimer s' = None <-> batch s' = [])
  /\ concat (snd <$> acc_flushed a) ++ batch s' = added inputs
  /\ Forall (fun f : Z * list ErrorData =>
               length f.2 = BATCH_SIZE \/ 0 < length f.2 < BATCH_SIZE)
            (acc_flushed a).
Proof.
  intros Hb Ht Htm s' a.
  destruct (batch_run_inv (flushes s) inputs s (mkAccumulator (now s) [] None []))
    as ((Hlen & Hsince & Hfl) & (Hnow & Hbatch & Hflushes & Htimer) & Hadded).
  - repeat split; try done. cbn. unfold BATCH_SIZE. lia.
  - repeat split; try done. cbn. by rewrite app_nil_r.
  - fold s' a in Hlen, Hsince, Hfl, Hnow, Hbatch, Hflushes, Htimer, Hadded.
    cbn in Hadded. repeat split; try done.
    + destruct (acc_since a) as [t0|].
      * by destruct Htimer as (id & _ & -> & _).
      * by destruct Htimer as [_ ->].
    + intros Hnone. rewrite Hbatch. apply Hsince.
      destruct (acc_since a) as [t0|]; [|done].
      destruct Htimer as (id & Hid & _). congruence.
    + intros Hempty. rewrite Hbatch in Hempty. apply Hsince in Hempty.
      rewrite Hempty in Htimer. apply Htimer.
    + by rewrite Hbatch.
Qed.

Lemma batch_accumulator_witness :
  flushes
    (batch_run [Add (sampleEvent "a"); Wait 4999; Add (sampleEvent "b"); Wait 1]
       (newInstance sampleConfig nodeHost))
  = [(6000%Z, [sampleEvent "a"; sampleEvent "b"])].
Proof.
  destruct (batch_accumulator_flushes_as_specified
              [Add (sampleEvent "a"); Wait 4999; Add (sampleEvent "b"); Wait 1]
              (newInstance sampleConfig nodeHost)) as (H & _);
    [reflexivity..|exact H].
Defined.

(** ** What [destroy] does *)

Lemma destroy_facts s :
  let s' := destroy s in
  isRecording s' = false /\ recordingEvents s' = []
  /\ batchTimer s' = None /\ batch s' = []
  /\ listeners s' = listeners s
  /\ console_error_patched s' = console_error_patched s
  /\ console_warn_patched s' = console_warn_patched s
  /\ console_log_patched s' = console_log_patched s
  /\ now s' = now s /\ config s' = config s
  /\ recorders s' = match stopRecording s with
                    | Some h => filter (fun x => x <> h) (recorders s)
                    | None => recorders s
                    end
  /\ timers s' = match batchTimer s with
                 | Some id => filter (fun t => t.1 <> id) (timers s)
                 | None => timers s
                 end
  /\ flushes s' = flushes s ++ match batch s with
                               | [] => []
                               | _ :: _ => [(now s, batch s)]
                               end.
Proof.
  unfold destroy, flushBatch.
  destruct (stopRecording s) as [h|] eqn:Hstop, (batchTimer s) as [id|] eqn:Htimer,
    (batch s) as [|e b] eqn:Hbatch.
  all: cbn [batch set_batch set_batchTimer clearTimeout set_timers
            set_recordingEvents set_isRecording rrweb_stop set_recorders
            batchTimer].
  all: rewrite ?Htimer, ?Hbatch.
  all: cbn [batch set_batch set_batchTimer clearTimeout set_timers
            set_recordingEvents set_isRecording rrweb_stop set_recorders
            batchTimer].
  all: rewrite ?Htimer, ?Hbatch.
  all: rewrite ?flushes_sendBatch.
  all: unfold sendBatch, flushes.
  all: cbn [isRecording recordingEvents batchTimer batch listeners
            console_error_patched console_warn_patched console_log_patched
            now config recorders timers inflight
            set_nextId set_inflight set_batch set_batchTimer clearTimeout
            set_timers set_recordingEvents set_isRecording rrweb_stop
            set_recorders].
  all: rewrite ?app_nil_r.
  all: by repeat split.
Qed.


(** * Further properties of the class *)

(** ** The stored queue: saving and loading *)

(** An induction principle for values: the elements of an array and the
    property values of an object satisfy the predicate. *)
Lemma JsVal_nested_ind (P : JsVal -> Prop) :
  P VUndefined -> P VNull -> (forall b, P (VBool b)) -> (forall z, P (VNum z)) ->
  (forall s, P (VStr s)) -> (forall fs, P (VFramesJson fs)) ->
  (forall l, Forall P l -> P (VArr l)) ->
  (forall fields, Forall (fun kv : string * JsVal => P kv.2) fields -> P (VObj fields)) ->
  (forall r, P (VArrRef r)) -> (forall z, P (VBigInt z)) ->
  forall v, P v.
Proof.
  intros Hu Hn Hb Hz Hs Hf Ha Ho Hr Hg.
  fix IH 1. intros v.
  destruct v as [| |b|z|s|fs|l|fields|r|z];
    [exact Hu|exact Hn|apply Hb|apply Hz|apply Hs|apply Hf| | |apply Hr|apply Hg].
  - apply Ha. induction l as [|x l IHl]; constructor; [apply IH|exact IHl].
  - apply Ho. induction fields as [|[k x] fields IHl]; constructor;
      [apply IH|exact IHl].
Qed.

Lemma json_val_defined v : v <> VUndefined -> json_val v <> VUndefined.
Proof. by destruct v. Qed.

Lemma json_val_idemp v : json_val (json_val v) = json_val v.
Proof.
  induction v as [| | | | | |l IH|fields IH| |] using JsVal_nested_ind; try done.
  - cbn. f_equal. rewrite <- list_fmap_compose. apply Forall_fmap_ext.
    eapply Forall_impl; [exact IH|]. intros x Hx. cbn.
    destruct x; try done; cbn in *; by rewrite ?Hx.
  - cbn. f_equal. induction IH as [|[k x] fields Hx _ IHf]; [done|].
    cbn. destruct x; cbn in *; rewrite ?IHf; try done; by rewrite ?Hx.
Qed.

Lemma json_val_writable v : writable v = true -> writable (json_val v) = true.
Proof.
  induction v as [| | | | | |l IH|fields IH| |] using JsVal_nested_ind; try done.
  - cbn. intros Hw. rewrite forallb_forall in Hw. apply forallb_forall.
    intros y Hy. apply in_map_iff in Hy as (x & <- & Hx).
    rewrite Forall_forall in IH.
    specialize (IH x (proj2 (list_elem_of_In _ _) Hx) (Hw x Hx)).
    by destruct x.
  - cbn. intros Hw. induction IH as [|[k x] fields Hx _ IHf]; [done|].
    cbn in Hw. apply andb_prop in Hw as [Hw1 Hw2]. cbn in *.
    destruct x; cbn in *; rewrite ?IHf by done; try done.
    + by rewrite (Hx Hw1).
    + by rewrite (Hx Hw1).
Qed.

Lemma freeze_not_ref h v r : freeze h v <> VArrRef r.
Proof. by destruct v. Qed.

Lemma json_val_not_ref v r : v <> VArrRef r -> json_val v <> VArrRef r.
Proof. by destruct v. Qed.

Lemma json_prop_Some h v w :
  json_prop h v = Some w ->
  w = json_val (freeze h v) /\ freeze h v <> VUndefined.
Proof.
  unfold json_prop. destruct (freeze h v) eqn:E; [done|..];
    intros [= <-]; by split.
Qed.

(** A value read back from a JSON text is written as it is. *)
Lemma json_prop_fixed h h' v w : json_prop h v = Some w -> json_prop h' w = Some w.
Proof.
  intros H. apply json_prop_Some in H as [-> Hdef].
  assert (Hfix : freeze h' (json_val (freeze h v)) = json_val (freeze h v)).
  { pose proof (freeze_not_ref h v) as Hr.
    destruct (freeze h v); try done. by destruct (Hr r). }
  unfold json_prop. rewrite Hfix.
  pose proof (json_val_defined _ Hdef) as Hd.
  rewrite <- (json_val_idemp (freeze h v)) at 2.
  by destruct (json_val (freeze h v)).
Qed.

Lemma freezeEvent_freezeEvent h h' e :
  freezeEvent h' (freezeEvent h e) = freezeEvent h e.
Proof.
  unfold freezeEvent, set_metadata. cbn.
  destruct (metadata e) as [m|]; [|done]. do 2 f_equal.
  apply map_eq. intros k. rewrite !lookup_omap.
  destruct (m !! k) as [v|]; [|done]. cbn.
  destruct (json_prop h v) as [w|] eqn:E; [|done]. cbn.
  by apply (json_prop_fixed h h' v).
Qed.

Lemma meta_get_freezeEvent h e k :
  meta_get (freezeEvent h e) k = json_val (freeze h (meta_get e k)).
Proof.
  unfold meta_get, freezeEvent. cbn.
  destruct (metadata e) as [m|]; [|done]. rewrite lookup_omap.
  destruct (m !! k) as [v|]; [|done]. cbn. unfold json_prop.
  by destruct (freeze h v).
Qed.

(** No property of an event read back from a JSON text is
    [undefined]. *)
Lemma freezeEvent_defined h e m k :
  metadata (freezeEvent h e) = Some m -> m !! k <> Some VUndefined.
Proof.
  unfold freezeEvent. cbn. destruct (metadata e) as [m0|]; [|done].
  intros [= <-]. rewrite lookup_omap.
  destruct (m0 !! k) as [v|]; [|done]. cbn.
  destruct (json_prop h v) as [w|] eqn:E; [|done].
  apply json_prop_Some in E as [-> Hdef]. intros [= Hw].
  by apply (json_val_defined _ Hdef).
Qed.

Lemma stringifies_spec h e :
  stringifies h e = true
  <-> forall m k v, metadata e = Some m -> m !! k = Some v ->
                    writable (freeze h v) = true.
Proof.
  unfold stringifies. destruct (metadata e) as [m|]; [|by split].
  rewrite forallb_forall. split.
  - intros H m' k v [= <-] Hk.
    apply (H (k, v)). apply list_elem_of_In. by apply elem_of_map_to_list.
  - intros H [k v] Hin. apply list_elem_of_In, elem_of_map_to_list in Hin.
    by apply (H m k v).
Qed.

Lemma stringifies_freezeEvent h h' e :
  stringifies h e = true -> stringifies h' (freezeEvent h e) = true.
Proof.
  rewrite !stringifies_spec. intros H m k w Hm Hk.
  unfold freezeEvent in Hm. cbn in Hm.
  destruct (metadata e) as [m0|] eqn:Hm0; [|done]. injection Hm as <-.
  rewrite lookup_omap in Hk. destruct (m0 !! k) as [v|] eqn:Hv; [|done].
  cbn in Hk. pose proof Hk as Hk'. apply json_prop_Some in Hk as [-> Hdef].
  pose proof (freeze_not_ref h v) as Hr.
  assert (Hfix : freeze h' (json_val (freeze h v)) = json_val (freeze h v)).
  { destruct (freeze h v); try done. by destruct (Hr r). }
  rewrite Hfix. apply json_val_writable. by apply (H m0 k v).
Qed.

Lemma plain_freezeEvent h e : plain (freezeEvent h e) = plain e.
Proof. done. Qed.

(** X1.  In a browser with working storage, [saveQueue] writes nothing
    when [JSON.stringify] cannot write the queue.  Otherwise what
    [loadQueue] gives back is the saved events, in order, with the same
    fields; every metadata key reads as the JSON form of what was saved
    (the breadcrumb array written out as it was then), and a key whose
    value was [undefined] is gone.  Saving what was loaded writes the
    same item again. *)
Theorem saveQueue_loadQueue_round_trip (queue : list ErrorData) (s : Sys) :
  isBrowser s = true -> storageOk s = true ->
  let stored := localStorage (saveQueue queue s) in
  let loaded := loadQueue true true stored in
  (forallb (stringifies (heap s)) queue = false -> stored = localStorage s)
  /\ (forallb (stringifies (heap s)) queue = true ->
      plain <$> loaded = plain <$> queue
      /\ Forall2 (fun e' e => forall k,
                    meta_get e' k = json_val (freeze (heap s) (meta_get e k)))
                 loaded queue
      /\ Forall (fun e' => forall m k,
                   metadata e' = Some m -> m !! k <> Some VUndefined) loaded
      /\ (forall s2, isBrowser s2 = true -> storageOk s2 = true ->
            localStorage (saveQueue loaded s2) = stored)).
Proof.
  intros Hb Hok stored loaded. split.
  - intros Hw. subst stored. unfold saveQueue. by rewrite Hb, Hok, Hw.
  - intros Hw.
    assert (Hst : stored = Encoded (freezeEvent (heap s) <$> queue)).
    { subst stored. unfold saveQueue. by rewrite Hb, Hok, Hw. }
    assert (Hl : loaded = freezeEvent (heap s) <$> queue) by (subst loaded; by rewrite Hst).
    rewrite Hl, Hst. clear stored loaded Hst Hl.
    split; [|split; [|split]].
    + rewrite <- list_fmap_compose. by apply list_fmap_ext.
    + apply Forall2_fmap_l, Forall_Forall2_diag, Forall_forall.
      intros e _ k. apply meta_get_freezeEvent.
    + apply Forall_fmap, Forall_forall. intros e _ m k. apply freezeEvent_defined.
    + intros s2 Hb2 Hok2. unfold saveQueue. rewrite Hb2, Hok2. cbn.
      replace (forallb (stringifies (heap s2)) (freezeEvent (heap s) <$> queue))
        with true.
      * cbn. f_equal. rewrite <- list_fmap_compose. apply list_fmap_ext.
        intros i e _. cbn. apply freezeEvent_freezeEvent.
      * symmetry. apply forallb_forall. intros e' He'.
        apply in_map_iff in He' as (e & <- & He).
        apply stringifies_freezeEvent.
        rewrite forallb_forall in Hw. by apply Hw.
Qed.

Lemma saveQueue_loadQueue_round_trip_witness :
  let s := newInstance sampleConfig browserHost in
  let e := (enriched (sampleEvent "a") s).1 in
  meta_get e "userId" = VUndefined
  /\ (exists m, metadata e = Some m /\ m !! "userId" = Some VUndefined)
  /\ Forall (fun e' => forall m k,
               metadata e' = Some m -> m !! k <> Some VUndefined)
            (loadQueue true true
               (localStorage (saveQueue [e; sampleEvent "b"] (enriched (sampleEvent "a") s).2))).
Proof.
  intros s e. split; [reflexivity|]. split; [by eexists|].
  refine (proj1 (proj2 (proj2 (proj2 (saveQueue_loadQueue_round_trip
                          [e; sampleEvent "b"] (enriched (sampleEvent "a") s).2 _ _) _))));
    (vm_compute; reflexivity).
Defined.

(** ** Construction *)

Lemma constructor_inv c h s :
  constructor c h = Normal s ->
  s = init ((if host_isBrowser h
             then addEventListener "beforeunload" HBeforeUnload else id)
              (set_hookCalls
                 (match u_analyticsHooks c with
                  | Some hooks =>
                      match onSessionStart hooks with
                      | Some _ => [CalledSessionStart (host_sessionId h)]
                      | None => []
                      end
                  | None => []
                  end)
                 (set_session (host_sessionId h) (host_now h)
                    ((if host_isBrowser h
                      then addEventListener "online" HOnline else id)
                       (set_errorQueue
                          (loadQueue (host_isBrowser h) (host_storageOk h)
                             (host_storage h))
                          (blank (defaultConfig c) h)))))).
Proof.
  unfold constructor. destruct h as [[] t href ua st ok sid]; cbn.
  all: destruct (u_analyticsHooks c) as [[oc [hook|] oe]|]; cbn.
  all: try (destruct (hook sid) as [[]|err]; [|done]).
  all: by intros [= <-].
Qed.

(** X2.  Outside a browser the constructor registers no listener,
    patches no console function and starts no recorder; the queue is
    empty and no drain, fetch or timer is pending; storage is not
    touched, by the constructor or by a later [queueError]; the
    configuration is the defaults overridden by the options given, and
    the session id and start time are those generated. *)
Theorem constructor_outside_browser_installs_nothing
    (c : ErrorWatchConfig) (h : Host) (s : Sys) :
  host_isBrowser h = false ->
  constructor c h = Normal s ->
  listeners s = []
  /\ (console_error_patched s = false /\ console_warn_patched s = false
      /\ console_log_patched s = false)
  /\ (isRecording s = false /\ stopRecording s = None /\ recorders s = [])
  /\ (errorQueue s = [] /\ isSendingQueue s = false /\ inflight s = []
      /\ timers s = [])
  /\ localStorage s = host_storage h
  /\ (forall e, localStorage (queueError e s) = host_storage h)
  /\ config s = defaultConfig c
  /\ sessionId s = host_sessionId h /\ sessionStartTime s = host_now h.
Proof.
  intros Hb Hc. apply constructor_inv in Hc. rewrite Hb in Hc. subst s.
  destruct h as [b t href ua st ok sid]. cbn in Hb. subst b.
  destruct c as [ak pid env burl [[]|] dur [[]|] net bs sel pii hooks].
  all: by repeat split.
Qed.

Lemma constructor_outside_browser_installs_nothing_witness :
  listeners (newInstance sampleConfig nodeHost) = [].
Proof.
  refine (proj1 (constructor_outside_browser_installs_nothing
                   sampleConfig nodeHost (newInstance sampleConfig nodeHost) _ _));
    (vm_compute; reflexivity).
Defined.

(** X3.  In a browser the constructor registers the seven listeners, in
    the order of the source; it always patches [console.log], and
    patches [console.error] and [console.warn] exactly when
    [captureConsole] is set; it starts one recorder, on an empty frame
    buffer, exactly when [enableScreenRecording] is set; the batch and
    the breadcrumb trail are empty and no timer is pending. *)
Theorem constructor_browser_setup (c : ErrorWatchConfig) (h : Host) (s : Sys) :
  host_isBrowser h = true ->
  constructor c h = Normal s ->
  listeners s = browserListeners
  /\ console_log_patched s = true
  /\ console_error_patched s = captureConsole (defaultConfig c)
  /\ console_warn_patched s = captureConsole (defaultConfig c)
  /\ isRecording s = enableScreenRecording (defaultConfig c)
  /\ recordingEvents s = []
  /\ (if enableScreenRecording (defaultConfig c)
      then exists r, stopRecording s = Some r /\ recorders s = [r]
      else stopRecording s = None /\ recorders s = [])
  /\ batch s = [] /\ batchTimer s = None /\ timers s = [] /\ trail s = []
  /\ config s = defaultConfig c
  /\ sessionId s = host_sessionId h /\ sessionStartTime s = host_now h.
Proof.
  intros Hb Hc. apply constructor_inv in Hc. rewrite Hb in Hc. subst s.
  destruct h as [b t href ua st ok sid]. cbn in Hb. subst b.
  destruct c as [ak pid env burl [[]|] dur [[]|] net bs sel pii hooks].
  all: cbn [host_isBrowser host_storageOk host_storage].
  all: destruct (loadQueue true ok st) as [|e q].
  all: unfold init, flushQueue, flushQueue_loop, trail; cbn.
  all: repeat split; try reflexivity; eexists; split; reflexivity.
Qed.

Lemma constructor_browser_setup_witness :
  listeners (newInstance sampleConfig browserHost) = browserListeners.
Proof.
  refine (proj1 (constructor_browser_setup
                   sampleConfig browserHost
                   (newInstance sampleConfig browserHost) _ _));
    (vm_compute; reflexivity).
Defined.

(** What [init] has set up when it reaches [flushQueue]. *)
Lemma init_flushQueue s :
  exists s0,
    init s = flushQueue s0
    /\ errorQueue s0 = errorQueue s /\ isSendingQueue s0 = isSendingQueue s
    /\ inflight s0 = inflight s /\ localStorage s0 = localStorage s
    /\ config s0 = config s /\ now s0 = now s /\ heap s0 = heap s.
Proof.
  unfold init. eexists. split; [reflexivity|].
  unfold setupErrorHandlers, setupConsoleCapture, setupBreadcrumbs,
    startScreenRecording.
  destruct s as [[? ? ? ? [] ? [] ? ? ? ? ?] [] ? ? ? ? ? ? ? ? ? ?
                   [] ? ? ? ? ? ? ? ? ? ? ? ? ? ? ? ?]; cbn.
  all: by repeat split.
Qed.

(** X4.  The constructor loads the stored queue and [init] starts
    draining it: the first [BATCH_SIZE] stored events are posted at
    once in one request, the others stay queued, a drain is running
    exactly when there was a stored event, and the stored item is left
    as it is until that request settles. *)
Theorem constructor_resumes_stored_queue
    (c : ErrorWatchConfig) (h : Host) (s : Sys) :
  constructor c h = Normal s ->
  let q := loadQueue (host_isBrowser h) (host_storageOk h) (host_storage h) in
  errorQueue s = drop BATCH_SIZE q
  /\ localStorage s = host_storage h
  /\ isSendingQueue s = match q with [] => false | _ :: _ => true end
  /\ snd <$> inflight s
     = match q with
       | [] => []
       | _ :: _ =>
           [mkRequest (baseUrl (config s))
              (String.append "Bearer " (apiKey (config s)))
              (projectId (config s)) (payloadItem s <$> take BATCH_SIZE q)
              (host_now h) (KFlushQueue (take BATCH_SIZE q))]
       end.
Proof.
  intros Hc q. apply constructor_inv in Hc.
  match type of Hc with _ = init ?s1 =>
    destruct (init_flushQueue s1) as (s0 & Hi & Hq & Hf & Hin & Hl & Hcfg & Hnow & Hh);
    rewrite <- Hc in Hi;
    assert (Hq0 : errorQueue s0 = q) by (rewrite Hq; by destruct (host_isBrowser h));
    assert (Hf0 : isSendingQueue s0 = false) by (rewrite Hf; by destruct (host_isBrowser h));
    assert (Hin0 : inflight s0 = []) by (rewrite Hin; by destruct (host_isBrowser h));
    assert (Hl0 : localStorage s0 = host_storage h) by (rewrite Hl; by destruct (host_isBrowser h));
    assert (Hnow0 : now s0 = host_now h) by (rewrite Hnow; by destruct (host_isBrowser h))
  end.
  clear Hc Hq Hf Hin Hl Hcfg Hnow Hh. clearbody q. subst s.
  unfold flushQueue. rewrite Hf0. unfold flushQueue_loop. cbn.
  rewrite Hq0. destruct q as [|e q]; cbn.
  - by rewrite Hl0, Hin0.
  - rewrite Hl0, Hin0, Hnow0. by repeat split.
Qed.

Lemma constructor_resumes_stored_queue_witness :
  errorQueue
    (newInstance sampleConfig
       (mkHost true 1000 "http://app.test/" "UA"
          (Encoded (sampleEvent <$> ["1"; "2"; "3"; "4"; "5"; "6"; "7"; "8";
                                     "9"; "10"; "11"; "12"]))
          true "s1"))
  = sampleEvent <$> ["11"; "12"].
Proof.
  refine (proj1 (constructor_resumes_stored_queue
                   sampleConfig
                   (mkHost true 1000 "http://app.test/" "UA"
                      (Encoded (sampleEvent <$> ["1"; "2"; "3"; "4"; "5"; "6";
                                                 "7"; "8"; "9"; "10"; "11"; "12"]))
                      true "s1")
                   (newInstance sampleConfig
                      (mkHost true 1000 "http://app.test/" "UA"
                         (Encoded (sampleEvent <$> ["1"; "2"; "3"; "4"; "5"; "6";
                                                    "7"; "8"; "9"; "10"; "11"; "12"]))
                         true "s1")) _)).
  vm_compute; reflexivity.
Defined.

(** X5.  The constructor throws exactly when an [onSessionStart] hook is
    configured and throws; the error is the hook's. *)
Theorem constructor_throws_iff_onSessionStart_throws
    (c : ErrorWatchConfig) (h : Host) (err : string) :
  constructor c h = Throw err
  <-> exists hooks hook,
        u_analyticsHooks c = Some hooks
        /\ onSessionStart hooks = Some hook
        /\ hook (host_sessionId h) = Throw err.
Proof.
  unfold constructor. destruct h as [b t href ua st ok sid]. cbn.
  destruct (u_analyticsHooks c) as [[oc [hook|] oe]|]; cbn.
  - destruct (hook sid) as [[]|err'] eqn:Hh.
    + split; [done|]. intros (hooks & hook' & [= <-] & [= <-] & H). cbn in H. congruence.
    + split.
      * intros [= ->]. by eexists _, _.
      * intros (hooks & hook' & [= <-] & [= <-] & H). cbn in H. congruence.
  - split; [done|]. by intros (hooks & hook' & [= <-] & [= ] & _).
  - split; [done|]. by intros (hooks & hook' & [= ] & _).
Qed.

(** ** The capture entry points *)

(** The event after the enrichment steps of [handleError]: the four
    session keys are the instance's, every other key and field is the
    event's own. *)
Lemma enriched_fields errorData s :
  failsAfterTransform errorData s = None ->
  let e := (enriched errorData s).1 in
  meta_get e "sessionId" = VStr (sessionId s)
  /\ meta_get e "userId" = userId_val s
  /\ meta_get e "sessionStart" = VNum (sessionStartTime s)
  /\ meta_get e "breadcrumbs" <> VUndefined
  /\ (forall k, k ∉ ["breadcrumbs"; "sessionId"; "userId"; "sessionStart"] ->
        meta_get e k = meta_get errorData k)
  /\ message e = message errorData /\ stack e = stack errorData
  /\ url e = url errorData /\ line e = line errorData
  /\ column e = column errorData /\ userAgent e = userAgent errorData
  /\ timestamp e = timestamp errorData /\ severity e = severity errorData.
Proof.
  unfold failsAfterTransform, enriched.
  destruct (attachRecording errorData s) as [[e1 s1]|err] eqn:Hatt; [|done].
  intros _.
  assert (He1 : metadata e1 = metadata errorData /\ message e1 = message errorData
                /\ stack e1 = stack errorData /\ url e1 = url errorData
                /\ line e1 = line errorData /\ column e1 = column errorData
                /\ userAgent e1 = userAgent errorData
                /\ timestamp e1 = timestamp errorData
                /\ severity e1 = severity errorData
                /\ sessionId s1 = sessionId s /\ userId s1 = userId s
                /\ sessionStartTime s1 = sessionStartTime s).
  { unfold attachRecording in Hatt.
    destruct (_ && _); [|by injection Hatt as <- <-].
    destruct (JSON_stringify_frames _); [|done]. injection Hatt as <- <-.
    unfold console_log. cbn. by destruct (console_log_patched s). }
  destruct He1 as (Hm & H1 & H2 & H3 & H4 & H5 & H6 & H7 & H8 & Hs1 & Hs2 & Hs3).
  unfold mergeMetadata, slice_breadcrumbs, meta_get, userId_val. cbn.
  rewrite Hm, Hs1, Hs2, Hs3.
  repeat split; try done.
  all: try (repeat (rewrite lookup_insert_eq || rewrite lookup_insert_ne by done);
            done).
  intros k Hk. rewrite !not_elem_of_cons in Hk.
  destruct Hk as (? & ? & ? & ? & _). rewrite !lookup_insert_ne by done.
  by destruct (metadata errorData).
Qed.

Ltac not_in_list :=
  repeat (apply not_elem_of_cons; split; [done|]); apply not_elem_of_nil.

(** What [sendBatch] posts for an event that went through the
    enrichment steps: the exception type and the user id are read from
    the event's own metadata. *)
Lemma payloadItem_enriched errorData s s' :
  failsAfterTransform errorData s = None ->
  let e := (enriched errorData s).1 in
  exception_type (payloadItem s' e) = js_or (meta_get errorData "type") (VStr "error")
  /\ user_id (payloadItem s' e)
     = js_or (js_get (meta_get errorData "user") "id") (VStr "")
  /\ level (payloadItem s' e) = severity errorData
  /\ p_message (payloadItem s' e) = message errorData
  /\ stacktrace (payloadItem s' e) = default "" (stack errorData)
  /\ p_timestamp (payloadItem s' e) = timestamp errorData.
Proof.
  intros Hok e.
  destruct (enriched_fields errorData s Hok)
    as (_ & _ & _ & _ & Hk & H1 & H2 & _ & _ & _ & _ & H3 & H4).
  fold e in Hk, H1, H2, H3, H4.
  unfold payloadItem. cbn. rewrite H1, H2, H3, H4, !Hk by not_in_list. done.
Qed.

(** X6.  [captureError], [captureMessage] and [captureEvent] each hand
    [handleError] one event and drop its promise.  The event has the
    message, stack and severity of the call ([captureMessage] defaults
    to 'info', [captureEvent] prefixes 'Event: '), the URL and user
    agent of the page or 'nodejs' outside a browser, the current time,
    and the caller's metadata with [type] set to 'manual', 'message' or
    'event' (and [eventName]), which override a caller's key of that
    name.  Unless a later step throws, the payload item built from the
    event reports that type as [exception_type]. *)
Theorem capture_entry_points_tag_the_event (depth : nat) (s : Sys) :
  (forall error meta, exists e0,
      captureError depth error meta s = drop_promise (handleError depth e0 s)
      /\ message e0 = err_message error
      /\ stack e0 = err_stack error
      /\ severity e0 = SevError
      /\ url e0 = (if isBrowser s then location_href s else "nodejs")
      /\ userAgent e0 = (if isBrowser s then navigator_userAgent s else "nodejs")
      /\ timestamp e0 = now s
      /\ meta_get e0 "type" = VStr "manual"
      /\ (forall k, k <> "type" ->
            meta_get e0 k = default VUndefined (default ∅ meta !! k))
      /\ (failsAfterTransform e0 s = None ->
          forall s', exception_type (payloadItem s' (enriched e0 s).1)
                     = VStr "manual"))
  /\ (forall msg sev meta, exists e0,
      captureMessage depth msg sev meta s = drop_promise (handleError depth e0 s)
      /\ message e0 = msg
      /\ stack e0 = None
      /\ severity e0 = default SevInfo sev
      /\ url e0 = (if isBrowser s then location_href s else "nodejs")
      /\ userAgent e0 = (if isBrowser s then navigator_userAgent s else "nodejs")
      /\ timestamp e0 = now s
      /\ meta_get e0 "type" = VStr "message"
      /\ (forall k, k <> "type" ->
            meta_get e0 k = default VUndefined (default ∅ meta !! k))
      /\ (failsAfterTransform e0 s = None ->
          forall s', exception_type (payloadItem s' (enriched e0 s).1)
                     = VStr "message"))
  /\ (forall eventName data, exists e0,
      captureEvent depth eventName data s = drop_promise (handleError depth e0 s)
      /\ message e0 = String.append "Event: " eventName
      /\ stack e0 = None
      /\ severity e0 = SevInfo
      /\ url e0 = (if isBrowser s then location_href s else "nodejs")
      /\ userAgent e0 = (if isBrowser s then navigator_userAgent s else "nodejs")
      /\ timestamp e0 = now s
      /\ meta_get e0 "type" = VStr "event"
      /\ meta_get e0 "eventName" = VStr eventName
      /\ (forall k, k <> "type" -> k <> "eventName" ->
            meta_get e0 k = default VUndefined (default ∅ data !! k))
      /\ (failsAfterTransform e0 s = None ->
          forall s', exception_type (payloadItem s' (enriched e0 s).1)
                     = VStr "event")).
Proof.
  split; [|split].
  - intros error meta. eexists. split; [reflexivity|].
    repeat split.
    + unfold meta_get. cbn. by rewrite lookup_insert_eq.
    + intros k Hk. unfold meta_get. cbn. by rewrite lookup_insert_ne.
    + intros Hok s'. destruct (payloadItem_enriched _ s s' Hok) as (-> & _).
      unfold meta_get. cbn. by rewrite lookup_insert_eq.
  - intros msg sev meta. eexists. split; [reflexivity|].
    repeat split.
    + unfold meta_get. cbn. by rewrite lookup_insert_eq.
    + intros k Hk. unfold meta_get. cbn. by rewrite lookup_insert_ne.
    + intros Hok s'. destruct (payloadItem_enriched _ s s' Hok) as (-> & _).
      unfold meta_get. cbn. by rewrite lookup_insert_eq.
  - intros eventName data. eexists. split; [reflexivity|].
    repeat split.
    + unfold meta_get. cbn. by rewrite lookup_insert_ne, lookup_insert_eq.
    + unfold meta_get. cbn. by rewrite lookup_insert_eq.
    + intros k Hk Hk'. unfold meta_get. cbn. by rewrite !lookup_insert_ne.
    + intros Hok s'. destruct (payloadItem_enriched _ s s' Hok) as (-> & _).
      unfold meta_get. cbn. by rewrite lookup_insert_ne, lookup_insert_eq.
Qed.

Lemma addToBatch_hookCalls e s : hookCalls (addToBatch e s) = hookCalls s.
Proof.
  unfold addToBatch, flushBatch. cbn.
  destruct (_ <=? _); cbn.
  - destruct (batch s ++ [e]); [done|]. cbn. by destruct (batchTimer s).
  - by destruct (batchTimer s).
Qed.

Lemma enriched_hookCalls errorData s :
  failsAfterTransform errorData s = None ->
  hookCalls (enriched errorData s).2
  = hookCalls s ++ match analyticsHooks (config s) with
                   | Some hooks =>
                       match onErrorCaptured hooks with
                       | Some _ => [CalledErrorCaptured (enriched errorData s).1]
                       | None => []
                       end
                   | None => []
                   end.
Proof.
  unfold failsAfterTransform, enriched.
  destruct (attachRecording errorData s) as [[e1 s1]|err] eqn:Hatt; [|done].
  intros _.
  assert (Hs1 : hookCalls s1 = hookCalls s /\ config s1 = config s).
  { unfold attachRecording in Hatt.
    destruct (_ && _); [|by injection Hatt as <- <-].
    destruct (JSON_stringify_frames _); [|done]. injection Hatt as <- <-.
    unfold console_log. cbn. by destruct (console_log_patched s). }
  destruct Hs1 as [Hh Hc].
  unfold mergeMetadata, slice_breadcrumbs, callOnErrorCaptured. cbn.
  rewrite Hc, Hh.
  destruct (analyticsHooks (config s)) as [hooks|]; [|by rewrite app_nil_r].
  destruct (onErrorCaptured hooks); [done|by rewrite app_nil_r].
Qed.

(** ** [setUser] and [setContext] *)

(** The wrapper of [setUser] and [setContext]: it passes on a null
    result and a throw, and otherwise sets the one key. *)
Lemma with_metadata_key_spec k v f ev :
  (with_metadata_key k v f ev = Normal None <-> f ev = Normal None)
  /\ (forall err, with_metadata_key k v f ev = Throw err <-> f ev = Throw err)
  /\ (forall p, f ev = Normal (Some p) ->
        exists p', with_metadata_key k v f ev = Normal (Some p')
                   /\ meta_get (ev_data p') k = v
                   /\ (forall k', k' <> k ->
                         meta_get (ev_data p') k' = meta_get (ev_data p) k')
                   /\ set_metadata None (ev_data p') = set_metadata None (ev_data p)
                   /\ ev_type p' = ev_type p).
Proof.
  unfold with_metadata_key.
  destruct (f ev) as [[p|]|err].
  - split; [done|]. split; [done|].
    intros ? [= <-]. eexists. split; [reflexivity|]. cbn. unfold meta_get. cbn.
    split; [by rewrite lookup_insert_eq|]. split; [|done].
    intros k' Hk'. rewrite lookup_insert_ne by done. by destruct (metadata (ev_data p)).
  - done.
  - split; [done|]. split; [|done]. intros err'. split; by intros [= ->].
Qed.

(** X8.  After [setContext key value], [beforeSend] returns null or
    throws exactly when it did before; otherwise it returns the former
    result with the metadata key [key] set to [value] and nothing else
    changed.  A second [setContext] composes with the first: both keys
    are set, the later call winning on the same key.  An event the
    transform rejects is still discarded without effect, and nothing
    but [beforeSend] changes in the instance. *)
Theorem setContext_keeps_filter_and_adds_key
    (key : string) (value : JsVal) (s : Sys) (ev : ErrorEvent) :
  let s' := setContext key value s in
  (beforeSend (config s') ev = Normal None
   <-> beforeSend (config s) ev = Normal None)
  /\ (forall err, beforeSend (config s') ev = Throw err
                  <-> beforeSend (config s) ev = Throw err)
  /\ (forall p, beforeSend (config s) ev = Normal (Some p) ->
        exists p', beforeSend (config s') ev = Normal (Some p')
                   /\ meta_get (ev_data p') key = value
                   /\ (forall k, k <> key ->
                         meta_get (ev_data p') k = meta_get (ev_data p) k)
                   /\ set_metadata None (ev_data p') = set_metadata None (ev_data p)
                   /\ ev_type p' = ev_type p)
  /\ (forall key2 value2 p,
        beforeSend (config s) ev = Normal (Some p) ->
        exists p', beforeSend (config (setContext key2 value2 s')) ev
                   = Normal (Some p')
                   /\ meta_get (ev_data p') key2 = value2
                   /\ (key <> key2 -> meta_get (ev_data p') key = value))
  /\ (forall stack errorData,
        beforeSend (config s) (mkErrorEvent errorData (Some "error")) = Normal None ->
        handleError stack errorData s' = (s', Fulfilled))
  /\ set_config (set_beforeSend (beforeSend (config s)) (config s')) s' = s.
Proof.
  intros s'.
  destruct (with_metadata_key_spec key value (beforeSend (config s)) ev)
    as (Hnull & Hthrow & Hsome).
  split; [exact Hnull|]. split; [exact Hthrow|]. split; [exact Hsome|].
  split; [|split].
  - intros key2 value2 p Hp. destruct (Hsome p Hp) as (p1 & Hp1 & Hk & Hother & _).
    destruct (with_metadata_key_spec key2 value2 (beforeSend (config s')) ev)
      as (_ & _ & Hsome2).
    destruct (Hsome2 p1 Hp1) as (p2 & Hp2 & Hk2 & Hother2 & _).
    exists p2. split; [exact Hp2|]. split; [exact Hk2|].
    intros Hne. by rewrite Hother2.
  - intros stack errorData Hn. apply handleError_null_discards.
    by apply (with_metadata_key_spec key value (beforeSend (config s))).
  - subst s'. by destruct s as [[] ? ? ? ? ? ? ? ? ? ? ? ? ? ? ? ? ? ? ? ? ? ? ? ? ? ? ? ?].
Qed.

(** X9.  [setUser] records the id of the user as [userId] and wraps
    [beforeSend]: a null result stays null, any other result gets the
    metadata key [user] set to the user (its id, and its email and name
    when given) with the other keys unchanged.  Events captured
    afterwards carry the id as their [userId]; a later [setUser]
    replaces it; nothing but [userId] and [beforeSend] changes in the
    instance. *)
Theorem setUser_sets_userId_and_user_key (user : User) (s : Sys) (ev : ErrorEvent) :
  let s' := setUser user s in
  userId s' = Some (usr_id user)
  /\ (beforeSend (config s') ev = Normal None
      <-> beforeSend (config s) ev = Normal None)
  /\ (forall p, beforeSend (config s) ev = Normal (Some p) ->
        exists p', beforeSend (config s') ev = Normal (Some p')
                   /\ js_get (meta_get (ev_data p') "user") "id" = VStr (usr_id user)
                   /\ js_get (meta_get (ev_data p') "user") "email"
                      = match usr_email user with
                        | Some m => VStr m
                        | None => VUndefined
                        end
                   /\ js_get (meta_get (ev_data p') "user") "name"
                      = match usr_name user with
                        | Some n => VStr n
                        | None => VUndefined
                        end
                   /\ (forall k, k <> "user" ->
                         meta_get (ev_data p') k = meta_get (ev_data p) k))
  /\ (forall errorData,
        failsAfterTransform errorData s' = None ->
        meta_get (enriched errorData s').1 "userId" = VStr (usr_id user))
  /\ (forall user2, userId (setUser user2 s') = Some (usr_id user2))
  /\ set_userId (userId s)
       (set_config (set_beforeSend (beforeSend (config s)) (config s')) s') = s.
Proof.
  intros s'.
  destruct (with_metadata_key_spec "user" (user_val user) (beforeSend (config s)) ev)
    as (Hnull & Hthrow & Hsome).
  split; [done|]. split; [exact Hnull|]. split; [|split; [|split]].
  - intros p Hp. destruct (Hsome p Hp) as (p' & Hp' & Hk & Hother & _).
    exists p'. split; [exact Hp'|]. rewrite Hk. unfold user_val.
    destruct (usr_email user), (usr_name user); by repeat split.
  - intros errorData Hok.
    by destruct (enriched_fields errorData s' Hok) as (_ & -> & _).
  - done.
  - subst s'. by destruct s as [[] ? ? ? ? ? ? ? ? ? ? ? ? ? ? ? ? ? ? ? ? ? ? ? ? ? ? ? ?].
Qed.

(** ** The outcome of a delivery *)

(** X10.  [sendBatch] returns only for a response that is [ok] and whose
    body parses as JSON; a response that is not [ok] throws
    'Error: HTTP' with its status.  After a success [flushBatch]
    changes nothing.  An [ok] response whose body does not parse is a
    failure like any other: [flushBatch] (with [console.warn]
    unpatched) moves the whole batch to the queue, and a drain puts the
    events it took back in front of the queue and stops. *)
Theorem delivery_succeeds_only_on_ok_json_reply
    (stack : nat) (o : FetchOutcome) (s : Sys) :
  (sendBatch_settled o = Normal tt
   <-> exists status, o = HttpResponse true status true)
  /\ (forall status jsonOk,
        sendBatch_settled (HttpResponse false status jsonOk)
        = Throw (String.append "Error: HTTP " status))
  /\ (forall b, sendBatch_settled o = Normal tt ->
        flushBatch_settled stack b o s = (s, Fulfilled))
  /\ (forall b status,
        console_warn_patched s = false ->
        let r := flushBatch_settled stack b (HttpResponse true status false) s in
        errorQueue r.1 = errorQueue s ++ b /\ batch r.1 = batch s
        /\ inflight r.1 = inflight s /\ r.2 = Fulfilled)
  /\ (forall taken status,
        let s' := flushQueue_settled taken (HttpResponse true status false) s in
        errorQueue s' = taken ++ errorQueue s /\ isSendingQueue s' = false
        /\ inflight s' = inflight s).
Proof.
  split; [|split; [|split; [|split]]].
  - split.
    + destruct o as [err|[] status []]; try done. by exists status.
    + by intros [status ->].
  - done.
  - intros b Hok. unfold flushBatch_settled. by rewrite Hok.
  - intros b status Hunp r. subst r. unfold flushBatch_settled. cbn [sendBatch_settled].
    fold (queueErrors b s).
    destruct (queueErrors_frame b s) as (Hin & _ & _ & Hb & _).
    assert (Hp : console_warn_patched (queueErrors b s) = false).
    { by destruct (queueErrors_grows b s) as (_ & _ & -> & _). }
    unfold console_warn, console_capture. cbn. rewrite Hp. cbn.
    by rewrite queueErrors_errorQueue.
  - intros taken status s'. subst s'.
    rewrite flushQueue_settled_fail by done. rewrite saveQueue_eq. done.
Qed.

(** ** A transform that throws *)

(** X11.  When [beforeSend] throws, [handleError] puts the caller's
    event in the delivery queue, not in the batch, and reports the
    error with [console.warn]; its promise is fulfilled unless the
    patched [console.warn] finds no room on the call stack.  With
    [console.warn] unpatched the event is the only one added to the
    queue, the stored queue is rewritten, and the batch, the timers,
    the fetches and the hook calls are untouched. *)
Theorem handleError_transform_throws
    (stack : nat) (errorData : ErrorData) (s : Sys) (err : string) :
  beforeSend (config s) (mkErrorEvent errorData (Some "error")) = Throw err ->
  let s' := (handleError stack errorData s).1 in
  s' = (console_warn stack ["ErrorWatch: Failed to queue error for batch"; err]
          (queueError errorData s)).1
  /\ (exists more, errorQueue s' = errorQueue s ++ errorData :: more)
  /\ diagnostic err ∈ consoleCalls s'
  /\ (console_warn_patched s = false \/ 0 < stack ->
      (handleError stack errorData s).2 = Fulfilled)
  /\ (console_warn_patched s = false ->
      s' = log_call "warn"
             [VStr "ErrorWatch: Failed to queue error for batch"; VStr err]
             (queueError errorData s)
      /\ errorQueue s' = errorQueue s ++ [errorData]
      /\ localStorage s' = persisted (errorQueue s ++ [errorData]) s
      /\ batch s' = batch s /\ timers s' = timers s /\ inflight s' = inflight s
      /\ hookCalls s' = hookCalls s /\ heap s' = heap s).
Proof.
  intros Hbs s'.
  assert (Hs' : s' = (console_warn stack
                        ["ErrorWatch: Failed to queue error for batch"; err]
                        (queueError errorData s)).1).
  { subst s'. rewrite handleError_unfold, async_fst.
    unfold handleError_body, handleError_catch. by rewrite Hbs. }
  split; [exact Hs'|].
  pose proof (console_warn_grows stack
                ["ErrorWatch: Failed to queue error for batch"; err]
                (queueError errorData s)) as Hg.
  rewrite <- Hs' in Hg.
  set (s1 := log_call "warn"
               (VStr <$> ["ErrorWatch: Failed to queue error for batch"; err])
               (queueError errorData s)).
  assert (Hcalls : exists c, consoleCalls s' = consoleCalls s1 ++ c).
  { rewrite Hs'. unfold console_warn, console_capture. fold s1.
    destruct (console_warn_patched s1); [|exists []; by rewrite app_nil_r].
    destruct (nested stack) as [h|] eqn:Hn; [|exists []; by rewrite app_nil_r].
    cbn. destruct stack as [|k]; [done|]. injection Hn as <-.
    by destruct (handleError_grows k (consoleEvent SevWarning "console.warn"
         ["ErrorWatch: Failed to queue error for batch"; err] s1) s1)
      as (_ & Hc & _). }
  split; [|split; [|split]].
  - destruct Hg as ([more Hmore] & _). exists more.
    rewrite Hmore, queueError_eq. cbn. by rewrite <- app_assoc.
  - destruct Hcalls as [c ->]. subst s1. cbn.
    unfold diagnostic. set_solver.
  - apply handleError_fulfilled.
  - intros Hunp.
    assert (Hs1 : s' = s1).
    { rewrite Hs'. unfold console_warn, console_capture. fold s1.
      replace (console_warn_patched s1) with false; [done|].
      subst s1. rewrite queueError_eq. cbn. by rewrite Hunp. }
    split; [exact Hs1|]. rewrite Hs1. subst s1. rewrite queueError_eq. cbn.
    by repeat split.
Qed.

Lemma handleError_transform_throws_witness :
  message <$>
    errorQueue
      (handleError 1 (sampleEvent "m")
         (set_config
            (set_beforeSend (fun _ => Throw "TypeError: x is undefined")
               (config (newInstance sampleConfig nodeHost)))
            (newInstance sampleConfig nodeHost))).1
  = ["m"].
Proof.
  destruct (handleError_transform_throws 1 (sampleEvent "m")
              (set_config
                 (set_beforeSend (fun _ => Throw "TypeError: x is undefined")
                    (config (newInstance sampleConfig nodeHost)))
                 (newInstance sampleConfig nodeHost))
              "TypeError: x is undefined")
    as (_ & _ & _ & _ & H); [reflexivity|].
  destruct H as (_ & -> & _); reflexivity.
Defined.

(** ** What every run keeps *)

Lemma delivery_frame_refl s : delivery_frame s s.
Proof. by repeat split. Qed.

Lemma delivery_frame_trans s1 s2 s3 :
  delivery_frame s1 s2 -> delivery_frame s2 s3 -> delivery_frame s1 s3.
Proof.
  intros (A1 & A2 & A3 & A4 & A5 & A6 & A7) (B1 & B2 & B3 & B4 & B5 & B6 & B7).
  repeat split; try congruence. lia.
Qed.

Lemma delivery_frame_of s s' :
  same_delivery s s' -> isSendingQueue s' = isSendingQueue s -> delivery_frame s s'.
Proof.
  intros (_ & Hb & Hi & Ht & Hbt & _ & _ & Hn & Hid) Hf.
  repeat split; try done. lia.
Qed.

Lemma batch_ok_frame s s' : delivery_frame s s' -> batch_ok s -> batch_ok s'.
Proof.
  intros (Hb & Hbt & Ht & Hn & _) H. unfold batch_ok in *.
  by rewrite Hb, Hbt, Ht, Hn.
Qed.

Lemma drain_ok_same s s' :
  inflight s' = inflight s -> nextId s <= nextId s' ->
  isSendingQueue s' = isSendingQueue s -> drain_ok s -> drain_ok s'.
Proof.
  intros Hi Hid Hf (Hnd & Hfresh & Hd).
  unfold drain_ok, ids_fresh, drains in *. rewrite Hi, Hf.
  repeat split; try done. eapply Forall_impl; [exact Hfresh|]. cbn. lia.
Qed.

Lemma drain_ok_frame s s' : delivery_frame s s' -> drain_ok s -> drain_ok s'.
Proof. intros (_ & _ & _ & _ & Hi & Hid & Hf). by apply drain_ok_same. Qed.

Lemma queueError_delivery_frame e s : delivery_frame s (queueError e s).
Proof. rewrite queueError_eq. by repeat split. Qed.

Lemma queueErrors_delivery_frame es s : delivery_frame s (queueErrors es s).
Proof.
  destruct (queueErrors_frame es s) as (Hi & Hn & Hf & Hb & Hbt & _).
  destruct es as [|e es]; [apply delivery_frame_refl|].
  rewrite queueErrors_eq by done. by repeat split.
Qed.

Lemma log_call_delivery_frame lvl args s : delivery_frame s (log_call lvl args s).
Proof. by repeat split. Qed.

Lemma console_log_delivery_frame args s : delivery_frame s (console_log args s).
Proof.
  unfold console_log. cbn. destruct (console_log_patched s); by repeat split.
Qed.

Lemma attachRecording_delivery_frame e s e1 s1 :
  attachRecording e s = Normal (e1, s1) -> delivery_frame s s1.
Proof.
  intros H. apply delivery_frame_of.
  - by eapply attachRecording_same_delivery.
  - by destruct (attachRecording_grows _ _ _ _ H) as (_ & _ & _ & -> & _).
Qed.

Lemma mergeMetadata_delivery_frame e s : delivery_frame s (mergeMetadata e s).2.
Proof. by repeat split. Qed.

Lemma callOnErrorCaptured_delivery_frame e s :
  delivery_frame s (callOnErrorCaptured e s).1.
Proof.
  apply delivery_frame_of; [apply callOnErrorCaptured_same_delivery|].
  by destruct (callOnErrorCaptured_grows e s) as (_ & _ & _ & -> & _).
Qed.

(** A request issued with the next handle. *)
Lemma sendBatch_drain_ok k errors s :
  NoDup (fst <$> inflight s) -> ids_fresh s ->
  NoDup (fst <$> inflight (sendBatch k errors s))
  /\ ids_fresh (sendBatch k errors s)
  /\ drains (sendBatch k errors s)
     = drains s ++
       (if is_drain k
        then [(nextId s,
               mkRequest (baseUrl (config s))
                 (String.append "Bearer " (apiKey (config s)))
                 (projectId (config s)) (payloadItem s <$> errors) (now s) k)]
        else []).
Proof.
  intros Hnd Hfresh. unfold sendBatch, ids_fresh, drains in *. cbn.
  split; [|split].
  - rewrite fmap_app. cbn. apply NoDup_app. split; [done|]. split.
    + intros x Hx Hin. apply list_elem_of_singleton in Hin as ->.
      apply list_elem_of_fmap in Hx as [r [Hr Hin]].
      rewrite Forall_forall in Hfresh. specialize (Hfresh _ Hin). lia.
    + apply NoDup_singleton.
  - apply Forall_app. split.
    + eapply Forall_impl; [exact Hfresh|]. cbn. lia.
    + apply Forall_singleton. cbn. lia.
  - rewrite filter_app. f_equal.
    destruct (is_drain k) eqn:Hk.
    + by rewrite filter_cons_True, filter_nil by done.
    + by rewrite filter_cons_False, filter_nil by (cbn; congruence).
Qed.

Lemma flushBatch_nil s : batch s = [] -> flushBatch s = s.
Proof. intros H. unfold flushBatch. by rewrite H. Qed.

(** A flush of a non-empty batch, whatever its size. *)
Lemma flushBatch_cons_wf s :
  batch s <> [] ->
  match batchTimer s with
  | Some id => filter (fun t : nat * Z => t.1 <> id) (timers s) = []
  | None => timers s = []
  end ->
  drain_ok s ->
  batch_ok (flushBatch s) /\ drain_ok (flushBatch s).
Proof.
  intros Hne Htimer (Hnd & Hfresh & Hd). unfold flushBatch.
  destruct (batch s) as [|e b] eqn:Hbatch; [done|].
  set (s2 := match batchTimer (set_batch [] s) with
             | Some id => set_batchTimer None (clearTimeout id (set_batch [] s))
             | None => set_batch [] s
             end).
  assert (H2 : batch s2 = [] /\ batchTimer s2 = None /\ timers s2 = []
               /\ inflight s2 = inflight s /\ nextId s2 = nextId s
               /\ isSendingQueue s2 = isSendingQueue s).
  { subst s2. cbn. destruct (batchTimer s) as [id|] eqn:Hbt; cbn.
    - by rewrite Htimer.
    - by rewrite Htimer. }
  clearbody s2. destruct H2 as (H1 & H2 & H3 & H4 & H5 & H6).
  destruct (sendBatch_drain_ok (KFlushBatch (e :: b)) (e :: b) s2)
    as (Hnd' & Hfresh' & Hd').
  { by rewrite H4. }
  { unfold ids_fresh. by rewrite H4, H5. }
  split.
  - unfold batch_ok, sendBatch. cbn. rewrite H1, H2, H3. cbn.
    unfold BATCH_SIZE. split; [lia|done].
  - split; [done|]. split; [done|]. rewrite Hd'. cbn. rewrite app_nil_r.
    unfold drains. by rewrite H4, H6.
Qed.

Lemma batch_ok_timer s :
  batch_ok s ->
  match batchTimer s with
  | Some id => filter (fun t : nat * Z => t.1 <> id) (timers s) = []
  | None => timers s = []
  end.
Proof.
  intros [_ H]. destruct (batchTimer s).
  - destruct H as (_ & due & Ht & _). rewrite Ht. apply filter_timer_single.
  - by destruct H.
Qed.

Lemma flushBatch_wf s :
  batch_ok s -> drain_ok s -> batch_ok (flushBatch s) /\ drain_ok (flushBatch s).
Proof.
  intros Hb Hd. destruct (batch s) as [|e b] eqn:Hbatch.
  - by rewrite flushBatch_nil.
  - apply flushBatch_cons_wf; [by rewrite Hbatch|by apply batch_ok_timer|done].
Qed.

Lemma addToBatch_wf e s :
  batch_ok s -> drain_ok s ->
  batch_ok (addToBatch e s) /\ drain_ok (addToBatch e s).
Proof.
  intros Hb Hd. unfold addToBatch. cbn [batch set_batch].
  destruct (Nat.leb_spec BATCH_SIZE (length (batch s ++ [e]))) as [Hge|Hlt].
  - apply flushBatch_cons_wf.
    + cbn. by destruct (batch s).
    + exact (batch_ok_timer s Hb).
    + by apply (drain_ok_same s).
  - destruct Hb as [Hlen Hb]. cbn [batchTimer set_batch].
    destruct (batchTimer s) as [id|] eqn:Hbt.
    + split; [|by apply (drain_ok_same s)].
      unfold batch_ok. cbn. rewrite Hbt. split; [done|].
      destruct Hb as (_ & due & Ht & Hdue). split; [by destruct (batch s)|].
      by exists due.
    + destruct Hb as [Hnil Ht]. cbn. split.
      * unfold batch_ok. cbn. split; [done|]. split; [by destruct (batch s)|].
        exists (now s + BATCH_INTERVAL)%Z. rewrite Ht. split; [done|].
        unfold BATCH_INTERVAL. lia.
      * apply (drain_ok_same s); try done. cbn. lia.
Qed.

Lemma delivery_ok_frame s s' : delivery_frame s s' -> delivery_ok s -> delivery_ok s'.
Proof.
  intros Hf [Hb Hd]. split; [by apply (batch_ok_frame s)|by apply (drain_ok_frame s)].
Qed.

Lemma console_capture_ok patched lvl sev ty capture args s :
  (forall e s0 h, capture = Some h -> delivery_ok s0 -> delivery_ok (h e s0).1) ->
  delivery_ok s ->
  delivery_ok (console_capture patched lvl sev ty capture args s).1.
Proof.
  intros Hcap Hok. unfold console_capture.
  assert (H1 : delivery_ok (log_call lvl (VStr <$> args) s)).
  { by apply (delivery_ok_frame s); [apply log_call_delivery_frame|]. }
  destruct (patched _); [|done].
  destruct capture as [h|]; [|done]. cbn. by eapply Hcap.
Qed.

Lemma handleError_body_ok warn e s :
  (forall args s0, delivery_ok s0 -> delivery_ok (warn args s0).1) ->
  delivery_ok s ->
  delivery_ok (handleError_body warn e s).1.
Proof.
  intros Hwarn Hok. unfold handleError_body, handleError_catch.
  assert (Hq : forall e0 s0, delivery_ok s0 -> delivery_ok (queueError e0 s0)).
  { intros e0 s0. apply delivery_ok_frame, queueError_delivery_frame. }
  destruct (beforeSend _ _) as [[p|]|err]; [|done|by apply Hwarn, Hq].
  destruct (attachRecording e s) as [[e1 s1]|err] eqn:Hatt; [|by apply Hwarn, Hq].
  apply attachRecording_delivery_frame in Hatt.
  pose proof (mergeMetadata_delivery_frame e1 s1) as Hm.
  destruct (mergeMetadata e1 s1) as [e2 s2]. cbn [snd] in Hm.
  pose proof (callOnErrorCaptured_delivery_frame e2 s2) as Hc.
  assert (H3 : delivery_ok (callOnErrorCaptured e2 s2).1).
  { eapply delivery_ok_frame; [exact Hc|].
    eapply delivery_ok_frame; [exact Hm|].
    by eapply delivery_ok_frame; [exact Hatt|]. }
  destruct (callOnErrorCaptured e2 s2) as [s3 [[]|err]]; cbn [fst] in *.
  - destruct H3. by apply addToBatch_wf.
  - by apply Hwarn, Hq.
Qed.

Lemma handleError_ok stack : forall e s,
  delivery_ok s -> delivery_ok (handleError stack e s).1.
Proof.
  induction stack as [|k IH]; intros e s Hok; rewrite handleError_unfold, async_fst;
    apply handleError_body_ok; try done; intros args s0 Hok0;
    apply console_capture_ok; try done.
  intros e0 s1 h [= <-]. apply IH.
Qed.

Lemma console_warn_ok stack args s :
  delivery_ok s -> delivery_ok (console_warn stack args s).1.
Proof.
  intros Hok. apply console_capture_ok; [|done].
  intros e s0 h Hh. destruct stack as [|k]; [done|].
  injection Hh as <-. apply handleError_ok.
Qed.

Lemma console_error_ok stack args s :
  delivery_ok s -> delivery_ok (console_error stack args s).1.
Proof.
  intros Hok. apply console_capture_ok; [|done].
  intros e s0 h Hh. destruct stack as [|k]; [done|].
  injection Hh as <-. apply handleError_ok.
Qed.

Lemma batch_ok_same s s' :
  batch s' = batch s -> batchTimer s' = batchTimer s -> timers s' = timers s ->
  now s' = now s -> batch_ok s -> batch_ok s'.
Proof. intros Hb Hbt Ht Hn H. unfold batch_ok in *. by rewrite Hb, Hbt, Ht, Hn. Qed.

Lemma NoDup_fst_filter {A B} (P : A * B -> Prop) `{!forall x, Decision (P x)}
    (l : list (A * B)) :
  NoDup (fst <$> l) -> NoDup (fst <$> filter P l).
Proof.
  induction l as [|r l IH]; [done|]. cbn [fmap list_fmap].
  intros Hnd. apply NoDup_cons in Hnd as [Hr Hnd].
  destruct (decide (P r)).
  - rewrite filter_cons_True by done. cbn [fmap list_fmap]. apply NoDup_cons.
    split; [|by apply IH]. intros Hin. apply Hr.
    apply list_elem_of_fmap in Hin as [x [-> Hx]].
    apply list_elem_of_filter in Hx as [_ Hx]. apply list_elem_of_fmap. by exists x.
  - rewrite filter_cons_False by done. by apply IH.
Qed.

(** Taking the fetch [id] out of the fetches in flight. *)
Lemma drains_remove (l : list (nat * Request)) id req :
  NoDup (fst <$> l) -> (id, req) ∈ l ->
  length (filter (fun r : nat * Request => is_drain (req_kont r.2) = true)
            (filter (fun r : nat * Request => r.1 <> id) l))
  + (if is_drain (req_kont req) then 1 else 0)
  = length (filter (fun r : nat * Request => is_drain (req_kont r.2) = true) l).
Proof.
  induction l as [|r l IH]; intros Hnd Hin; [by apply elem_of_nil in Hin|].
  cbn [fmap list_fmap] in Hnd. apply NoDup_cons in Hnd as [Hr Hnd].
  apply elem_of_cons in Hin as [<-|Hin].
  - rewrite (filter_cons_False (fun r : nat * Request => r.1 <> id)) by (cbn; tauto).
    rewrite (filter_keep_all (fun r : nat * Request => r.1 <> id) l).
    + destruct (is_drain (req_kont req)) eqn:Hd.
      * rewrite (filter_cons_True _ (id, req)) by done. cbn. lia.
      * rewrite (filter_cons_False _ (id, req)) by (cbn; congruence). lia.
    + apply Forall_forall. intros x Hx Heq. apply Hr.
      apply list_elem_of_fmap. exists x. by split.
  - assert (Hne : r.1 <> id).
    { intros Heq. apply Hr. apply list_elem_of_fmap. exists (id, req). by split. }
    rewrite (filter_cons_True (fun r : nat * Request => r.1 <> id)) by done.
    specialize (IH Hnd Hin).
    destruct (decide (is_drain (req_kont r.2) = true)).
    + rewrite !(filter_cons_True (fun r : nat * Request => is_drain (req_kont r.2) = true))
        by done. cbn [length]. lia.
    + by rewrite !(filter_cons_False (fun r : nat * Request => is_drain (req_kont r.2) = true))
        by done.
Qed.

Lemma queueErrors_ok es s : delivery_ok s -> delivery_ok (queueErrors es s).
Proof. apply delivery_ok_frame, queueErrors_delivery_frame. Qed.

Lemma saveQueue_delivery_frame q s : delivery_frame s (saveQueue q s).
Proof. rewrite saveQueue_eq. by repeat split. Qed.

(** The head of the drain loop, entered with the flag set and no drain
    fetch in flight. *)
Lemma flushQueue_loop_ok s :
  batch_ok s -> NoDup (fst <$> inflight s) -> ids_fresh s -> drains s = [] ->
  isSendingQueue s = true ->
  delivery_ok (flushQueue_loop s).
Proof.
  intros Hb Hnd Hfresh Hd Hflag. unfold flushQueue_loop.
  destruct (errorQueue s) as [|e q] eqn:Hq.
  - split; [by apply (batch_ok_same s)|]. unfold drain_ok, drains in *. cbn.
    by rewrite Hd.
  - set (s1 := set_errorQueue _ s).
    destruct (sendBatch_drain_ok (KFlushQueue (take BATCH_SIZE (e :: q)))
                (take BATCH_SIZE (e :: q)) s1) as (Hnd' & Hfresh' & Hd'); [done..|].
    split.
    + by apply (batch_ok_same s).
    + split; [done|]. split; [done|]. rewrite Hd'. cbn [is_drain].
      replace (drains s1) with (drains s) by done. rewrite Hd. cbn.
      by rewrite Hflag.
Qed.

Lemma flushQueue_ok s : delivery_ok s -> delivery_ok (flushQueue s).
Proof.
  intros Hok. pose proof Hok as [Hb (Hnd & Hfresh & Hd)]. unfold flushQueue.
  destruct (isSendingQueue s) eqn:Hflag; [done|].
  apply flushQueue_loop_ok; try done.
  unfold drains in *. cbn. by destruct (filter _ (inflight s)).
Qed.

Lemma settle_ok stack id o s : delivery_ok s -> delivery_ok (settle stack id o s).
Proof.
  intros [Hb (Hnd & Hfresh & Hd)]. unfold settle.
  destruct (list_find _ _) as [[i [id' req]]|] eqn:Hfind; [|done].
  apply list_find_Some in Hfind as (Hi & Hid & _). cbn in Hid. subst id'.
  apply list_elem_of_lookup_2 in Hi.
  set (s1 := set_inflight _ s).
  assert (Hb1 : batch_ok s1) by done.
  assert (Hnd1 : NoDup (fst <$> inflight s1)) by (by apply NoDup_fst_filter).
  assert (Hfresh1 : ids_fresh s1).
  { unfold ids_fresh in *. cbn. rewrite Forall_forall in Hfresh |- *.
    intros x Hx. apply list_elem_of_filter in Hx as [_ Hx]. by apply Hfresh. }
  pose proof (drains_remove (inflight s) id req Hnd Hi) as Hcount.
  fold (drains s) in Hcount. change (filter _ (filter _ (inflight s))) with (drains s1) in Hcount.
  destruct (req_kont req) as [b|taken] eqn:Hk; cbn [is_drain] in Hcount.
  - assert (Hok1 : delivery_ok s1).
    { split; [done|]. split; [done|]. split; [done|].
      replace (isSendingQueue s1) with (isSendingQueue s) by done. lia. }
    unfold flushBatch_settled.
    destruct (sendBatch_settled o) as [[]|err]; [done|]. rewrite async_fst.
    apply console_warn_ok. by apply queueErrors_ok.
  - assert (Hflag : isSendingQueue s = true).
    { destruct (isSendingQueue s); [done|lia]. }
    rewrite Hflag in Hd.
    assert (Hd1 : drains s1 = []).
    { destruct (drains s1); [done|cbn in Hcount; lia]. }
    unfold flushQueue_settled.
    destruct (sendBatch_settled o) as [[]|err].
    + rewrite saveQueue_eq. by apply flushQueue_loop_ok.
    + rewrite saveQueue_eq. split; [done|]. split; [done|]. split; [done|].
      unfold drains in *. cbn in *. by rewrite Hd1.
Qed.

Lemma addBreadcrumb_delivery_frame b s : delivery_frame s (addBreadcrumb b s).
Proof. by repeat split. Qed.

Lemma runHandler_ok stack h ev s :
  delivery_ok s -> delivery_ok (runHandler stack h ev s).
Proof.
  intros Hok. destruct h, ev; cbn [runHandler]; try done;
    try (by apply flushQueue_ok); try (by apply handleError_ok);
    try (by apply (delivery_ok_frame s), addBreadcrumb_delivery_frame).
  destruct (analyticsHooks (config s)) as [hooks|]; [|done].
  destruct (onSessionEnd hooks); [|done].
  by apply (delivery_ok_frame s).
Qed.

Lemma dispatchEvent_ok stack ev s :
  delivery_ok s -> delivery_ok (dispatchEvent stack ev s).
Proof.
  unfold dispatchEvent. generalize (listeners s). intros ls. revert s.
  induction ls as [|l ls IH]; intros s Hok; [done|]. cbn [foldl].
  apply IH. destruct (String.eqb _ _); [|done]. by apply runHandler_ok.
Qed.

Lemma elapse_ok dt s : delivery_ok s -> delivery_ok (elapse dt s).
Proof.
  intros [[Hlen Hb] Hd]. unfold elapse.
  destruct (batchTimer s) as [id|] eqn:Hbt.
  - destruct Hb as (Hne & due & Ht & Hdue). rewrite Ht. cbn [foldl fst snd].
    destruct (Z.leb_spec due (now s + Z.max 0 dt)) as [Hfire|Hnot].
    + unfold fireTimer. rewrite Ht. cbn [existsb fst]. rewrite Nat.eqb_refl.
      cbn [orb]. rewrite filter_timer_single.
      set (s1 := set_now _ (set_timers [] s)).
      destruct (flushBatch_cons_wf s1) as [Hb1 Hd1].
      * done.
      * subst s1. cbn. by rewrite Hbt.
      * by apply (drain_ok_same s).
      * split; [|by apply (drain_ok_same (flushBatch s1))].
        destruct Hb1 as [Hl1 Hb1]. unfold batch_ok. cbn.
        assert (Hbt1 : batchTimer (flushBatch s1) = None).
        { destruct (flushBatch_cons s1) as (_ & H & _); done. }
        rewrite Hbt1 in Hb1 |- *. done.
    + split; [|by apply (drain_ok_same s)].
      unfold batch_ok. cbn. rewrite Hbt, Ht. split; [done|]. split; [done|].
      exists due. split; [done|]. lia.
  - destruct Hb as [Hnil Ht]. rewrite Ht. cbn [foldl].
    split.
    + unfold batch_ok. cbn. by rewrite Hbt.
    + by apply (drain_ok_same s).
Qed.

Lemma destroy_ok s : delivery_ok s -> delivery_ok (destroy s).
Proof.
  intros [Hb Hd]. unfold destroy.
  set (s1 := match stopRecording s with
             | Some h => rrweb_stop h s
             | None => s
             end).
  assert (H1 : delivery_frame s s1).
  { subst s1. destruct (stopRecording s); by repeat split. }
  set (s2 := set_recordingEvents [] (set_isRecording false s1)).
  assert (H2 : delivery_frame s s2).
  { eapply delivery_frame_trans; [exact H1|]. by repeat split. }
  clearbody s2. clear s1 H1.
  pose proof (batch_ok_frame _ _ H2 Hb) as Hb2.
  pose proof (drain_ok_frame _ _ H2 Hd) as Hd2.
  destruct Hb2 as [Hlen Hb2].
  destruct (batchTimer s2) as [id|] eqn:Hbt.
  - destruct Hb2 as (Hne & due & Ht & _). cbn match.
    apply flushBatch_cons_wf.
    + done.
    + cbn. by rewrite Ht, filter_timer_single.
    + by apply (drain_ok_same s2).
  - destruct Hb2 as [Hnil Ht]. cbn match. rewrite flushBatch_nil by done.
    split; [|done]. split; [exact Hlen|]. by rewrite Hbt.
Qed.

Lemma startScreenRecording_delivery_frame s :
  delivery_frame s (startScreenRecording s).
Proof.
  unfold startScreenRecording.
  destruct (negb (isBrowser s) || isRecording s); [apply delivery_frame_refl|].
  repeat split; try done. cbn. lia.
Qed.

Lemma restartRecording_delivery_frame s : delivery_frame s (restartRecording s).
Proof.
  unfold restartRecording.
  eapply delivery_frame_trans; [|apply startScreenRecording_delivery_frame].
  destruct (stopRecording s); by repeat split.
Qed.

Lemma emit_delivery_frame event s : delivery_frame s (emit event s).
Proof.
  unfold emit.
  set (s1 := set_recordingEvents (recordingEvents s ++ [event]) s).
  assert (H1 : delivery_frame s s1) by (by repeat split).
  clearbody s1.
  destruct (recordingEvents s1) as [|first rest]; [done|].
  destruct (_ <? _)%Z; [|done].
  eapply delivery_frame_trans; [exact H1|apply restartRecording_delivery_frame].
Qed.

Lemma init_ok s : delivery_ok s -> delivery_ok (init s).
Proof.
  intros Hok. unfold init. apply flushQueue_ok.
  assert (H1 : delivery_ok (setupErrorHandlers s)).
  { eapply delivery_ok_frame; [|exact Hok]. unfold setupErrorHandlers.
    destruct (negb (isBrowser s)); by repeat split. }
  set (s1 := setupErrorHandlers s) in *. clearbody s1.
  assert (H2 : delivery_ok (if enableScreenRecording (config s1) && isBrowser s1
                            then startScreenRecording s1 else s1)).
  { destruct (_ && _); [|done].
    eapply delivery_ok_frame; [apply startScreenRecording_delivery_frame|done]. }
  set (s2 := if enableScreenRecording (config s1) && isBrowser s1
             then startScreenRecording s1 else s1) in *. clearbody s2.
  assert (H3 : delivery_ok (if captureConsole (config s2)
                            then setupConsoleCapture s2 else s2)).
  { destruct (captureConsole (config s2)); [|done].
    eapply delivery_ok_frame; [|exact H2]. unfold setupConsoleCapture.
    destruct (negb (isBrowser s2)); by repeat split. }
  set (s3 := if captureConsole (config s2) then setupConsoleCapture s2 else s2) in *.
  clearbody s3.
  eapply delivery_ok_frame; [|exact H3]. unfold setupBreadcrumbs.
  destruct (negb (isBrowser s3)); by repeat split.
Qed.

Lemma newInstance_ok c h : delivery_ok (newInstance c h).
Proof.
  assert (Hblank : forall cfg, delivery_ok (blank cfg h)).
  { intros cfg. split; [split; [cbn; unfold BATCH_SIZE; lia|done]|].
    split; [constructor|]. split; [constructor|done]. }
  unfold newInstance.
  destruct (constructor c h) as [s|err] eqn:Hc; [|apply Hblank].
  apply constructor_inv in Hc. subst s. apply init_ok.
  eapply delivery_ok_frame; [|apply (Hblank (defaultConfig c))].
  destruct (host_isBrowser h); by repeat split.
Qed.

Lemma step_ok stack s op : delivery_ok s -> delivery_ok (step stack s op).
Proof.
  intros Hok. destruct op; cbn [step].
  - by apply handleError_ok.
  - by apply handleError_ok.
  - by apply handleError_ok.
  - by apply (delivery_ok_frame s).
  - by apply (delivery_ok_frame s).
  - by apply destroy_ok.
  - by apply dispatchEvent_ok.
  - by apply console_error_ok.
  - by apply console_warn_ok.
  - eapply delivery_ok_frame; [apply console_log_delivery_frame|done].
  - destruct (recorders s); [done|].
    eapply delivery_ok_frame; [apply emit_delivery_frame|done].
  - by apply elapse_ok.
  - by apply settle_ok.
Qed.

Lemma run_ok stack ops : forall s, delivery_ok s -> delivery_ok (run stack ops s).
Proof.
  induction ops as [|op ops IH]; intros s Hok; [done|].
  unfold run in *. cbn [foldl]. by apply IH, step_ok.
Qed.

(** Once [BATCH_INTERVAL] has passed, the batch that was pending has
    been flushed. *)
Lemma elapse_empties_batch s :
  batch_ok s ->
  batch (elapse BATCH_INTERVAL s) = [] /\ timers (elapse BATCH_INTERVAL s) = []
  /\ flushes (elapse BATCH_INTERVAL s)
     = flushes s ++ match batch s with
                    | [] => []
                    | _ :: _ => [(default (now s) (snd <$> head (timers s)), batch s)]
                    end.
Proof.
  intros [Hlen Hb]. unfold elapse.
  destruct (batchTimer s) as [id|] eqn:Hbt.
  - destruct Hb as (Hne & due & Ht & Hdue). rewrite Ht. cbn [foldl fst snd].
    replace (due <=? now s + Z.max 0 BATCH_INTERVAL)%Z with true
      by (symmetry; apply Z.leb_le; unfold BATCH_INTERVAL in *; lia).
    unfold fireTimer. rewrite Ht. cbn [existsb fst]. rewrite Nat.eqb_refl.
    cbn [orb]. rewrite filter_timer_single.
    set (s1 := set_now _ (set_timers [] s)).
    destruct (flushBatch_cons s1) as (H1 & _ & H3 & _); [done|].
    assert (Ht1 : timers (flushBatch s1) = []).
    { unfold flushBatch. subst s1. cbn. destruct (batch s); [done|]. cbn.
      by rewrite Hbt. }
    split; [done|]. split; [done|].
    change (flushes (set_now ?t ?x)) with (flushes x).
    unfold flushes at 1. rewrite H3, omap_app. cbn.
    replace (Z.max (now s) due) with due by lia.
    destruct (batch s); [done|]. done.
  - destruct Hb as [Hnil Ht]. rewrite Ht, Hnil. cbn. by rewrite app_nil_r.
Qed.


(** X13.  In every state an instance reaches, the fetches in flight
    have distinct handles, at most one of them belongs to a drain of
    the queue, and [isSendingQueue] is set exactly while that one is
    awaited. *)
Theorem at_most_one_drain_in_flight
    (stack : nat) (c : ErrorWatchConfig) (h : Host) (ops : list Op) :
  let s := run stack ops (newInstance c h) in
  NoDup (fst <$> inflight s)
  /\ Forall (fun r : nat * Request => r.1 < nextId s) (inflight s)
  /\ length (drains s) <= 1
  /\ (isSendingQueue s = true <-> drains s <> []).
Proof.
  intros s.
  destruct (run_ok stack ops (newInstance c h) (newInstance_ok c h))
    as [_ (Hnd & Hfresh & Hd)].
  fold s in Hnd, Hfresh, Hd. clearbody s.
  split; [exact Hnd|]. split; [exact Hfresh|].
  destruct (isSendingQueue s).
  - split; [lia|]. split; [|done]. intros _ Hnil. by rewrite Hnil in Hd.
  - split; [lia|]. split; [done|]. intros Hne. by destruct (drains s).
Qed.

(** ** What starts a drain of the queue *)

Lemma fireTimer_grows id due s : grows s (fireTimer id due s).
Proof.
  unfold fireTimer. destruct (existsb _ _); [|apply grows_refl].
  eapply grows_trans; [|apply flushBatch_grows]. by apply grows_same.
Qed.

Lemma fireTimers_grows (target : Z) (ts : list (nat * Z)) : forall s,
  grows s (foldl (fun acc (t : nat * Z) =>
                    if (t.2 <=? target)%Z then fireTimer t.1 t.2 acc else acc)
                 s ts).
Proof.
  induction ts as [|t ts IH]; intros s; [apply grows_refl|]. cbn [foldl].
  eapply grows_trans; [|apply IH].
  destruct (_ <=? _)%Z; [apply fireTimer_grows|apply grows_refl].
Qed.

Lemma elapse_grows dt s : grows s (elapse dt s).
Proof.
  unfold elapse. eapply grows_trans; [apply fireTimers_grows|].
  by apply grows_same.
Qed.

Lemma destroy_grows s : grows s (destroy s).
Proof.
  unfold destroy. eapply grows_trans; [|apply flushBatch_grows].
  destruct (stopRecording s); cbn; destruct (batchTimer s); cbn;
    by apply grows_same.
Qed.

Lemma delivery_frame_grows s s' :
  delivery_frame s s' -> errorQueue s' = errorQueue s ->
  consoleCalls s' = consoleCalls s ->
  console_warn_patched s' = console_warn_patched s -> grows s s'.
Proof. intros (_ & _ & _ & _ & Hi & Hn & Hf) Hq Hc Hp. by apply grows_same. Qed.

Lemma emit_grows event s : grows s (emit event s).
Proof.
  apply delivery_frame_grows; [apply emit_delivery_frame|..].
  all: unfold emit, restartRecording, startScreenRecording; cbn.
  all: destruct (recordingEvents s ++ [event]); [done|].
  all: destruct (_ <? _)%Z; [|done].
  all: destruct (stopRecording s); cbn;
         by destruct (negb (isBrowser s) || isRecording s).
Qed.

Lemma runHandler_grows stack h ev s :
  ev <> EvOnline -> grows s (runHandler stack h ev s).
Proof.
  intros Hev. destruct h, ev; cbn [runHandler]; try done; try apply grows_refl;
    try apply handleError_grows; try (by apply grows_same).
  destruct (analyticsHooks (config s)) as [hooks|]; [|apply grows_refl].
  destruct (onSessionEnd hooks); [|apply grows_refl]. by apply grows_same.
Qed.

Lemma dispatchEvent_grows stack ev s :
  ev <> EvOnline -> grows s (dispatchEvent stack ev s).
Proof.
  intros Hev. unfold dispatchEvent. generalize (listeners s). intros ls. revert s.
  induction ls as [|l ls IH]; intros s; [apply grows_refl|]. cbn [foldl].
  eapply grows_trans; [|apply IH].
  destruct (String.eqb _ _); [by apply runHandler_grows|apply grows_refl].
Qed.

(** While no drain is running, no step but a window ['online'] event
    starts one, and the queue only gains events. *)
Lemma step_idle stack s op :
  delivery_ok s -> isSendingQueue s = false -> op <> Window EvOnline ->
  isSendingQueue (step stack s op) = false
  /\ exists more, errorQueue (step stack s op) = errorQueue s ++ more.
Proof.
  intros Hok Hidle Hop.
  assert (Hg : forall s', grows s s' ->
                 isSendingQueue s' = false
                 /\ exists more, errorQueue s' = errorQueue s ++ more).
  { intros s' (Hq & _ & _ & Hf & _). by rewrite Hf. }
  destruct op; cbn [step].
  - apply Hg, handleError_grows.
  - apply Hg, handleError_grows.
  - apply Hg, handleError_grows.
  - by apply Hg, grows_same.
  - by apply Hg, grows_same.
  - apply Hg, destroy_grows.
  - apply Hg, dispatchEvent_grows. congruence.
  - apply Hg. unfold console_error. apply console_capture_grows.
    intros e s0 h Hh. destruct stack as [|k]; [done|].
    injection Hh as <-. apply handleError_grows.
  - apply Hg, console_warn_grows.
  - apply Hg, console_log_grows.
  - destruct (recorders s); [apply Hg, grows_refl|apply Hg, emit_grows].
  - apply Hg, elapse_grows.
  - unfold settle.
    destruct (list_find _ _) as [[i [id' req]]|] eqn:Hfind;
      [|apply Hg, grows_refl].
    apply list_find_Some in Hfind as (Hi & _ & _).
    apply list_elem_of_lookup_2 in Hi.
    destruct Hok as [_ (_ & _ & Hd)]. rewrite Hidle in Hd.
    destruct (req_kont req) as [b|taken] eqn:Hk.
    + unfold flushBatch_settled.
      destruct (sendBatch_settled o) as [[]|err]; [split; [done|]; exists []; by rewrite app_nil_r|].
      rewrite async_fst.
      set (s1 := set_inflight _ s).
      pose proof (queueErrors_grows b s1) as (Hq1 & _ & _ & Hf1 & _).
      pose proof (console_warn_grows stack
                    ["ErrorWatch: Failed to send batch, queued for retry"; err]
                    (queueErrors b s1)) as (Hq2 & _ & _ & Hf2 & _).
      fold (queueErrors b s1). rewrite Hf2, Hf1. split; [done|].
      destruct Hq1 as [q1 Hq1], Hq2 as [q2 Hq2]. exists (q1 ++ q2).
      by rewrite Hq2, Hq1, app_assoc.
    + exfalso. unfold drains in Hd.
      assert (Hin : (id', req) ∈ filter (fun r : nat * Request =>
                                           is_drain (req_kont r.2) = true)
                                        (inflight s)).
      { apply list_elem_of_filter. split; [cbn; by rewrite Hk|done]. }
      destruct (filter _ (inflight s)); [by apply elem_of_nil in Hin|done].
Qed.

(** X14.  Once no drain is running, only an 'online' event of the
    window starts one: whatever else happens (captures, failed flushes,
    time passing, fetches settling, [destroy]), no drain runs, no
    request is made for the queue, and the queue is only appended
    to. *)
Theorem queue_is_drained_only_on_online
    (stack : nat) (c : ErrorWatchConfig) (h : Host) (before after : list Op) :
  let s := run stack before (newInstance c h) in
  let s' := run stack after s in
  isSendingQueue s = false ->
  Forall (fun op => op <> Window EvOnline) after ->
  isSendingQueue s' = false
  /\ drains s' = []
  /\ exists more, errorQueue s' = errorQueue s ++ more.
Proof.
  intros s s' Hidle Hafter.
  assert (Hok : delivery_ok s) by apply run_ok, newInstance_ok.
  subst s'. clearbody s. revert s Hidle Hok.
  induction Hafter as [|op after Hop _ IH]; intros s Hidle Hok.
  - change (run stack [] s) with s.
    split; [done|]. split; [|exists []; by rewrite app_nil_r].
    destruct Hok as [_ (_ & _ & Hd)]. rewrite Hidle in Hd.
    destruct (drains s); [done|cbn in Hd; lia].
  - unfold run in *. cbn [foldl].
    destruct (step_idle stack s op Hok Hidle Hop) as [Hidle1 [m1 Hm1]].
    destruct (IH (step stack s op) Hidle1 (step_ok stack s op Hok))
      as (H1 & H2 & [m2 Hm2]).
    split; [done|]. split; [done|]. exists (m1 ++ m2).
    by rewrite Hm2, Hm1, app_assoc.
Qed.

Lemma queue_is_drained_only_on_online_witness :
  drains
    (run 1
       [CallCaptureMessage "m" None None; TimePasses 5000;
        FetchSettles 3 (NetworkError "TypeError: Failed to fetch");
        TimePasses 60000]
       (run 1 [] (newInstance sampleConfig browserHost)))
  = [].
Proof.
  refine (proj1 (proj2 (queue_is_drained_only_on_online 1 sampleConfig browserHost
                          []
                          [CallCaptureMessage "m" None None; TimePasses 5000;
                           FetchSettles 3 (NetworkError "TypeError: Failed to fetch");
                           TimePasses 60000] _ _))).
  - reflexivity.
  - repeat constructor; discriminate.
Defined.

(** ** Properties kept by [handleError], whatever the nesting *)

Section Preservation.
Variable P : Sys -> Prop.
Hypothesis P_queueError : forall e s, P s -> P (queueError e s).
Hypothesis P_log_call : forall lvl args s, P s -> P (log_call lvl args s).
Hypothesis P_addBreadcrumb : forall b s, P s -> P (addBreadcrumb b s).
Hypothesis P_slice : forall s, P s -> P (slice_breadcrumbs s).2.
Hypothesis P_captured : forall e s,
  P s -> P (set_hookCalls (hookCalls s ++ [CalledErrorCaptured e]) s).
Hypothesis P_addToBatch : forall e s, P s -> P (addToBatch e s).

Lemma console_log_preserves args s : P s -> P (console_log args s).
Proof using All.
  intros H. unfold console_log.
  destruct (console_log_patched _); [apply P_addBreadcrumb|]; by apply P_log_call.
Qed.

Lemma console_capture_preserves patched lvl sev ty capture args s :
  (forall e s0 h, capture = Some h -> P s0 -> P (h e s0).1) ->
  P s -> P (console_capture patched lvl sev ty capture args s).1.
Proof using All.
  intros Hcap H. unfold console_capture.
  pose proof (P_log_call lvl (VStr <$> args) s H) as H1.
  destruct (patched _); [|done].
  destruct capture as [h|]; [|done]. cbn. by eapply Hcap.
Qed.

Lemma handleError_body_preserves warn e s :
  (forall args s0, P s0 -> P (warn args s0).1) ->
  P s -> P (handleError_body warn e s).1.
Proof using All.
  intros Hwarn H. unfold handleError_body, handleError_catch.
  destruct (beforeSend _ _) as [[p|]|err];
    [|done|by apply Hwarn, P_queueError].
  unfold attachRecording.
  destruct (_ && _).
  - destruct (JSON_stringify_frames _) as [js|err];
      [|by apply Hwarn, P_queueError].
    set (s1 := console_log _ s).
    assert (H1 : P s1) by (by apply console_log_preserves).
    clearbody s1. unfold mergeMetadata.
    pose proof (P_slice s1 H1) as H2.
    destruct (slice_breadcrumbs s1) as [r s2]. cbn [snd] in H2.
    unfold callOnErrorCaptured.
    destruct (analyticsHooks (config s2)) as [hooks|]; [|by apply P_addToBatch].
    destruct (onErrorCaptured hooks) as [hook|]; [|by apply P_addToBatch].
    destruct (hook _) as [[]|err].
    + by apply P_addToBatch, P_captured.
    + by apply Hwarn, P_queueError, P_captured.
  - unfold mergeMetadata.
    pose proof (P_slice s H) as H2.
    destruct (slice_breadcrumbs s) as [r s2]. cbn [snd] in H2.
    unfold callOnErrorCaptured.
    destruct (analyticsHooks (config s2)) as [hooks|]; [|by apply P_addToBatch].
    destruct (onErrorCaptured hooks) as [hook|]; [|by apply P_addToBatch].
    destruct (hook _) as [[]|err].
    + by apply P_addToBatch, P_captured.
    + by apply Hwarn, P_queueError, P_captured.
Qed.

Lemma handleError_preserves stack : forall e s, P s -> P (handleError stack e s).1.
Proof using All.
  induction stack as [|k IH]; intros e s H; rewrite handleError_unfold, async_fst;
    apply handleError_body_preserves; try done; intros args s0 H0;
    apply console_capture_preserves; try done.
  intros e0 s1 h [= <-]. apply IH.
Qed.

Lemma console_warn_preserves stack args s :
  P s -> P (console_warn stack args s).1.
Proof using All.
  intros H. apply console_capture_preserves; [|done].
  intros e s0 h Hh. destruct stack as [|k]; [done|].
  injection Hh as <-. apply handleError_preserves.
Qed.

Lemma console_error_preserves stack args s :
  P s -> P (console_error stack args s).1.
Proof using All.
  intros H. apply console_capture_preserves; [|done].
  intros e s0 h Hh. destruct stack as [|k]; [done|].
  injection Hh as <-. apply handleError_preserves.
Qed.

End Preservation.
(** ** No event held for delivery is lost *)

Lemma keeps_refl s : keeps s s.
Proof. exists []. by rewrite app_nil_r. Qed.

Lemma keeps_trans s1 s2 s3 : keeps s1 s2 -> keeps s2 s3 -> keeps s1 s3.
Proof.
  intros [n1 H1] [n2 H2]. exists (n1 ++ n2). rewrite H2, H1. by rewrite app_assoc.
Qed.

Lemma pending_same s s' :
  errorQueue s' = errorQueue s -> batch s' = batch s -> inflight s' = inflight s ->
  pending s' = pending s.
Proof. intros Hq Hb Hi. unfold pending. by rewrite Hq, Hb, Hi. Qed.

Lemma keeps_same s s' :
  errorQueue s' = errorQueue s -> batch s' = batch s -> inflight s' = inflight s ->
  keeps s s'.
Proof.
  intros Hq Hb Hi. exists []. rewrite app_nil_r. by rewrite (pending_same s s').
Qed.

Lemma pending_sendBatch k errors s :
  pending (sendBatch k errors s) ≡ₚ pending s ++ kont_events k.
Proof.
  unfold pending, sendBatch. cbn. rewrite fmap_app, concat_app. cbn.
  rewrite app_nil_r. solve_Permutation.
Qed.

Lemma pending_flushBatch s : pending (flushBatch s) ≡ₚ pending s.
Proof.
  unfold flushBatch. destruct (batch s) as [|e b] eqn:Hbatch; [done|].
  rewrite pending_sendBatch. cbn [kont_events].
  set (s2 := match batchTimer (set_batch [] s) with
             | Some id => set_batchTimer None (clearTimeout id (set_batch [] s))
             | None => set_batch [] s
             end).
  assert (H2 : errorQueue s2 = errorQueue s /\ batch s2 = []
               /\ inflight s2 = inflight s).
  { subst s2. cbn. by destruct (batchTimer s). }
  destruct H2 as (Hq & Hb & Hi). unfold pending. rewrite Hq, Hb, Hi, Hbatch.
  solve_Permutation.
Qed.

Lemma pending_addToBatch e s : pending (addToBatch e s) ≡ₚ pending s ++ [e].
Proof.
  unfold addToBatch.
  assert (H1 : pending (set_batch (batch s ++ [e]) s) ≡ₚ pending s ++ [e]).
  { unfold pending. cbn. solve_Permutation. }
  destruct (_ <=? _).
  - by rewrite pending_flushBatch.
  - rewrite <- H1. destruct (batchTimer _); by rewrite ?(pending_same _ _).
Qed.

Lemma pending_queueError e s : pending (queueError e s) ≡ₚ pending s ++ [e].
Proof. rewrite queueError_eq. unfold pending. cbn. solve_Permutation. Qed.

Lemma pending_flushQueue_loop s : pending (flushQueue_loop s) ≡ₚ pending s.
Proof.
  unfold flushQueue_loop. destruct (errorQueue s) as [|e q] eqn:Hq.
  - by rewrite (pending_same s).
  - remember (e :: q) as q0 eqn:Hq0. clear Hq0.
    rewrite pending_sendBatch. cbn [kont_events].
    pose proof (take_drop BATCH_SIZE q0) as E. revert E.
    generalize (take BATCH_SIZE q0) (drop BATCH_SIZE q0). intros t d E.
    unfold pending. cbn. rewrite Hq, <- E. solve_Permutation.
Qed.

Lemma pending_flushQueue s : pending (flushQueue s) ≡ₚ pending s.
Proof.
  unfold flushQueue. destruct (isSendingQueue s); [done|].
  rewrite pending_flushQueue_loop. by rewrite (pending_same s).
Qed.

Lemma handleError_keeps stack e s : keeps s (handleError stack e s).1.
Proof.
  apply (handleError_preserves (keeps s)); try apply keeps_refl.
  - intros e0 s0 H. eapply keeps_trans; [exact H|].
    exists [e0]. apply pending_queueError.
  - intros lvl args s0 H. eapply keeps_trans; [exact H|]. by apply keeps_same.
  - intros b s0 H. eapply keeps_trans; [exact H|]. by apply keeps_same.
  - intros s0 H. eapply keeps_trans; [exact H|]. by apply keeps_same.
  - intros c s0 H. eapply keeps_trans; [exact H|]. by apply keeps_same.
  - intros e0 s0 H. eapply keeps_trans; [exact H|].
    exists [e0]. apply pending_addToBatch.
Qed.

Lemma console_warn_keeps stack args s : keeps s (console_warn stack args s).1.
Proof.
  apply (console_warn_preserves (keeps s)); try apply keeps_refl.
  - intros e0 s0 H. eapply keeps_trans; [exact H|].
    exists [e0]. apply pending_queueError.
  - intros lvl args0 s0 H. eapply keeps_trans; [exact H|]. by apply keeps_same.
  - intros b s0 H. eapply keeps_trans; [exact H|]. by apply keeps_same.
  - intros s0 H. eapply keeps_trans; [exact H|]. by apply keeps_same.
  - intros c s0 H. eapply keeps_trans; [exact H|]. by apply keeps_same.
  - intros e0 s0 H. eapply keeps_trans; [exact H|].
    exists [e0]. apply pending_addToBatch.
Qed.

Lemma console_error_keeps stack args s : keeps s (console_error stack args s).1.
Proof.
  apply (console_error_preserves (keeps s)); try apply keeps_refl.
  - intros e0 s0 H. eapply keeps_trans; [exact H|].
    exists [e0]. apply pending_queueError.
  - intros lvl args0 s0 H. eapply keeps_trans; [exact H|]. by apply keeps_same.
  - intros b s0 H. eapply keeps_trans; [exact H|]. by apply keeps_same.
  - intros s0 H. eapply keeps_trans; [exact H|]. by apply keeps_same.
  - intros c s0 H. eapply keeps_trans; [exact H|]. by apply keeps_same.
  - intros e0 s0 H. eapply keeps_trans; [exact H|].
    exists [e0]. apply pending_addToBatch.
Qed.

Lemma pending_queueErrors es : forall s,
  pending (queueErrors es s) ≡ₚ pending s ++ es.
Proof.
  induction es as [|e es IH]; intros s; [by rewrite app_nil_r|].
  unfold queueErrors in *. cbn [foldl]. rewrite IH, pending_queueError.
  by rewrite <- app_assoc.
Qed.

(** The fetch that settles leaves the fetches in flight. *)
Lemma inflight_remove (l : list (nat * Request)) id req :
  NoDup (fst <$> l) -> (id, req) ∈ l ->
  l ≡ₚ (id, req) :: filter (fun r : nat * Request => r.1 <> id) l.
Proof.
  induction l as [|r l IH]; intros Hnd Hin; [by apply elem_of_nil in Hin|].
  cbn [fmap list_fmap] in Hnd. apply NoDup_cons in Hnd as [Hr Hnd].
  apply elem_of_cons in Hin as [<-|Hin].
  - rewrite (filter_cons_False (fun r : nat * Request => r.1 <> id)) by (cbn; tauto).
    rewrite (filter_keep_all (fun r : nat * Request => r.1 <> id) l); [done|].
    apply Forall_forall. intros x Hx Heq. apply Hr.
    apply list_elem_of_fmap. exists x. by split.
  - assert (Hne : r.1 <> id).
    { intros Heq. apply Hr. apply list_elem_of_fmap. exists (id, req). by split. }
    rewrite (filter_cons_True (fun r : nat * Request => r.1 <> id)) by done.
    rewrite (IH Hnd Hin) at 1. apply perm_swap.
Qed.

Lemma pending_remove s id req :
  NoDup (fst <$> inflight s) -> (id, req) ∈ inflight s ->
  pending s
  ≡ₚ pending (set_inflight (filter (fun r : nat * Request => r.1 <> id) (inflight s)) s)
     ++ kont_events (req_kont req).
Proof.
  intros Hnd Hin. unfold pending. cbn.
  rewrite (inflight_remove (inflight s) id req Hnd Hin) at 1. cbn.
  solve_Permutation.
Qed.

Lemma pending_elapse dt s : pending (elapse dt s) ≡ₚ pending s.
Proof.
  unfold elapse. rewrite (pending_same _ (set_now _ _)) by done.
  generalize (now s + Z.max 0 dt)%Z. intros target.
  generalize (timers s). intros ts. revert s.
  induction ts as [|t ts IH]; intros s; [done|]. cbn [foldl]. rewrite IH.
  destruct (_ <=? _)%Z; [|done]. unfold fireTimer.
  destruct (existsb _ _); [|done]. rewrite pending_flushBatch.
  by rewrite (pending_same s).
Qed.

Lemma pending_destroy s : pending (destroy s) ≡ₚ pending s.
Proof.
  unfold destroy. rewrite pending_flushBatch.
  rewrite (pending_same s); [done|..];
    destruct (stopRecording s); cbn; by destruct (batchTimer s).
Qed.

Lemma pending_emit event s : pending (emit event s) = pending s.
Proof.
  destruct (emit_grows event s) as ([q Hq] & _ & _ & _ & _ & Hi).
  destruct (emit_delivery_frame event s) as (Hb & _ & _ & _ & Hin & _).
  apply pending_same; try done.
  unfold emit, restartRecording, startScreenRecording; cbn.
  destruct (recordingEvents s ++ [event]); [done|].
  destruct (_ <? _)%Z; [|done].
  destruct (stopRecording s); cbn;
    by destruct (negb (isBrowser s) || isRecording s).
Qed.

Lemma pending_runHandler stack h ev s :
  exists new, pending (runHandler stack h ev s) ≡ₚ pending s ++ new
              /\ (match ev with
                  | EvError _ _ _ _ _ | EvUnhandledRejection _ _ => false
                  | _ => true
                  end = true -> new = []).
Proof.
  assert (Hsame : forall s', pending s' ≡ₚ pending s ->
            exists new, pending s' ≡ₚ pending s ++ new
              /\ (match ev with
                  | EvError _ _ _ _ _ | EvUnhandledRejection _ _ => false
                  | _ => true
                  end = true -> new = [])).
  { intros s' H. exists []. by rewrite app_nil_r. }
  destruct h, ev; cbn [runHandler]; try (by apply Hsame).
  - apply Hsame, pending_flushQueue.
  - apply Hsame.
    destruct (analyticsHooks (config s)) as [hooks|]; [|done].
    by destruct (onSessionEnd hooks).
  - destruct (handleError_keeps stack
                (mkErrorData msg errStack
                   (if String.eqb filename "" then location_href s else filename)
                   (Some lineno) (Some colno) (navigator_userAgent s) (now s)
                   SevError None None) s) as [new Hnew].
    by exists new.
  - match goal with |- context [handleError stack ?e s] =>
      destruct (handleError_keeps stack e s) as [new Hnew] end.
    by exists new.
Qed.

Lemma pending_dispatchEvent stack ev s :
  exists new, pending (dispatchEvent stack ev s) ≡ₚ pending s ++ new
              /\ (match ev with
                  | EvError _ _ _ _ _ | EvUnhandledRejection _ _ => false
                  | _ => true
                  end = true -> new = []).
Proof.
  unfold dispatchEvent. generalize (listeners s). intros ls. revert s.
  induction ls as [|l ls IH]; intros s; [exists []; by rewrite app_nil_r|].
  cbn [foldl].
  destruct (String.eqb _ _).
  - destruct (pending_runHandler stack l.2 ev s) as (n1 & H1 & Hq1).
    destruct (IH (runHandler stack l.2 ev s)) as (n2 & H2 & Hq2).
    exists (n1 ++ n2). split; [by rewrite H2, H1, app_assoc|].
    intros Hq. by rewrite Hq1, Hq2.
  - apply IH.
Qed.

Lemma step_pending stack s op :
  delivery_ok s ->
  exists new,
    pending (step stack s op) ++ delivered s op ≡ₚ pending s ++ new
    /\ (captures_nothing op = true -> new = []).
Proof.
  intros Hok.
  assert (Hsame : forall s', pending s' ≡ₚ pending s ->
            exists new, pending s' ++ [] ≡ₚ pending s ++ new
                        /\ (true = true -> new = [])).
  { intros s' H. exists []. by rewrite !app_nil_r. }
  assert (Hkeeps : forall s', keeps s s' ->
            exists new, pending s' ++ [] ≡ₚ pending s ++ new
                        /\ (false = true -> new = [])).
  { intros s' [new H]. exists new. by rewrite app_nil_r. }
  destruct op; cbn [step delivered captures_nothing].
  - apply Hkeeps, handleError_keeps.
  - apply Hkeeps, handleError_keeps.
  - apply Hkeeps, handleError_keeps.
  - apply Hsame. by rewrite (pending_same s).
  - apply Hsame. by rewrite (pending_same s).
  - apply Hsame, pending_destroy.
  - destruct (pending_dispatchEvent stack ev s) as (new & H & Hq).
    exists new. by rewrite app_nil_r.
  - apply Hkeeps, console_error_keeps.
  - apply Hkeeps, console_warn_keeps.
  - apply Hsame. rewrite (pending_same s); [done|..];
      unfold console_log; cbn; by destruct (console_log_patched s).
  - apply Hsame. destruct (recorders s); [done|]. by rewrite pending_emit.
  - apply Hsame, pending_elapse.
  - unfold settle.
    destruct (list_find _ _) as [[i [id' req]]|] eqn:Hfind.
    2:{ exists []. split; [done|]. done. }
    apply list_find_Some in Hfind as (Hi & Hid & _). cbn in Hid. subst id'.
    apply list_elem_of_lookup_2 in Hi.
    destruct Hok as [_ (Hnd & _ & _)].
    pose proof (pending_remove s id req Hnd Hi) as Hrem.
    set (s1 := set_inflight _ s) in *. clearbody s1.
    destruct (req_kont req) as [b|taken]; cbn [kont_events] in *.
    + unfold flushBatch_settled.
      destruct (sendBatch_settled o) as [[]|err].
      * exists []. cbn [fst]. by rewrite app_nil_r, Hrem.
      * rewrite async_fst.
        destruct (console_warn_keeps stack
                    ["ErrorWatch: Failed to send batch, queued for retry"; err]
                    (queueErrors b s1)) as [new Hnew].
        fold (queueErrors b s1). exists new. split; [|done].
        by rewrite app_nil_r, Hnew, pending_queueErrors, Hrem.
    + unfold flushQueue_settled.
      destruct (sendBatch_settled o) as [[]|err].
      * exists []. split; [|done].
        rewrite pending_flushQueue_loop, saveQueue_eq, app_nil_r, Hrem.
        by rewrite (pending_same s1).
      * exists []. split; [|done]. rewrite saveQueue_eq, !app_nil_r, Hrem.
        unfold pending. cbn. solve_Permutation.
Qed.

Lemma perm_chain {A} (a b c d p n1 n2 : list A) :
  a ++ c ≡ₚ b ++ n2 -> b ++ d ≡ₚ p ++ n1 -> a ++ d ++ c ≡ₚ p ++ n1 ++ n2.
Proof.
  intros H2 H1. transitivity ((a ++ c) ++ d); [solve_Permutation|]. rewrite H2.
  transitivity ((b ++ d) ++ n2); [solve_Permutation|]. rewrite H1.
  solve_Permutation.
Qed.

Lemma run_pending stack ops : forall s,
  delivery_ok s ->
  exists new,
    pending (run stack ops s) ++ delivered_in stack ops s ≡ₚ pending s ++ new
    /\ (forallb captures_nothing ops = true -> new = []).
Proof.
  induction ops as [|op ops IH]; intros s Hok.
  - exists []. by rewrite !app_nil_r.
  - unfold run in *. cbn [foldl delivered_in forallb].
    destruct (step_pending stack s op Hok) as (n1 & H1 & Hq1).
    destruct (IH (step stack s op) (step_ok stack s op Hok)) as (n2 & H2 & Hq2).
    exists (n1 ++ n2). split.
    + exact (perm_chain _ _ _ _ _ _ _ H2 H1).
    + intros Hq. apply andb_prop in Hq as [Ha Hb]. by rewrite Hq1, Hq2.
Qed.

(** X15.  No event held for delivery is lost: over any steps, every
    event that was in the queue, in the batch or in a request in flight
    is still held afterwards or was in a request that settled
    successfully.  When the steps capture nothing, the events held and
    delivered afterwards are exactly those held before, each as often:
    nothing is duplicated. *)
Theorem no_pending_event_is_lost
    (stack : nat) (c : ErrorWatchConfig) (h : Host) (before after : list Op) :
  let s := run stack before (newInstance c h) in
  let s' := run stack after s in
  pending s ⊆+ pending s' ++ delivered_in stack after s
  /\ (forallb captures_nothing after = true ->
      pending s' ++ delivered_in stack after s ≡ₚ pending s).
Proof.
  intros s s'.
  assert (Hok : delivery_ok s) by apply run_ok, newInstance_ok.
  destruct (run_pending stack after s Hok) as (new & H & Hq).
  fold s' in H. split.
  - rewrite H. by apply submseteq_inserts_r.
  - intros Hquiet. by rewrite H, (Hq Hquiet), app_nil_r.
Qed.

(** ** Properties kept by every step of a run *)

Section RunPreservation.
Variable P : Sys -> Prop.
Hypothesis P_queueError : forall e s, P s -> P (queueError e s).
Hypothesis P_log_call : forall lvl args s, P s -> P (log_call lvl args s).
Hypothesis P_addBreadcrumb : forall b s, P s -> P (addBreadcrumb b s).
Hypothesis P_slice : forall s, P s -> P (slice_breadcrumbs s).2.
Hypothesis P_captured : forall e s,
  P s -> P (set_hookCalls (hookCalls s ++ [CalledErrorCaptured e]) s).
Hypothesis P_sessionEnd : forall s,
  P s -> P (set_hookCalls (hookCalls s ++ [CalledSessionEnd (sessionId s)]) s).
Hypothesis P_addToBatch : forall e s, P s -> P (addToBatch e s).
Hypothesis P_setUser : forall u s, P s -> P (setUser u s).
Hypothesis P_setContext : forall k v s, P s -> P (setContext k v s).
Hypothesis P_destroy : forall s, P s -> P (destroy s).
Hypothesis P_emit : forall f s, recorders s <> [] -> P s -> P (emit f s).
Hypothesis P_elapse : forall dt s, P s -> P (elapse dt s).
Hypothesis P_flushQueue : forall s, P s -> P (flushQueue s).
Hypothesis P_settled : forall id s,
  P s -> P (set_inflight (filter (fun r : nat * Request => r.1 <> id) (inflight s)) s).
Hypothesis P_flushQueue_settled : forall taken o s,
  isSendingQueue s = true -> P s -> P (flushQueue_settled taken o s).

Lemma runHandler_preserves stack h ev s : P s -> P (runHandler stack h ev s).
Proof using All.
  intros H. destruct h, ev; cbn [runHandler]; try done;
    try (by apply P_flushQueue); try (by apply handleError_preserves);
    try (by apply P_addBreadcrumb).
  destruct (analyticsHooks (config s)) as [hooks|]; [|done].
  destruct (onSessionEnd hooks); [|done]. by apply P_sessionEnd.
Qed.

Lemma dispatchEvent_preserves stack ev s : P s -> P (dispatchEvent stack ev s).
Proof using All.
  unfold dispatchEvent. generalize (listeners s). intros ls. revert s.
  induction ls as [|l ls IH]; intros s H; [done|]. cbn [foldl].
  apply IH. destruct (String.eqb _ _); [|done]. by apply runHandler_preserves.
Qed.

Lemma queueErrors_preserves es : forall s, P s -> P (queueErrors es s).
Proof using P_queueError.
  induction es as [|e es IH]; intros s H; [done|].
  unfold queueErrors in *. cbn [foldl]. by apply IH, P_queueError.
Qed.

Lemma step_preserves stack s op :
  delivery_ok s -> P s -> P (step stack s op).
Proof using All.
  intros Hok H. destruct op; cbn [step].
  - unfold captureError, drop_promise. cbn [fst]. by apply handleError_preserves.
  - unfold captureMessage, drop_promise. cbn [fst]. by apply handleError_preserves.
  - unfold captureEvent, drop_promise. cbn [fst]. by apply handleError_preserves.
  - by apply P_setUser.
  - by apply P_setContext.
  - by apply P_destroy.
  - by apply dispatchEvent_preserves.
  - by apply console_error_preserves.
  - by apply console_warn_preserves.
  - by apply console_log_preserves.
  - destruct (recorders s) eqn:Hr; [done|]. apply P_emit; [by rewrite Hr|done].
  - by apply P_elapse.
  - unfold settle.
    destruct (list_find _ _) as [[i [id' req]]|] eqn:Hfind; [|done].
    apply list_find_Some in Hfind as (Hi & Hid & _). cbn in Hid. subst id'.
    apply list_elem_of_lookup_2 in Hi.
    pose proof (P_settled id s H) as H1.
    destruct (req_kont req) as [b|taken] eqn:Hk.
    + unfold flushBatch_settled.
      destruct (sendBatch_settled o) as [[]|err]; [done|]. rewrite async_fst.
      apply console_warn_preserves; try done. by apply queueErrors_preserves.
    + apply P_flushQueue_settled; [|done]. cbn.
      destruct Hok as [_ (_ & _ & Hd)].
      destruct (isSendingQueue s); [done|]. exfalso. unfold drains in Hd.
      assert (Hin : (id, req) ∈ filter (fun r : nat * Request =>
                                          is_drain (req_kont r.2) = true)
                                       (inflight s)).
      { apply list_elem_of_filter. split; [cbn; by rewrite Hk|done]. }
      destruct (filter _ (inflight s)); [by apply elem_of_nil in Hin|done].
Qed.

Lemma run_preserves stack ops : forall s,
  delivery_ok s -> P s -> P (run stack ops s).
Proof using All.
  induction ops as [|op ops IH]; intros s Hok H; [done|].
  unfold run in *. cbn [foldl].
  apply IH; [by apply step_ok|by apply step_preserves].
Qed.

End RunPreservation.
(** ** What construction installs stays installed *)

Lemma same_setup_refl s : same_setup s s.
Proof. repeat split. by destruct (config s). Qed.

Lemma same_setup_trans s1 s2 s3 :
  same_setup s1 s2 -> same_setup s2 s3 -> same_setup s1 s3.
Proof.
  intros (A1 & A2 & A3 & A4 & A5 & A6 & A7 & A8) (B1 & B2 & B3 & B4 & B5 & B6 & B7 & B8).
  repeat split; try congruence.
  rewrite <- A8. rewrite <- B8 at 2. by destruct (config s3).
Qed.

(** A step that touches none of these fields. *)
Lemma same_setup_fields s s' :
  listeners s' = listeners s ->
  console_error_patched s' = console_error_patched s ->
  console_warn_patched s' = console_warn_patched s ->
  console_log_patched s' = console_log_patched s ->
  sessionId s' = sessionId s -> sessionStartTime s' = sessionStartTime s ->
  breadcrumbs s' = breadcrumbs s -> config s' = config s ->
  same_setup s s'.
Proof.
  intros H1 H2 H3 H4 H5 H6 H7 H8. repeat split; try done.
  rewrite H8. by destruct (config s).
Qed.

Lemma flushBatch_same_setup s : same_setup s (flushBatch s).
Proof.
  unfold flushBatch. destruct (batch s); [apply same_setup_refl|].
  cbn. destruct (batchTimer s); by apply same_setup_fields.
Qed.

Lemma addToBatch_same_setup e s : same_setup s (addToBatch e s).
Proof.
  unfold addToBatch. destruct (_ <=? _).
  - eapply same_setup_trans; [|apply flushBatch_same_setup].
    by apply same_setup_fields.
  - cbn. destruct (batchTimer s); by apply same_setup_fields.
Qed.

Lemma queueError_same_setup e s : same_setup s (queueError e s).
Proof. rewrite queueError_eq. by apply same_setup_fields. Qed.

Lemma flushQueue_loop_same_setup s : same_setup s (flushQueue_loop s).
Proof.
  unfold flushQueue_loop. destruct (errorQueue s); by apply same_setup_fields.
Qed.

Lemma flushQueue_same_setup s : same_setup s (flushQueue s).
Proof.
  unfold flushQueue. destruct (isSendingQueue s); [apply same_setup_refl|].
  eapply same_setup_trans; [|apply flushQueue_loop_same_setup].
  by apply same_setup_fields.
Qed.

Lemma flushQueue_settled_same_setup taken o s :
  same_setup s (flushQueue_settled taken o s).
Proof.
  unfold flushQueue_settled. destruct (sendBatch_settled o).
  - eapply same_setup_trans; [|apply flushQueue_loop_same_setup].
    rewrite saveQueue_eq. by apply same_setup_fields.
  - rewrite saveQueue_eq. by apply same_setup_fields.
Qed.

Lemma fireTimers_same_setup (target : Z) (ts : list (nat * Z)) : forall s,
  same_setup s
    (foldl (fun acc (t : nat * Z) =>
              if (t.2 <=? target)%Z then fireTimer t.1 t.2 acc else acc)
           s ts).
Proof.
  induction ts as [|t ts IH]; intros s; [apply same_setup_refl|]. cbn [foldl].
  eapply same_setup_trans; [|apply IH].
  destruct (_ <=? _)%Z; [|apply same_setup_refl]. unfold fireTimer.
  destruct (existsb _ _); [|apply same_setup_refl].
  eapply same_setup_trans; [|apply flushBatch_same_setup].
  by apply same_setup_fields.
Qed.

Lemma elapse_same_setup dt s : same_setup s (elapse dt s).
Proof.
  unfold elapse. eapply same_setup_trans; [apply fireTimers_same_setup|].
  by apply same_setup_fields.
Qed.

Lemma destroy_same_setup s : same_setup s (destroy s).
Proof.
  unfold destroy. eapply same_setup_trans; [|apply flushBatch_same_setup].
  destruct (stopRecording s); cbn; destruct (batchTimer s); cbn;
    by apply same_setup_fields.
Qed.

Lemma emit_same_setup event s : same_setup s (emit event s).
Proof.
  unfold emit, restartRecording, startScreenRecording. cbn.
  destruct (recordingEvents s ++ [event]); [by apply same_setup_fields|].
  destruct (_ <? _)%Z; [|by apply same_setup_fields].
  destruct (stopRecording s); cbn;
    destruct (negb (isBrowser s) || isRecording s); by apply same_setup_fields.
Qed.

Lemma with_key_same_setup k v s :
  same_setup s
    (set_config (set_beforeSend (with_metadata_key k v (beforeSend (config s)))
                   (config s)) s).
Proof. repeat split. cbn. by destruct (config s). Qed.

Lemma run_same_setup stack ops s :
  delivery_ok s -> same_setup s (run stack ops s).
Proof.
  intros Hok.
  apply (run_preserves (same_setup s)); [..|exact Hok|apply same_setup_refl].
  all: intros; (eapply same_setup_trans; [eassumption|]).
  - apply queueError_same_setup.
  - by apply same_setup_fields.
  - by apply same_setup_fields.
  - by apply same_setup_fields.
  - by apply same_setup_fields.
  - by apply same_setup_fields.
  - apply addToBatch_same_setup.
  - unfold setUser.
    eapply same_setup_trans; [|apply (with_key_same_setup "user")].
    by apply same_setup_fields.
  - apply with_key_same_setup.
  - apply destroy_same_setup.
  - apply emit_same_setup.
  - apply elapse_same_setup.
  - apply flushQueue_same_setup.
  - by apply same_setup_fields.
  - apply flushQueue_settled_same_setup.
Qed.

(** X16.  What the constructor installs is never undone: after any
    steps, [destroy] among them, the window listeners, the patched
    console functions, the session id and start time and the breadcrumb
    array are the same, and the configuration differs at most in
    [beforeSend]. *)
Theorem setup_is_never_undone
    (stack : nat) (c : ErrorWatchConfig) (h : Host) (ops : list Op) :
  let s0 := newInstance c h in
  let s := run stack ops s0 in
  listeners s = listeners s0
  /\ console_error_patched s = console_error_patched s0
  /\ console_warn_patched s = console_warn_patched s0
  /\ console_log_patched s = console_log_patched s0
  /\ sessionId s = sessionId s0
  /\ sessionStartTime s = sessionStartTime s0
  /\ breadcrumbs s = breadcrumbs s0
  /\ set_beforeSend (beforeSend (config s0)) (config s) = config s0.
Proof. intros s0 s. apply run_same_setup, newInstance_ok. Qed.

(** ** The stored copy of the queue *)

Lemma queue_frame_refl s : queue_frame s s.
Proof. by repeat split. Qed.

Lemma queue_frame_trans s1 s2 s3 :
  queue_frame s1 s2 -> queue_frame s2 s3 -> queue_frame s1 s3.
Proof.
  intros (A1 & A2 & A3 & A4 & A5) (B1 & B2 & B3 & B4 & B5).
  repeat split; congruence.
Qed.

Lemma flushBatch_queue_frame s : queue_frame s (flushBatch s).
Proof.
  unfold flushBatch. destruct (batch s); [apply queue_frame_refl|].
  cbn. by destruct (batchTimer s).
Qed.

Lemma addToBatch_queue_frame e s : queue_frame s (addToBatch e s).
Proof.
  unfold addToBatch. destruct (_ <=? _).
  - eapply queue_frame_trans; [|apply flushBatch_queue_frame]. done.
  - cbn. by destruct (batchTimer s).
Qed.

Lemma fireTimers_queue_frame (target : Z) (ts : list (nat * Z)) : forall s,
  queue_frame s
    (foldl (fun acc (t : nat * Z) =>
              if (t.2 <=? target)%Z then fireTimer t.1 t.2 acc else acc)
           s ts).
Proof.
  induction ts as [|t ts IH]; intros s; [apply queue_frame_refl|]. cbn [foldl].
  eapply queue_frame_trans; [|apply IH].
  destruct (_ <=? _)%Z; [|apply queue_frame_refl]. unfold fireTimer.
  destruct (existsb _ _); [|apply queue_frame_refl].
  eapply queue_frame_trans; [|apply flushBatch_queue_frame]. done.
Qed.

Lemma elapse_queue_frame dt s : queue_frame s (elapse dt s).
Proof.
  unfold elapse. eapply queue_frame_trans; [apply fireTimers_queue_frame|]. done.
Qed.

Lemma destroy_queue_frame s : queue_frame s (destroy s).
Proof.
  unfold destroy. eapply queue_frame_trans; [|apply flushBatch_queue_frame].
  destruct (stopRecording s); cbn; by destruct (batchTimer s).
Qed.

Lemma emit_queue_frame event s : queue_frame s (emit event s).
Proof.
  unfold emit, restartRecording, startScreenRecording. cbn.
  destruct (recordingEvents s ++ [event]); [done|].
  destruct (_ <? _)%Z; [|done].
  destruct (stopRecording s); cbn;
    by destruct (negb (isBrowser s) || isRecording s).
Qed.

Section QueuePreservation.
Variable P : Sys -> Prop.
Hypothesis P_frame : forall s s', queue_frame s s' -> P s -> P s'.
Hypothesis P_queueError : forall e s, P s -> P (queueError e s).
Hypothesis P_flushQueue : forall s, P s -> P (flushQueue s).
Hypothesis P_flushQueue_settled : forall taken o s,
  isSendingQueue s = true -> P s -> P (flushQueue_settled taken o s).

Lemma run_preserves_queue stack ops s :
  delivery_ok s -> P s -> P (run stack ops s).
Proof using All.
  intros Hok H.
  apply (run_preserves P); try done.
  - intros lvl args s0. by apply P_frame.
  - intros b s0. by apply P_frame.
  - intros s0. by apply P_frame.
  - intros e s0. by apply P_frame.
  - intros s0. by apply P_frame.
  - intros e s0. apply P_frame, addToBatch_queue_frame.
  - intros u s0. by apply P_frame.
  - intros k v s0. by apply P_frame.
  - intros s0. apply P_frame, destroy_queue_frame.
  - intros f s0 _. apply P_frame, emit_queue_frame.
  - intros dt s0. apply P_frame, elapse_queue_frame.
  - intros id s0. by apply P_frame.
Qed.

Lemma init_preserves_queue s : P s -> P (init s).
Proof using P_frame P_flushQueue.
  intros H. unfold init. apply P_flushQueue.
  assert (H1 : P (setupErrorHandlers s)).
  { eapply P_frame; [|exact H]. unfold setupErrorHandlers.
    by destruct (negb (isBrowser s)). }
  set (s1 := setupErrorHandlers s) in *. clearbody s1.
  assert (H2 : P (if enableScreenRecording (config s1) && isBrowser s1
                  then startScreenRecording s1 else s1)).
  { destruct (_ && _); [|done]. eapply P_frame; [|exact H1].
    unfold startScreenRecording.
    by destruct (negb (isBrowser s1) || isRecording s1). }
  set (s2 := if enableScreenRecording (config s1) && isBrowser s1
             then startScreenRecording s1 else s1) in *. clearbody s2.
  assert (H3 : P (if captureConsole (config s2)
                  then setupConsoleCapture s2 else s2)).
  { destruct (captureConsole (config s2)); [|done].
    eapply P_frame; [|exact H2]. unfold setupConsoleCapture.
    by destruct (negb (isBrowser s2)). }
  set (s3 := if captureConsole (config s2) then setupConsoleCapture s2 else s2) in *.
  clearbody s3.
  eapply P_frame; [|exact H3]. unfold setupBreadcrumbs.
  by destruct (negb (isBrowser s3)).
Qed.

End QueuePreservation.

Lemma val_ok_freeze h v :
  Forall (Forall crumb_ok) h -> val_ok v = true -> writable (freeze h v) = true.
Proof.
  intros Hh Hv. destruct v; try done. cbn.
  apply forallb_forall. intros x Hx. apply in_map_iff in Hx as (b & <- & Hb).
  assert (Hc : crumb_ok b).
  { destruct (h !! r) as [cell|] eqn:E; [|done]. cbn in Hb.
    rewrite Forall_forall in Hh. specialize (Hh cell (list_elem_of_lookup_2 _ _ _ E)).
    rewrite Forall_forall in Hh. apply Hh. by apply list_elem_of_In. }
  cbn. unfold crumb_ok in Hc. by rewrite Hc.
Qed.

Lemma stringifies_ok h e :
  Forall (Forall crumb_ok) h -> event_ok e -> stringifies h e = true.
Proof.
  intros Hh He. apply stringifies_spec. intros m k v Hm Hk.
  apply val_ok_freeze; [done|]. by apply (He m k v).
Qed.

Lemma stringifies_all h q :
  Forall (Forall crumb_ok) h -> Forall event_ok q ->
  forallb (stringifies h) q = true.
Proof.
  intros Hh Hq. apply forallb_forall. intros e He.
  apply stringifies_ok; [done|].
  rewrite Forall_forall in Hq. by apply Hq, list_elem_of_In.
Qed.

Lemma persisted_synced queue s :
  isBrowser s = true -> storageOk s = true ->
  forallb (stringifies (heap s)) queue = true ->
  plain <$> loadQueue true true (persisted queue s) = plain <$> queue.
Proof.
  intros Hb Hok Hw. unfold persisted. rewrite Hb, Hok, Hw. cbn.
  rewrite <- list_fmap_compose. by apply list_fmap_ext.
Qed.

Lemma all_writable_queue s : all_writable s -> Forall event_ok (errorQueue s).
Proof. intros [_ H]. unfold pending in H. by apply Forall_app in H as [H _]. Qed.

Lemma all_writable_same s s' :
  heap s' = heap s -> pending s' ≡ₚ pending s -> all_writable s -> all_writable s'.
Proof. intros Hh Hp [H1 H2]. split; [by rewrite Hh|by rewrite Hp]. Qed.

Lemma all_writable_more s s' new :
  heap s' = heap s -> pending s' ≡ₚ pending s ++ new -> Forall event_ok new ->
  all_writable s -> all_writable s'.
Proof.
  intros Hh Hp Hnew [H1 H2]. split; [by rewrite Hh|].
  rewrite Hp. by apply Forall_app.
Qed.

Lemma persists_frame s1 s2 :
  queue_frame s1 s2 -> all_writable s2 -> persists s1 -> persists s2.
Proof.
  intros (Hq & Hl & Hf & Hbr & Hsk) Hw (H1 & H2 & _ & H3).
  split; [congruence|]. split; [congruence|]. split; [done|]. unfold synced in *.
  rewrite Hq, Hl, Hf. exact H3.
Qed.

Lemma persists_same s1 s2 :
  queue_frame s1 s2 -> heap s2 = heap s1 -> pending s2 ≡ₚ pending s1 ->
  persists s1 -> persists s2.
Proof.
  intros Hq Hh Hp H. apply (persists_frame s1); [done| |done].
  apply (all_writable_same s1); [done|done|]. by destruct H as (_ & _ & ? & _).
Qed.

Lemma queueError_heap e s : heap (queueError e s) = heap s.
Proof. by rewrite queueError_eq. Qed.

Lemma persists_saved queue s :
  isBrowser s = true -> storageOk s = true ->
  Forall (Forall crumb_ok) (heap s) -> Forall event_ok queue ->
  synced (set_localStorage (persisted queue s) (set_errorQueue queue s)).
Proof.
  intros Hb Hok Hh Hq. unfold synced. cbn.
  apply persisted_synced; [done|done|]. by apply stringifies_all.
Qed.

Lemma persists_queueError e s :
  event_ok e -> persists s -> persists (queueError e s).
Proof.
  intros He (H1 & H2 & Hw & H3).
  assert (Hw' : all_writable (queueError e s)).
  { apply (all_writable_more s _ [e]); [apply queueError_heap| |by constructor|done].
    apply pending_queueError. }
  split; [by rewrite queueError_eq|]. split; [by rewrite queueError_eq|].
  split; [done|]. intros _. rewrite queueError_eq.
  apply persists_saved; try done; [by destruct Hw|].
  apply Forall_app. split; [by apply all_writable_queue|by constructor].
Qed.

Lemma persists_queueErrors es : forall s,
  Forall event_ok es -> persists s -> persists (queueErrors es s).
Proof.
  induction es as [|e es IH]; intros s Hes H; [done|].
  apply Forall_cons in Hes as [He Hes].
  unfold queueErrors in *. cbn [foldl]. by apply IH, persists_queueError.
Qed.

Lemma persists_log_call lvl args s : persists s -> persists (log_call lvl args s).
Proof. by apply persists_same. Qed.

Lemma persists_hookCalls calls s : persists s -> persists (set_hookCalls calls s).
Proof. by apply persists_same. Qed.

Lemma persists_addBreadcrumb b s :
  crumb_ok b -> persists s -> persists (addBreadcrumb b s).
Proof.
  intros Hb H. apply (persists_frame s); [done| |done].
  destruct H as (_ & _ & [Hh Hp] & _). split; [|done].
  unfold addBreadcrumb. cbn.
  apply Forall_insert; [done|].
  assert (Hcell : Forall crumb_ok (default [] (heap s !! breadcrumbs s) ++ [b])).
  { apply Forall_app. split; [|by constructor].
    destruct (heap s !! breadcrumbs s) as [cell|] eqn:E; [|done]. cbn.
    rewrite Forall_forall in Hh. by apply Hh, (list_elem_of_lookup_2 _ _ _ E). }
  destruct (_ <? _); [|done].
  destruct (default [] (heap s !! breadcrumbs s) ++ [b]); [done|].
  by apply Forall_cons in Hcell as [_ ?].
Qed.

Lemma persists_slice s : persists s -> persists (slice_breadcrumbs s).2.
Proof.
  intros H. apply (persists_frame s); [done| |done].
  destruct H as (_ & _ & [Hh Hp] & _). split; [|done]. cbn.
  apply Forall_app. split; [done|]. constructor; [|done].
  destruct (heap s !! breadcrumbs s) as [cell|] eqn:E; [|done]. cbn.
  rewrite Forall_forall in Hh. by apply Hh, (list_elem_of_lookup_2 _ _ _ E).
Qed.

Lemma flushBatch_heap s : heap (flushBatch s) = heap s.
Proof.
  unfold flushBatch. destruct (batch s); [done|]. cbn. by destruct (batchTimer s).
Qed.

Lemma addToBatch_heap e s : heap (addToBatch e s) = heap s.
Proof.
  unfold addToBatch. destruct (_ <=? _).
  - by rewrite flushBatch_heap.
  - cbn. by destruct (batchTimer s).
Qed.

Lemma persists_addToBatch e s :
  event_ok e -> persists s -> persists (addToBatch e s).
Proof.
  intros He H. apply (persists_frame s); [apply addToBatch_queue_frame| |done].
  apply (all_writable_more s _ [e]); [apply addToBatch_heap| |by constructor|].
  - apply pending_addToBatch.
  - by destruct H as (_ & _ & ? & _).
Qed.

Lemma persists_console_log args s :
  forallb writable args = true -> persists s -> persists (console_log args s).
Proof.
  intros Ha H. unfold console_log.
  destruct (console_log_patched _); [|by apply persists_log_call].
  apply persists_addBreadcrumb; [|by apply persists_log_call].
  unfold crumb_ok. cbn. by rewrite Ha.
Qed.

Lemma event_ok_screenRecording r e : event_ok e -> event_ok (set_screenRecording r e).
Proof. done. Qed.

Lemma event_ok_insert k v m e :
  val_ok v = true -> event_ok e ->
  metadata e = m ->
  forall e', metadata e' = Some (<[k := v]> (default ∅ m)) -> event_ok e'.
Proof.
  intros Hv He Hm e' He' m' k' v' Hm' Hk'. rewrite He' in Hm'. injection Hm' as <-.
  destruct (decide (k' = k)) as [->|Hne].
  - rewrite lookup_insert_eq in Hk'. by injection Hk' as <-.
  - rewrite lookup_insert_ne in Hk' by done.
    destruct m as [m|]; [|done]. cbn in Hk'. by apply (He m k' v').
Qed.

Lemma meta_ok_insert k v meta :
  val_ok v = true -> meta_ok meta -> meta_ok (Some (<[k := v]> (default ∅ meta))).
Proof.
  intros Hv He m' k' v' [= <-] Hk'.
  destruct (decide (k' = k)) as [->|Hne].
  - rewrite lookup_insert_eq in Hk'. by injection Hk' as <-.
  - rewrite lookup_insert_ne in Hk' by done.
    destruct meta as [m|]; [|done]. cbn in Hk'. by apply (He m k' v').
Qed.

Lemma event_ok_meta e : meta_ok (metadata e) <-> event_ok e.
Proof. done. Qed.

Lemma meta_ok_None : meta_ok None.
Proof. done. Qed.

Lemma event_ok_merge e s : event_ok e -> event_ok (mergeMetadata e s).1.
Proof.
  intros He.
  assert (Hu : val_ok (userId_val s) = true)
    by (unfold userId_val; by destruct (userId s)).
  exact (meta_ok_insert "sessionStart" (VNum (sessionStartTime s)) (Some _) eq_refl
           (meta_ok_insert "userId" (userId_val s) (Some _) Hu
              (meta_ok_insert "sessionId" (VStr (sessionId s)) (Some _) eq_refl
                 (meta_ok_insert "breadcrumbs" (VArrRef (length (heap s)))
                    (metadata e) eq_refl He)))).
Qed.

Lemma event_ok_console sev ty args s : event_ok (consoleEvent sev ty args s).
Proof.
  assert (Ha : val_ok (VArr (VStr <$> args)) = true).
  { cbn. apply forallb_forall. intros x Hx. by apply in_map_iff in Hx as (a & <- & _). }
  exact (meta_ok_insert "args" (VArr (VStr <$> args)) (Some _) Ha
           (meta_ok_insert "type" (VStr ty) None eq_refl meta_ok_None)).
Qed.

Lemma persists_console_capture patched lvl sev ty capture args s :
  (forall e s0 h, capture = Some h -> event_ok e -> persists s0 -> persists (h e s0).1) ->
  persists s -> persists (console_capture patched lvl sev ty capture args s).1.
Proof.
  intros Hcap H. unfold console_capture.
  pose proof (persists_log_call lvl (VStr <$> args) s H) as H1.
  destruct (patched _); [|done].
  destruct capture as [h|]; [|done]. cbn.
  eapply Hcap; [done|apply event_ok_console|done].
Qed.

Lemma persists_handleError_body warn e s :
  (forall args s0, persists s0 -> persists (warn args s0).1) ->
  event_ok e -> persists s -> persists (handleError_body warn e s).1.
Proof.
  intros Hwarn He H. unfold handleError_body, handleError_catch.
  destruct (beforeSend _ _) as [[p|]|err];
    [|done|by apply Hwarn, persists_queueError].
  unfold attachRecording.
  destruct (_ && _).
  - destruct (JSON_stringify_frames _) as [js|err];
      [|by apply Hwarn, persists_queueError].
    set (s1 := console_log _ s).
    assert (H1 : persists s1) by (by apply persists_console_log).
    clearbody s1.
    pose proof (event_ok_merge (set_screenRecording (Some js) e) s1
                  (event_ok_screenRecording _ e He)) as He2.
    unfold mergeMetadata in *.
    pose proof (persists_slice s1 H1) as H2.
    destruct (slice_breadcrumbs s1) as [r s2]. cbn [snd fst] in *.
    unfold callOnErrorCaptured.
    destruct (analyticsHooks (config s2)) as [hooks|]; [|by apply persists_addToBatch].
    destruct (onErrorCaptured hooks) as [hook|]; [|by apply persists_addToBatch].
    destruct (hook _) as [[]|err].
    + by apply persists_addToBatch, persists_hookCalls.
    + by apply Hwarn, persists_queueError, persists_hookCalls.
  - pose proof (event_ok_merge e s He) as He2.
    unfold mergeMetadata in *.
    pose proof (persists_slice s H) as H2.
    destruct (slice_breadcrumbs s) as [r s2]. cbn [snd fst] in *.
    unfold callOnErrorCaptured.
    destruct (analyticsHooks (config s2)) as [hooks|]; [|by apply persists_addToBatch].
    destruct (onErrorCaptured hooks) as [hook|]; [|by apply persists_addToBatch].
    destruct (hook _) as [[]|err].
    + by apply persists_addToBatch, persists_hookCalls.
    + by apply Hwarn, persists_queueError, persists_hookCalls.
Qed.

Lemma persists_handleError stack : forall e s,
  event_ok e -> persists s -> persists (handleError stack e s).1.
Proof.
  induction stack as [|k IH]; intros e s He H; rewrite handleError_unfold, async_fst;
    apply persists_handleError_body; try done; intros args s0 H0;
    apply persists_console_capture; try done.
  intros e0 s1 h [= <-]. apply IH.
Qed.

Lemma persists_console_warn stack args s :
  persists s -> persists (console_warn stack args s).1.
Proof.
  intros H. apply persists_console_capture; [|done].
  intros e s0 h Hh. destruct stack as [|k]; [done|].
  injection Hh as <-. apply persists_handleError.
Qed.

Lemma persists_console_error stack args s :
  persists s -> persists (console_error stack args s).1.
Proof.
  intros H. apply persists_console_capture; [|done].
  intros e s0 h Hh. destruct stack as [|k]; [done|].
  injection Hh as <-. apply persists_handleError.
Qed.

Lemma fireTimers_heap (target : Z) (ts : list (nat * Z)) : forall s,
  heap (foldl (fun acc (t : nat * Z) =>
                 if (t.2 <=? target)%Z then fireTimer t.1 t.2 acc else acc)
              s ts) = heap s.
Proof.
  induction ts as [|t ts IH]; intros s; [done|]. cbn [foldl]. rewrite IH.
  destruct (_ <=? _)%Z; [|done]. unfold fireTimer.
  destruct (existsb _ _); [|done]. by rewrite flushBatch_heap.
Qed.

Lemma elapse_heap dt s : heap (elapse dt s) = heap s.
Proof. unfold elapse. cbn. apply fireTimers_heap. Qed.

Lemma destroy_heap s : heap (destroy s) = heap s.
Proof.
  unfold destroy. rewrite flushBatch_heap.
  destruct (stopRecording s); cbn; by destruct (batchTimer s).
Qed.

Lemma emit_heap event s : heap (emit event s) = heap s.
Proof.
  unfold emit, restartRecording, startScreenRecording. cbn.
  destruct (recordingEvents s ++ [event]); [done|].
  destruct (_ <? _)%Z; [|done].
  destruct (stopRecording s); cbn;
    by destruct (negb (isBrowser s) || isRecording s).
Qed.

Lemma persists_elapse dt s : persists s -> persists (elapse dt s).
Proof.
  apply persists_same;
    [apply elapse_queue_frame|apply elapse_heap|apply pending_elapse].
Qed.

Lemma persists_destroy s : persists s -> persists (destroy s).
Proof.
  apply persists_same;
    [apply destroy_queue_frame|apply destroy_heap|apply pending_destroy].
Qed.

Lemma persists_emit event s : persists s -> persists (emit event s).
Proof.
  apply persists_same; [apply emit_queue_frame|apply emit_heap|].
  by rewrite pending_emit.
Qed.

Lemma persists_flushQueue_loop s :
  isBrowser s = true -> storageOk s = true -> all_writable s ->
  isSendingQueue s = true -> synced s ->
  persists (flushQueue_loop s).
Proof.
  intros H1 H2 Hw Hf Hs.
  assert (Hw' : all_writable (flushQueue_loop s)).
  { apply (all_writable_same s); [|apply pending_flushQueue_loop|done].
    unfold flushQueue_loop. by destruct (errorQueue s). }
  unfold flushQueue_loop in *. unfold synced in Hs.
  destruct (errorQueue s) as [|e q] eqn:Hq.
  - split; [done|]. split; [done|]. split; [done|]. intros _.
    unfold synced. cbn. by rewrite Hq.
  - split; [done|]. split; [done|]. split; [done|]. cbn. by rewrite Hf.
Qed.

Lemma persists_flushQueue s : persists s -> persists (flushQueue s).
Proof.
  intros Hp. pose proof Hp as (H1 & H2 & Hw & H3). unfold flushQueue.
  destruct (isSendingQueue s) eqn:Hf; [done|].
  apply persists_flushQueue_loop; try done. exact (H3 eq_refl).
Qed.

Lemma persists_flushQueue_settled taken o s :
  isSendingQueue s = true -> Forall event_ok taken ->
  persists s -> persists (flushQueue_settled taken o s).
Proof.
  intros Hf Htaken (H1 & H2 & Hw & _). unfold flushQueue_settled.
  pose proof (all_writable_queue s Hw) as Hq.
  destruct Hw as [Hh Hp].
  destruct (sendBatch_settled o).
  - rewrite saveQueue_eq. apply persists_flushQueue_loop; try done.
    unfold synced. cbn. apply persisted_synced; try done.
    by apply stringifies_all.
  - rewrite saveQueue_eq. cbn.
    split; [done|]. split; [done|]. split.
    + split; [done|]. unfold pending in *. cbn.
      rewrite <- app_assoc. by apply Forall_app.
    + intros _. unfold synced. cbn. apply persisted_synced; try done.
      apply stringifies_all; [done|]. by apply Forall_app.
Qed.

Lemma persists_settled s id req :
  NoDup (fst <$> inflight s) -> (id, req) ∈ inflight s ->
  persists s ->
  persists (set_inflight (filter (fun r : nat * Request => r.1 <> id) (inflight s)) s)
  /\ Forall event_ok (kont_events (req_kont req)).
Proof.
  intros Hnd Hin (H1 & H2 & [Hh Hp] & H3).
  rewrite (pending_remove s id req Hnd Hin) in Hp.
  apply Forall_app in Hp as [Hp1 Hp2].
  split; [|done]. by repeat split.
Qed.

Lemma persists_runHandler stack h ev s : persists s -> persists (runHandler stack h ev s).
Proof.
  intros H. destruct h, ev; cbn [runHandler]; try done.
  - by apply persists_flushQueue.
  - destruct (analyticsHooks (config s)) as [hooks|]; [|done].
    destruct (onSessionEnd hooks); [|done]. by apply persists_hookCalls.
  - by apply persists_handleError.
  - apply persists_handleError; [|done].
    exact (meta_ok_insert "reason" (VStr reason) (Some _) eq_refl
             (meta_ok_insert "type" (VStr "unhandledrejection") None eq_refl
                meta_ok_None)).
  - by apply persists_addBreadcrumb.
  - by apply persists_addBreadcrumb.
  - by apply persists_addBreadcrumb.
Qed.

Lemma persists_dispatchEvent stack ev s : persists s -> persists (dispatchEvent stack ev s).
Proof.
  unfold dispatchEvent. generalize (listeners s). intros ls. revert s.
  induction ls as [|l ls IH]; intros s H; [done|]. cbn [foldl].
  apply IH. destruct (String.eqb _ _); [|done]. by apply persists_runHandler.
Qed.

Lemma persists_with_key k v s :
  persists s ->
  persists (set_config (set_beforeSend (with_metadata_key k v (beforeSend (config s)))
                          (config s)) s).
Proof. by apply (persists_same s). Qed.

Lemma persists_step stack s op :
  delivery_ok s -> op_writable op -> persists s -> persists (step stack s op).
Proof.
  intros Hok Hop H. destruct op; cbn [step].
  - unfold captureError, drop_promise. cbn [fst]. apply persists_handleError; [|done].
    exact (meta_ok_insert "type" (VStr "manual") meta eq_refl Hop).
  - unfold captureMessage, drop_promise. cbn [fst]. apply persists_handleError; [|done].
    exact (meta_ok_insert "type" (VStr "message") meta eq_refl Hop).
  - unfold captureEvent, drop_promise. cbn [fst]. apply persists_handleError; [|done].
    exact (meta_ok_insert "eventName" (VStr eventName) (Some _) eq_refl
             (meta_ok_insert "type" (VStr "event") data eq_refl Hop)).
  - unfold setUser. apply (persists_with_key "user" (user_val user) (set_userId _ s)).
    by apply (persists_same s).
  - by apply persists_with_key.
  - by apply persists_destroy.
  - by apply persists_dispatchEvent.
  - by apply persists_console_error.
  - by apply persists_console_warn.
  - by apply persists_console_log.
  - destruct (recorders s) eqn:Hr; [done|]. by apply persists_emit.
  - by apply persists_elapse.
  - unfold settle.
    destruct (list_find _ _) as [[i [id' req]]|] eqn:Hfind; [|done].
    apply list_find_Some in Hfind as (Hi & Hid & _). cbn in Hid. subst id'.
    apply list_elem_of_lookup_2 in Hi.
    destruct Hok as [_ (Hnd & _ & Hd)].
    destruct (persists_settled s id req Hnd Hi H) as [H1 Hev].
    destruct (req_kont req) as [b|taken] eqn:Hk.
    + unfold flushBatch_settled.
      destruct (sendBatch_settled o) as [[]|err]; [done|]. rewrite async_fst.
      apply persists_console_warn. by apply persists_queueErrors.
    + apply persists_flushQueue_settled; [|done|done]. cbn.
      destruct (isSendingQueue s); [done|]. exfalso. unfold drains in Hd.
      assert (Hin : (id, req) ∈ filter (fun r : nat * Request =>
                                          is_drain (req_kont r.2) = true)
                                       (inflight s)).
      { apply list_elem_of_filter. split; [cbn; by rewrite Hk|done]. }
      destruct (filter _ (inflight s)); [by apply elem_of_nil in Hin|done].
Qed.

Lemma persists_run stack ops : forall s,
  delivery_ok s -> Forall op_writable ops -> persists s -> persists (run stack ops s).
Proof.
  induction ops as [|op ops IH]; intros s Hok Hops H; [done|].
  apply Forall_cons in Hops as [Hop Hops].
  unfold run in *. cbn [foldl].
  apply IH; [by apply step_ok|done|by apply persists_step].
Qed.

Lemma persists_init s : persists s -> persists (init s).
Proof.
  intros H. unfold init. apply persists_flushQueue.
  assert (H1 : persists (setupErrorHandlers s)).
  { apply (persists_same s); [| | |done]; unfold setupErrorHandlers;
      by destruct (negb (isBrowser s)). }
  set (s1 := setupErrorHandlers s) in *. clearbody s1.
  assert (H2 : persists (if enableScreenRecording (config s1) && isBrowser s1
                         then startScreenRecording s1 else s1)).
  { destruct (_ && _); [|done].
    apply (persists_same s1); [| | |done]; unfold startScreenRecording;
      by destruct (negb (isBrowser s1) || isRecording s1). }
  set (s2 := if enableScreenRecording (config s1) && isBrowser s1
             then startScreenRecording s1 else s1) in *. clearbody s2.
  assert (H3 : persists (if captureConsole (config s2)
                         then setupConsoleCapture s2 else s2)).
  { destruct (captureConsole (config s2)); [|done].
    apply (persists_same s2); [| | |done]; unfold setupConsoleCapture;
      by destruct (negb (isBrowser s2)). }
  set (s3 := if captureConsole (config s2) then setupConsoleCapture s2 else s2) in *.
  clearbody s3.
  apply (persists_same s3); [| | |done]; unfold setupBreadcrumbs;
    by destruct (negb (isBrowser s3)).
Qed.

Lemma never_stores_frame item s1 s2 :
  queue_frame s1 s2 -> never_stores item s1 -> never_stores item s2.
Proof. intros (Hq & Hl & Hf & Hbr & Hsk) (H1 & H2). split; congruence. Qed.

Lemma never_stores_saveQueue item q s :
  never_stores item s -> never_stores item (saveQueue q s).
Proof.
  intros [H1 H2]. rewrite saveQueue_eq. unfold persisted. rewrite H1. by split.
Qed.

Lemma never_stores_queueError item e s :
  never_stores item s -> never_stores item (queueError e s).
Proof.
  intros H. unfold queueError. apply never_stores_saveQueue.
  destruct H. by split.
Qed.

Lemma never_stores_flushQueue_loop item s :
  never_stores item s -> never_stores item (flushQueue_loop s).
Proof.
  intros [H1 H2]. unfold flushQueue_loop.
  destruct (errorQueue s); by split.
Qed.

Lemma never_stores_flushQueue item s :
  never_stores item s -> never_stores item (flushQueue s).
Proof.
  intros H. unfold flushQueue. destruct (isSendingQueue s); [done|].
  apply never_stores_flushQueue_loop. destruct H. by split.
Qed.

Lemma never_stores_flushQueue_settled item taken o s :
  isSendingQueue s = true -> never_stores item s ->
  never_stores item (flushQueue_settled taken o s).
Proof.
  intros _ H. unfold flushQueue_settled.
  destruct (sendBatch_settled o).
  - by apply never_stores_flushQueue_loop, never_stores_saveQueue.
  - assert (H1 : never_stores item
                   (saveQueue (taken ++ errorQueue s)
                      (set_errorQueue (taken ++ errorQueue s) s))).
    { apply never_stores_saveQueue. destruct H. by split. }
    destruct H1. by split.
Qed.



(** One event that [JSON.stringify] cannot write is enough for the
    stored copy to fall behind: the queue holds the event, storage does
    not. *)
Lemma unwritable_event_is_not_stored :
  let s := run 1
             [CallCaptureMessage "boom" None (Some (<["n" := VBigInt 1]> ∅));
              TimePasses 5000;
              FetchSettles 3 (NetworkError "TypeError: Failed to fetch")]
             (newInstance sampleConfig browserHost) in
  message <$> errorQueue s = ["boom"] /\ isSendingQueue s = false
  /\ localStorage s = NoItem.
Proof. vm_compute. by repeat split. Qed.

(** ** The redaction filter: selectors that fail or match nothing *)

Section RedactionErrors.
Context {dom : DomApi}.

Lemma redactSelectorsIn_app l1 l2 doc :
  redactSelectorsIn (l1 ++ l2) doc
  = match redactSelectorsIn l1 doc with
    | Normal d => redactSelectorsIn l2 d
    | Throw err => Throw err
    end.
Proof.
  revert doc. induction l1 as [|sel l1 IH]; intros doc; [done|]. cbn.
  destruct (querySelectorAll doc sel); [apply IH|done].
Qed.

Lemma redactSelectorsIn_no_match selectors : forall doc,
  Forall (fun sel => forall d, querySelectorAll d sel = Normal []) selectors ->
  redactSelectorsIn selectors doc = Normal doc.
Proof.
  induction selectors as [|sel selectors IH]; intros doc Hno; [done|].
  apply Forall_cons in Hno as [Hsel Hno]. cbn. rewrite Hsel. cbn. by apply IH.
Qed.

(** X18.  [redactDom] does not catch a selector error: when redaction
    applies and [querySelectorAll] throws on a selector that follows
    selectors it accepts, [redactDom] throws that error.  When no
    selector matches an element, the result is the serialisation of the
    parsed document. *)
Theorem redactDom_selector_errors_and_misses (cfg : Config) (domString : string) :
  (forall pre sel post err,
     redactSelectors cfg = Some (pre ++ sel :: post) ->
     allowPII cfg = false ->
     Forall (fun s => forall d, exists els, querySelectorAll d s = Normal els) pre ->
     (forall d, querySelectorAll d sel = Throw err) ->
     redactDom true cfg domString = Throw err)
  /\ (forall selectors,
        redactSelectors cfg = Some selectors ->
        allowPII cfg = false ->
        Forall (fun s => forall d, querySelectorAll d s = Normal []) selectors ->
        redactDom true cfg domString
        = Normal (outerHTML (parseFromString domString))).
Proof.
  unfold redactDom. cbn. split.
  - intros pre sel post err -> -> Hpre Hsel.
    rewrite redactSelectorsIn_app.
    destruct (redactSelectorsIn_returns pre (parseFromString domString) Hpre)
      as [doc' ->].
    cbn. by rewrite Hsel.
  - intros selectors -> -> Hno. by rewrite redactSelectorsIn_no_match.
Qed.

End RedactionErrors.

Lemma redactDom_selector_errors_and_misses_witness :
  redactDom (dom := MiniDom.dom) true
    (set_redaction (Some ["p"; ""; "input"]) false (defaultConfig sampleConfig))
    "<p>name</p>"
  = Throw "SyntaxError: not a valid selector: ".
Proof.
  refine (proj1 (redactDom_selector_errors_and_misses (dom := MiniDom.dom) _ _)
            ["p"] "" ["input"] _ _ _ _ _).
  - reflexivity.
  - reflexivity.
  - apply Forall_singleton. intros d. by eexists.
  - intros d. reflexivity.
Defined.

(** ** The window listeners *)

(** X19.  With the listeners of a browser instance registered, a window
    event runs the closure registered for it.  'error' and
    'unhandledrejection' hand [handleError] one event: message, stack,
    file name (or the page URL when there is none), line and column of
    the error, resp. 'Unhandled Promise Rejection: ' and the reason;
    its payload item has the type 'error' resp. 'unhandledrejection'.
    'popstate', 'hashchange' and 'click' add one breadcrumb, 'online'
    calls [flushQueue], and 'beforeunload' calls [onSessionEnd] with
    the session id when it is configured and does nothing otherwise. *)
Theorem window_events_reach_their_listener (depth : nat) (s : Sys) :
  listeners s = browserListeners ->
  (forall msg errStack filename lineno colno, exists e,
      dispatchEvent depth (EvError msg errStack filename lineno colno) s
      = (handleError depth e s).1
      /\ message e = msg /\ stack e = errStack
      /\ url e = (if String.eqb filename "" then location_href s else filename)
      /\ line e = Some lineno /\ column e = Some colno
      /\ userAgent e = navigator_userAgent s /\ timestamp e = now s
      /\ severity e = SevError /\ metadata e = None
      /\ (failsAfterTransform e s = None ->
          forall s', exception_type (payloadItem s' (enriched e s).1) = VStr "error"
                     /\ stacktrace (payloadItem s' (enriched e s).1)
                        = default "" errStack))
  /\ (forall reason reasonStack, exists e,
        dispatchEvent depth (EvUnhandledRejection reason reasonStack) s
        = (handleError depth e s).1
        /\ message e = String.append "Unhandled Promise Rejection: " reason
        /\ stack e = reasonStack
        /\ url e = location_href s /\ severity e = SevError
        /\ meta_get e "type" = VStr "unhandledrejection"
        /\ meta_get e "reason" = VStr reason
        /\ (failsAfterTransform e s = None ->
            forall s', exception_type (payloadItem s' (enriched e s).1)
                       = VStr "unhandledrejection"))
  /\ dispatchEvent depth EvPopstate s
     = addBreadcrumb
         (mkBreadcrumb "navigation" "popstate"
            (VObj [("url", VStr (location_href s))]) (now s)) s
  /\ dispatchEvent depth EvHashchange s
     = addBreadcrumb
         (mkBreadcrumb "navigation" "hashchange"
            (VObj [("url", VStr (location_href s))]) (now s)) s
  /\ (forall tag id cls,
        dispatchEvent depth (EvClick tag id cls) s
        = addBreadcrumb
            (mkBreadcrumb "ui" "click"
               (VObj [("tag", VStr tag); ("id", VStr id); ("class", VStr cls)])
               (now s)) s)
  /\ dispatchEvent depth EvOnline s = flushQueue s
  /\ dispatchEvent depth EvBeforeUnload s
     = match analyticsHooks (config s) with
       | Some hooks =>
           match onSessionEnd hooks with
           | Some _ => set_hookCalls (hookCalls s ++ [CalledSessionEnd (sessionId s)]) s
           | None => s
           end
       | None => s
       end.
Proof.
  intros Hl. unfold dispatchEvent. rewrite Hl.
  split; [|split; [|split; [|split; [|split; [|split]]]]]; try reflexivity.
  - intros msg errStack filename lineno colno. eexists.
    split; [reflexivity|]. cbn.
    repeat (split; [reflexivity|]).
    intros Hok s'.
    destruct (payloadItem_enriched _ s s' Hok) as (H1 & _ & _ & _ & H5 & _).
    split; [exact H1|exact H5].
  - intros reason reasonStack. eexists. split; [reflexivity|]. cbn.
    repeat (split; [reflexivity|]).
    intros Hok s'. destruct (payloadItem_enriched _ s s' Hok) as (H1 & _).
    etrans; [exact H1|]. reflexivity.
Qed.

Lemma window_events_reach_their_listener_witness :
  dispatchEvent 1 EvOnline (newInstance sampleConfig browserHost)
  = flushQueue (newInstance sampleConfig browserHost).
Proof.
  refine (proj1 (proj2 (proj2 (proj2 (proj2 (proj2
            (window_events_reach_their_listener 1
               (newInstance sampleConfig browserHost) _))))))).
  reflexivity.
Defined.

(** ** Steps that only move events along *)

Lemma delivery_only_refl s : delivery_only s s.
Proof. by repeat split. Qed.

Lemma delivery_only_trans s1 s2 s3 :
  delivery_only s1 s2 -> delivery_only s2 s3 -> delivery_only s1 s3.
Proof.
  intros (A1 & A2 & A3 & A4 & A5 & A6 & A7 & A8) (B1 & B2 & B3 & B4 & B5 & B6 & B7 & B8).
  repeat split; congruence.
Qed.

Lemma flushBatch_delivery_only s : delivery_only s (flushBatch s).
Proof.
  unfold flushBatch. destruct (batch s); [apply delivery_only_refl|].
  cbn. by destruct (batchTimer s).
Qed.

Lemma addToBatch_delivery_only e s : delivery_only s (addToBatch e s).
Proof.
  unfold addToBatch. destruct (_ <=? _).
  - eapply delivery_only_trans; [|apply flushBatch_delivery_only]. done.
  - cbn. by destruct (batchTimer s).
Qed.

Lemma queueError_delivery_only e s : delivery_only s (queueError e s).
Proof. by rewrite queueError_eq. Qed.

Lemma flushQueue_loop_delivery_only s : delivery_only s (flushQueue_loop s).
Proof. unfold flushQueue_loop. by destruct (errorQueue s). Qed.

Lemma flushQueue_delivery_only s : delivery_only s (flushQueue s).
Proof.
  unfold flushQueue. destruct (isSendingQueue s); [apply delivery_only_refl|].
  eapply delivery_only_trans; [|apply flushQueue_loop_delivery_only]. done.
Qed.

Lemma flushQueue_settled_delivery_only taken o s :
  delivery_only s (flushQueue_settled taken o s).
Proof.
  unfold flushQueue_settled. destruct (sendBatch_settled o).
  - eapply delivery_only_trans; [|apply flushQueue_loop_delivery_only].
    by rewrite saveQueue_eq.
  - by rewrite saveQueue_eq.
Qed.

Lemma fireTimers_delivery_only (target : Z) (ts : list (nat * Z)) : forall s,
  delivery_only s
    (foldl (fun acc (t : nat * Z) =>
              if (t.2 <=? target)%Z then fireTimer t.1 t.2 acc else acc)
           s ts).
Proof.
  induction ts as [|t ts IH]; intros s; [apply delivery_only_refl|]. cbn [foldl].
  eapply delivery_only_trans; [|apply IH].
  destruct (_ <=? _)%Z; [|apply delivery_only_refl]. unfold fireTimer.
  destruct (existsb _ _); [|apply delivery_only_refl].
  eapply delivery_only_trans; [|apply flushBatch_delivery_only]. done.
Qed.

Lemma elapse_delivery_only dt s : delivery_only s (elapse dt s).
Proof.
  unfold elapse. eapply delivery_only_trans; [apply fireTimers_delivery_only|].
  done.
Qed.

Section DeliveryOnlyPreservation.
Variable P : Sys -> Prop.
Hypothesis P_frame : forall s s', delivery_only s s' -> P s -> P s'.
Hypothesis P_heap : forall hp s, P s -> P (set_heap hp s).
Hypothesis P_captured : forall e s,
  P s -> P (set_hookCalls (hookCalls s ++ [CalledErrorCaptured e]) s).
Hypothesis P_sessionEnd : forall s,
  P s -> P (set_hookCalls (hookCalls s ++ [CalledSessionEnd (sessionId s)]) s).
Hypothesis P_setUser : forall u s, P s -> P (setUser u s).
Hypothesis P_setContext : forall k v s, P s -> P (setContext k v s).
Hypothesis P_destroy : forall s, P s -> P (destroy s).
Hypothesis P_emit : forall f s, recorders s <> [] -> P s -> P (emit f s).

Lemma run_preserves_delivery_only stack ops s :
  delivery_ok s -> P s -> P (run stack ops s).
Proof using All.
  intros Hok H.
  apply (run_preserves P); try done.
  - intros e s0. apply P_frame, queueError_delivery_only.
  - intros lvl args s0. by apply P_frame.
  - intros b s0. apply P_heap.
  - intros s0. apply P_heap.
  - intros e s0. apply P_frame, addToBatch_delivery_only.
  - intros dt s0. apply P_frame, elapse_delivery_only.
  - intros s0. apply P_frame, flushQueue_delivery_only.
  - intros id s0. by apply P_frame.
  - intros taken o s0 _. apply P_frame, flushQueue_settled_delivery_only.
Qed.

End DeliveryOnlyPreservation.

(** ** The recorder is started once *)

Lemma filter_out_single (r : nat) : filter (fun x : nat => x <> r) [r] = [].
Proof. by rewrite filter_cons_False, filter_nil by tauto. Qed.

Lemma recording_ok_run stack ops s0 :
  delivery_ok s0 -> recording_ok s0 s0 -> recording_ok s0 (run stack ops s0).
Proof.
  intros Hok H0.
  apply (run_preserves_delivery_only (recording_ok s0)); [..|exact Hok|exact H0].
  - intros s s' (_ & H2 & _ & H4 & H5 & _) H. unfold recording_ok in *.
    by rewrite H2, H4, H5.
  - by intros hp s H.
  - by intros e s H.
  - by intros s H.
  - by intros u s H.
  - by intros k v s H.
  - intros s H. left.
    destruct (destroy_facts s) as (_ & _ & _ & _ & _ & _ & _ & _ & _ & _ & -> & _).
    destruct H as [H|(H1 & H2 & r & H3 & H4)].
    + rewrite H. by destruct (stopRecording s).
    + rewrite H4, H3. apply filter_out_single.
  - intros f s Hne [H|(H1 & H2 & r & H3 & H4)]; [done|].
    unfold emit, restartRecording, startScreenRecording. cbn.
    destruct (recordingEvents s ++ [f]) as [|first rest];
      [right; split; [done|]; split; [done|]; by exists r|].
    destruct (_ <? _)%Z; [|right; split; [done|]; split; [done|]; by exists r].
    rewrite H4. cbn. rewrite H1, orb_true_r. left. cbn. rewrite H3.
    apply filter_out_single.
Qed.

Lemma init_recording s :
  recorders s = [] -> isRecording s = false ->
  recorders (init s) = []
  \/ (isRecording (init s) = true
      /\ exists r, recorders (init s) = [r] /\ stopRecording (init s) = Some r).
Proof.
  intros Hr Hrec. unfold init.
  destruct (flushQueue_delivery_only
              (setupBreadcrumbs
                 (if captureConsole
                       (config (if enableScreenRecording (config (setupErrorHandlers s))
                                   && isBrowser (setupErrorHandlers s)
                                then startScreenRecording (setupErrorHandlers s)
                                else setupErrorHandlers s))
                  then setupConsoleCapture
                         (if enableScreenRecording (config (setupErrorHandlers s))
                             && isBrowser (setupErrorHandlers s)
                          then startScreenRecording (setupErrorHandlers s)
                          else setupErrorHandlers s)
                  else if enableScreenRecording (config (setupErrorHandlers s))
                          && isBrowser (setupErrorHandlers s)
                       then startScreenRecording (setupErrorHandlers s)
                       else setupErrorHandlers s)))
    as (_ & -> & _ & -> & -> & _).
  set (s1 := setupErrorHandlers s).
  assert (H1 : recorders s1 = [] /\ isRecording s1 = false).
  { subst s1. unfold setupErrorHandlers. by destruct (negb (isBrowser s)). }
  clearbody s1. destruct H1 as [Hr1 Hrec1].
  set (s2 := if enableScreenRecording (config s1) && isBrowser s1
             then startScreenRecording s1 else s1).
  assert (H2 : recorders s2 = []
               \/ (isRecording s2 = true
                   /\ exists r, recorders s2 = [r] /\ stopRecording s2 = Some r)).
  { subst s2. destruct (_ && _); [|by left]. unfold startScreenRecording.
    rewrite Hrec1, orb_false_r. destruct (negb (isBrowser s1)); [by left|].
    right. cbn. rewrite Hr1. split; [done|]. by eexists. }
  clearbody s2.
  set (s3 := if captureConsole (config s2) then setupConsoleCapture s2 else s2).
  assert (H3 : recorders s3 = recorders s2 /\ isRecording s3 = isRecording s2
               /\ stopRecording s3 = stopRecording s2).
  { subst s3. destruct (captureConsole (config s2)); [|done].
    unfold setupConsoleCapture. by destruct (negb (isBrowser s2)). }
  clearbody s3. destruct H3 as (E1 & E2 & E3).
  assert (H4 : recorders (setupBreadcrumbs s3) = recorders s2
               /\ isRecording (setupBreadcrumbs s3) = isRecording s2
               /\ stopRecording (setupBreadcrumbs s3) = stopRecording s2).
  { unfold setupBreadcrumbs. by destruct (negb (isBrowser s3)). }
  destruct H4 as (-> & -> & ->). exact H2.
Qed.

Lemma newInstance_recording_ok c h :
  recording_ok (newInstance c h) (newInstance c h).
Proof.
  unfold newInstance.
  destruct (constructor c h) as [s|err] eqn:Hc; [|by left].
  apply constructor_inv in Hc. unfold recording_ok.
  destruct (init_recording
              ((if host_isBrowser h
                then addEventListener "beforeunload" HBeforeUnload else id)
                 (set_hookCalls
                    (match u_analyticsHooks c with
                     | Some hooks =>
                         match onSessionStart hooks with
                         | Some _ => [CalledSessionStart (host_sessionId h)]
                         | None => []
                         end
                     | None => []
                     end)
                    (set_session (host_sessionId h) (host_now h)
                       ((if host_isBrowser h
                         then addEventListener "online" HOnline else id)
                          (set_errorQueue
                             (loadQueue (host_isBrowser h) (host_storageOk h)
                                (host_storage h))
                             (blank (defaultConfig c) h)))))))
    as [H|(H1 & r & H2 & H3)].
  - by destruct (host_isBrowser h).
  - by destruct (host_isBrowser h).
  - left. by rewrite Hc.
  - right. rewrite Hc. split; [done|]. split; [done|]. by exists r.
Qed.

Lemma recording_over_run stack frames more s :
  delivery_ok s -> recording_over frames s ->
  recording_over frames (run stack more s).
Proof.
  intros Hok H0.
  apply (run_preserves_delivery_only (recording_over frames)); [..|exact Hok|exact H0].
  - intros s1 s2 (_ & _ & H3 & _ & H5 & _) H. unfold recording_over in *.
    by rewrite H3, H5.
  - by intros hp s1 H.
  - by intros e s1 H.
  - by intros s1 H.
  - by intros u s1 H.
  - by intros k v s1 H.
  - intros s1 [H1 H2].
    destruct (destroy_facts s1) as (_ & Hbuf & _ & _ & _ & _ & _ & _ & _ & _ & Hrs & _).
    split; [|by right]. rewrite Hrs, H1. by destruct (stopRecording s1).
  - by intros f s1 Hne [H1 H2].
Qed.

(** X20.  The recorder is started at most once: in every state an
    instance reaches there is no recorder, or the one the constructor
    started; and once there is none (after [destroy], or after the
    duration limit), no step starts another, and the frame buffer never
    grows again. *)
Theorem recording_is_started_at_most_once
    (stack : nat) (c : ErrorWatchConfig) (h : Host) (ops more : list Op) :
  let s0 := newInstance c h in
  let s := run stack ops s0 in
  let s' := run stack more s in
  (recorders s = [] \/ recorders s = recorders s0)
  /\ length (recorders s) <= 1
  /\ (recorders s = [] ->
      recorders s' = []
      /\ (recordingEvents s' = recordingEvents s \/ recordingEvents s' = [])).
Proof.
  intros s0 s s'.
  pose proof (newInstance_ok c h) as Hok0. fold s0 in Hok0.
  pose proof (recording_ok_run stack ops s0 Hok0 (newInstance_recording_ok c h)) as H.
  fold s in H.
  assert (Hok : delivery_ok s) by (by apply run_ok).
  split; [|split].
  - destruct H as [H|(_ & H & _)]; [by left|by right].
  - destruct H as [->|(_ & _ & r & -> & _)]; cbn; lia.
  - intros Hnone.
    apply (recording_over_run stack (recordingEvents s) more s Hok).
    split; [done|by left].
Qed.

(** ** The analytics hooks *)

Lemma init_hookCalls s :
  hookCalls (init s) = hookCalls s /\ sessionId (init s) = sessionId s.
Proof.
  unfold init.
  set (s1 := setupErrorHandlers s).
  assert (H1 : hookCalls s1 = hookCalls s /\ sessionId s1 = sessionId s).
  { subst s1. unfold setupErrorHandlers. by destruct (negb (isBrowser s)). }
  clearbody s1.
  set (s2 := if enableScreenRecording (config s1) && isBrowser s1
             then startScreenRecording s1 else s1).
  assert (H2 : hookCalls s2 = hookCalls s1 /\ sessionId s2 = sessionId s1).
  { subst s2. destruct (_ && _); [|done]. unfold startScreenRecording.
    by destruct (negb (isBrowser s1) || isRecording s1). }
  clearbody s2.
  set (s3 := if captureConsole (config s2) then setupConsoleCapture s2 else s2).
  assert (H3 : hookCalls s3 = hookCalls s2 /\ sessionId s3 = sessionId s2).
  { subst s3. destruct (captureConsole (config s2)); [|done].
    unfold setupConsoleCapture. by destruct (negb (isBrowser s2)). }
  clearbody s3.
  assert (H4 : hookCalls (setupBreadcrumbs s3) = hookCalls s3
               /\ sessionId (setupBreadcrumbs s3) = sessionId s3).
  { unfold setupBreadcrumbs. by destruct (negb (isBrowser s3)). }
  destruct (flushQueue_delivery_only (setupBreadcrumbs s3))
    as (_ & _ & _ & _ & _ & H5 & H6 & _).
  destruct H1, H2, H3, H4. split; congruence.
Qed.

Lemma hooks_ok_run stack ops s0 :
  delivery_ok s0 -> hooks_ok s0 (run stack ops s0).
Proof.
  intros Hok.
  assert (Hsnoc : forall s c, after_start (sessionId s0) c -> hooks_ok s0 s ->
                    hooks_ok s0 (set_hookCalls (hookCalls s ++ [c]) s)).
  { intros s c Hc (Hid & rest & Hrest & Hall). split; [done|].
    exists (rest ++ [c]). cbn. split; [by rewrite Hrest, app_assoc|].
    apply Forall_app. split; [done|]. by apply Forall_singleton. }
  assert (Hsame : forall s s', hookCalls s' = hookCalls s ->
                    sessionId s' = sessionId s -> hooks_ok s0 s -> hooks_ok s0 s').
  { intros s s' Hh Hid H. unfold hooks_ok in *. by rewrite Hh, Hid. }
  apply (run_preserves_delivery_only (hooks_ok s0)); [..|exact Hok|].
  - intros s s' (_ & _ & _ & _ & _ & Hh & Hid & _). by apply Hsame.
  - intros hp s. by apply Hsame.
  - intros e s. by apply Hsnoc.
  - intros s H. apply Hsnoc; [|done]. cbn. by destruct H.
  - intros u s. by apply Hsame.
  - intros k v s. by apply Hsame.
  - intros s. destruct (destroy_same_setup s) as (_ & _ & _ & _ & Hid & _).
    apply Hsame; [|done].
    unfold destroy.
    match goal with |- hookCalls (flushBatch ?x) = _ =>
      destruct (flushBatch_delivery_only x) as (_ & _ & _ & _ & _ & -> & _) end.
    destruct (stopRecording s); cbn; by destruct (batchTimer s).
  - intros f s _. destruct (emit_same_setup f s) as (_ & _ & _ & _ & Hid & _).
    apply Hsame; [|done].
    unfold emit, restartRecording, startScreenRecording. cbn.
    destruct (recordingEvents s ++ [f]); [done|].
    destruct (_ <? _)%Z; [|done].
    destruct (stopRecording s); cbn;
      by destruct (negb (isBrowser s) || isRecording s).
  - split; [done|]. exists []. by rewrite app_nil_r.
Qed.

(** X21.  Over any steps of a constructed instance the session id stays
    the one the constructor generated; [onSessionStart] is called at
    most once, before every other hook call and with that id, and every
    call of [onSessionEnd] reports that id. *)
Theorem session_hooks_follow_the_session
    (stack : nat) (c : ErrorWatchConfig) (h : Host) (s0 : Sys) (ops : list Op) :
  constructor c h = Normal s0 ->
  let s := run stack ops s0 in
  sessionId s = host_sessionId h
  /\ exists rest,
       hookCalls s
       = match u_analyticsHooks c with
         | Some hooks =>
             match onSessionStart hooks with
             | Some _ => [CalledSessionStart (host_sessionId h)]
             | None => []
             end
         | None => []
         end ++ rest
       /\ Forall (after_start (host_sessionId h)) rest.
Proof.
  intros Hc s.
  assert (Hnew : newInstance c h = s0) by (unfold newInstance; by rewrite Hc).
  assert (Hok : delivery_ok s0) by (rewrite <- Hnew; apply newInstance_ok).
  apply constructor_inv in Hc.
  assert (H0 : hookCalls s0
               = match u_analyticsHooks c with
                 | Some hooks =>
                     match onSessionStart hooks with
                     | Some _ => [CalledSessionStart (host_sessionId h)]
                     | None => []
                     end
                 | None => []
                 end
               /\ sessionId s0 = host_sessionId h).
  { rewrite Hc. destruct (init_hookCalls
      ((if host_isBrowser h
        then addEventListener "beforeunload" HBeforeUnload else id)
         (set_hookCalls
            (match u_analyticsHooks c with
             | Some hooks =>
                 match onSessionStart hooks with
                 | Some _ => [CalledSessionStart (host_sessionId h)]
                 | None => []
                 end
             | None => []
             end)
            (set_session (host_sessionId h) (host_now h)
               ((if host_isBrowser h
                 then addEventListener "online" HOnline else id)
                  (set_errorQueue
                     (loadQueue (host_isBrowser h) (host_storageOk h)
                        (host_storage h))
                     (blank (defaultConfig c) h))))))) as [-> ->].
    by destruct (host_isBrowser h). }
  destruct H0 as [Hh Hid].
  destruct (hooks_ok_run stack ops s0 Hok) as (Hid' & rest & Hrest & Hall).
  fold s in Hid', Hrest. rewrite Hid in Hid', Hall. rewrite Hh in Hrest.
  split; [done|]. by exists rest.
Qed.

Lemma session_hooks_follow_the_session_witness :
  sessionId
    (run 1 [CallSetUser sampleUser; CallCaptureMessage "m" None None; CallDestroy]
       (newInstance sampleConfig browserHost))
  = "s1".
Proof.
  refine (proj1 (session_hooks_follow_the_session 1 sampleConfig browserHost
                   (newInstance sampleConfig browserHost)
                   [CallSetUser sampleUser; CallCaptureMessage "m" None None;
                    CallDestroy] _)).
  vm_compute; reflexivity.
Defined.

(** ** The requests in flight *)

Lemma requests_ok_same s0 s s' :
  inflight s' = inflight s -> config s' = config s ->
  requests_ok s0 s -> requests_ok s0 s'.
Proof. intros Hi Hc H. unfold requests_ok in *. by rewrite Hi, Hc. Qed.

Lemma requests_ok_sendBatch s0 k s :
  kont_events k <> [] ->
  requests_ok s0 s -> requests_ok s0 (sendBatch k (kont_events k) s).
Proof.
  intros Hne [Hc Hall]. split; [exact Hc|]. unfold sendBatch. cbn.
  apply Forall_app. split; [exact Hall|]. apply Forall_singleton.
  unfold request_ok.
  cbn [snd req_url req_authorization req_project req_kont req_body].
  assert (E : baseUrl (config s) = baseUrl (config s0)
              /\ apiKey (config s) = apiKey (config s0)
              /\ projectId (config s) = projectId (config s0)
              /\ environment (config s) = environment (config s0)).
  { rewrite <- Hc. by destruct (config s). }
  destruct E as (E1 & E2 & E3 & E4). rewrite E1, E2, E3.
  split; [done|]. split; [done|]. split; [done|]. split; [done|].
  split; [|split; [|split]].
  - rewrite <- list_fmap_compose. by apply list_fmap_ext.
  - rewrite <- list_fmap_compose. by apply list_fmap_ext.
  - rewrite <- list_fmap_compose. by apply list_fmap_ext.
  - apply Forall_fmap, Forall_forall. intros e _. cbn. by rewrite E3, E4.
Qed.

Lemma requests_ok_flushBatch s0 s : requests_ok s0 s -> requests_ok s0 (flushBatch s).
Proof.
  intros H. unfold flushBatch. destruct (batch s) as [|e b] eqn:Hb; [done|].
  apply (requests_ok_sendBatch s0 (KFlushBatch (e :: b))); [done|].
  eapply requests_ok_same; [| |exact H]; cbn; by destruct (batchTimer s).
Qed.

Lemma requests_ok_addToBatch s0 e s :
  requests_ok s0 s -> requests_ok s0 (addToBatch e s).
Proof.
  intros H. unfold addToBatch. destruct (_ <=? _).
  - apply requests_ok_flushBatch. by apply (requests_ok_same s0 s).
  - cbn. destruct (batchTimer s); by apply (requests_ok_same s0 s).
Qed.

Lemma requests_ok_flushQueue_loop s0 s :
  requests_ok s0 s -> requests_ok s0 (flushQueue_loop s).
Proof.
  intros H. unfold flushQueue_loop. destruct (errorQueue s) as [|e q] eqn:Hq.
  - by apply (requests_ok_same s0 s).
  - apply (requests_ok_sendBatch s0 (KFlushQueue (take BATCH_SIZE (e :: q)))); [done|].
    by apply (requests_ok_same s0 s).
Qed.

Lemma requests_ok_fireTimers s0 (target : Z) (ts : list (nat * Z)) : forall s,
  requests_ok s0 s ->
  requests_ok s0
    (foldl (fun acc (t : nat * Z) =>
              if (t.2 <=? target)%Z then fireTimer t.1 t.2 acc else acc)
           s ts).
Proof.
  induction ts as [|t ts IH]; intros s H; [done|]. cbn [foldl]. apply IH.
  destruct (_ <=? _)%Z; [|done]. unfold fireTimer.
  destruct (existsb _ _); [|done].
  apply requests_ok_flushBatch. by apply (requests_ok_same s0 s).
Qed.

Lemma requests_ok_with_key s0 k v s :
  requests_ok s0 s ->
  requests_ok s0
    (set_config (set_beforeSend (with_metadata_key k v (beforeSend (config s)))
                   (config s)) s).
Proof.
  intros [Hc Hall]. split; [|exact Hall]. cbn. rewrite <- Hc.
  by destruct (config s).
Qed.

Lemma requests_ok_run stack ops s0 :
  delivery_ok s0 -> requests_ok s0 s0 -> requests_ok s0 (run stack ops s0).
Proof.
  intros Hok H0.
  apply (run_preserves (requests_ok s0)); [..|exact Hok|exact H0].
  - intros e s. apply requests_ok_same; by rewrite queueError_eq.
  - intros lvl args s. by apply requests_ok_same.
  - intros b s. by apply requests_ok_same.
  - intros s. by apply requests_ok_same.
  - intros e s. by apply requests_ok_same.
  - intros s. by apply requests_ok_same.
  - intros e s. apply requests_ok_addToBatch.
  - intros u s H. unfold setUser.
    apply (requests_ok_with_key s0 "user" (user_val u) (set_userId (Some (usr_id u)) s)).
    by apply (requests_ok_same s0 s).
  - intros k v s. apply requests_ok_with_key.
  - intros s H. unfold destroy. apply requests_ok_flushBatch.
    eapply requests_ok_same; [| |exact H];
      destruct (stopRecording s); cbn; by destruct (batchTimer s).
  - intros f s _ H. destruct (emit_delivery_frame f s) as (_ & _ & _ & _ & Hi & _).
    apply (requests_ok_same s0 s); [done| |done].
    unfold emit, restartRecording, startScreenRecording. cbn.
    destruct (recordingEvents s ++ [f]); [done|].
    destruct (_ <? _)%Z; [|done].
    destruct (stopRecording s); cbn;
      by destruct (negb (isBrowser s) || isRecording s).
  - intros dt s H. unfold elapse.
    eapply requests_ok_same; [| |apply requests_ok_fireTimers; exact H]; done.
  - intros s H. unfold flushQueue. destruct (isSendingQueue s); [done|].
    apply requests_ok_flushQueue_loop. by apply (requests_ok_same s0 s).
  - intros id s [Hc Hall]. split; [exact Hc|]. cbn.
    rewrite Forall_forall in Hall |- *. intros r Hr.
    apply list_elem_of_filter in Hr as [_ Hr]. by apply Hall.
  - intros taken o s _ H. unfold flushQueue_settled.
    destruct (sendBatch_settled o).
    + apply requests_ok_flushQueue_loop. rewrite saveQueue_eq.
      by apply (requests_ok_same s0 s).
    + rewrite saveQueue_eq. by apply (requests_ok_same s0 s).
Qed.

Lemma requests_ok_flushQueue s0 s : requests_ok s0 s -> requests_ok s0 (flushQueue s).
Proof.
  intros H. unfold flushQueue. destruct (isSendingQueue s); [done|].
  apply requests_ok_flushQueue_loop. by apply (requests_ok_same s0 s).
Qed.

Lemma newInstance_requests_ok c h :
  requests_ok (newInstance c h) (newInstance c h).
Proof.
  assert (Hnil : forall s, inflight s = [] -> requests_ok s s).
  { intros s Hi. split; [by destruct (config s)|]. rewrite Hi. constructor. }
  unfold newInstance.
  destruct (constructor c h) as [s|err] eqn:Hc; [|by apply Hnil].
  apply constructor_inv in Hc. rewrite Hc.
  match goal with |- requests_ok (init ?s1) (init ?s1) =>
    destruct (init_flushQueue s1) as (s2 & -> & _ & _ & Hin & _);
    assert (Hin2 : inflight s2 = []) by (rewrite Hin; by destruct (host_isBrowser h))
  end.
  apply requests_ok_flushQueue. split; [|rewrite Hin2; constructor].
  destruct (flushQueue_delivery_only s2) as (-> & _). by destruct (config s2).
Qed.

(** X22.  In every state an instance reaches, every request in flight
    goes to the configured [baseUrl] with the configured API key and
    project id, for a non-empty list of events that its caller holds on
    to; its body has one item per event, in order, with the message,
    severity and timestamp of the event, the configured project id and
    environment, the SDK tag and an empty [ip_address]. *)
Theorem every_request_posts_its_events
    (stack : nat) (c : ErrorWatchConfig) (h : Host) (ops : list Op) :
  let s0 := newInstance c h in
  let s := run stack ops s0 in
  Forall (fun r : nat * Request =>
            req_url r.2 = baseUrl (config s0)
            /\ req_authorization r.2 = String.append "Bearer " (apiKey (config s0))
            /\ req_project r.2 = projectId (config s0)
            /\ kont_events (req_kont r.2) <> []
            /\ p_message <$> req_body r.2 = message <$> kont_events (req_kont r.2)
            /\ level <$> req_body r.2 = severity <$> kont_events (req_kont r.2)
            /\ p_timestamp <$> req_body r.2
               = timestamp <$> kont_events (req_kont r.2)
            /\ Forall (fun p => project_id p = projectId (config s0)
                                /\ p_environment p = environment (config s0)
                                /\ sdk p = "errorwatch-js/1.0.0"
                                /\ ip_address p = "")
                      (req_body r.2))
         (inflight s).
Proof.
  intros s0 s.
  by destruct (requests_ok_run stack ops s0 (newInstance_ok c h)
                 (newInstance_requests_ok c h)) as [_ H].
Qed.

(** ** What [handleError] puts in the batch *)

Lemma default_transform_returns f ev :
  default_transform f ->
  exists p, f ev = Normal (Some p) /\ plain (ev_data p) = plain (ev_data ev)
            /\ ev_type p = ev_type ev.
Proof.
  induction 1 as [|k v f _ (p & Hp & Hplain & Hty)]; [by eexists|].
  destruct (with_metadata_key_spec k v f ev) as (_ & _ & Hsome).
  destruct (Hsome p Hp) as (p' & Hp' & _ & _ & Hplain' & Hty').
  exists p'. split; [exact Hp'|]. unfold plain. by rewrite Hplain', Hty'.
Qed.

Lemma constructor_default_transform c h s :
  u_beforeSend c = None -> constructor c h = Normal s ->
  default_transform (beforeSend (config s)).
Proof.
  intros Hnone Hc. apply constructor_inv in Hc. subst s.
  destruct h as [b t href ua st ok sid].
  destruct c as [ak pid env burl [[]|] dur [[]|] net bs sel pii hooks].
  all: cbn in Hnone; subst bs.
  all: cbn [host_isBrowser host_storageOk host_storage].
  all: destruct b, (loadQueue true ok st) as [|e q].
  all: unfold init, flushQueue, flushQueue_loop; cbn.
  all: apply transform_default.
Qed.

Lemma run_default_transform stack ops s :
  delivery_ok s -> default_transform (beforeSend (config s)) ->
  default_transform (beforeSend (config (run stack ops s))).
Proof.
  intros Hok H0.
  apply (run_preserves_delivery_only
           (fun s => default_transform (beforeSend (config s))));
    [..|exact Hok|exact H0].
  - intros s1 s2 (Hc & _) H. by rewrite Hc.
  - by intros hp s1 H.
  - by intros e s1 H.
  - by intros s1 H.
  - intros u s1 H. by apply transform_key.
  - intros k v s1 H. by apply transform_key.
  - intros s1 H. by destruct (destroy_facts s1) as (_ & _ & _ & _ & _ & _ & _ & _ & _ & -> & _).
  - intros f s1 _ H.
    assert (Hcfg : config (emit f s1) = config s1); [|by rewrite Hcfg].
    unfold emit, restartRecording, startScreenRecording. cbn.
    destruct (recordingEvents s1 ++ [f]); [done|].
    destruct (_ <? _)%Z; [|done].
    destruct (stopRecording s1); cbn;
      by destruct (negb (isBrowser s1) || isRecording s1).
Qed.



(** ** C10: what [destroy] leaves in place *)

(** What the constructor installs in a browser. *)
Lemma constructor_installs c h s :
  host_isBrowser h = true ->
  constructor c h = Normal s ->
  listeners s = browserListeners
  /\ console_log_patched s = true
  /\ console_error_patched s = captureConsole (defaultConfig c)
  /\ console_warn_patched s = captureConsole (defaultConfig c).
Proof.
  intros Hb Hc. apply constructor_inv in Hc. rewrite Hb in Hc. subst s.
  destruct h as [b t href ua st ok sid]. cbn in Hb. subst b.
  destruct c as [ak pid env burl [[]|] dur [[]|] net bs sel pii hooks].
  all: cbn [host_isBrowser host_storageOk host_storage].
  all: destruct (loadQueue true ok st) as [|e q].
  all: unfold init, flushQueue, flushQueue_loop; cbn.
  all: repeat split; reflexivity.
Qed.

(** An event handed to the batch is posted within [BATCH_INTERVAL],
    with the events that were waiting in the batch. *)
Lemma addToBatch_sent e s :
  batch_ok s -> drain_ok s ->
  exists due,
    (now s <= due <= now s + BATCH_INTERVAL)%Z
    /\ flushes (elapse BATCH_INTERVAL (addToBatch e s))
       = flushes s ++ [(due, batch s ++ [e])]
    /\ (batch s = [] -> due = (now s + BATCH_INTERVAL)%Z).
Proof.
  intros Hb Hd.
  destruct (addToBatch_wf e s Hb Hd) as [Hb' _].
  destruct (elapse_empties_batch _ Hb') as (_ & _ & ->).
  destruct Hb as [Hlen Hb]. unfold addToBatch in *. cbn [batch set_batch] in *.
  destruct (Nat.leb_spec BATCH_SIZE (length (batch s ++ [e]))) as [Hge|Hlt].
  - exists (now s).
    assert (Hne : batch (set_batch (batch s ++ [e]) s) <> [])
      by (cbn; by destruct (batch s)).
    destruct (flushBatch_cons _ Hne) as (-> & _ & Hin & _).
    unfold flushes at 1. rewrite Hin, omap_app. cbn. rewrite app_nil_r.
    split; [unfold BATCH_INTERVAL; lia|]. split; [done|].
    intros Hnil. rewrite Hnil in Hge. cbn in Hge. unfold BATCH_SIZE in Hge. lia.
  - destruct (batchTimer s) as [id|] eqn:Hbt.
    + destruct Hb as (Hne & due & Ht & Hdue). exists due.
      cbn [batchTimer set_batch]. rewrite Hbt. cbn. rewrite Ht. cbn.
      split; [lia|]. split; [by destruct (batch s)|]. by intros Hnil.
    + destruct Hb as [Hnil Ht]. exists (now s + BATCH_INTERVAL)%Z.
      cbn [batchTimer set_batch]. rewrite Hbt. cbn. rewrite Ht, Hnil. cbn.
      split; [unfold BATCH_INTERVAL; lia|]. by split.
Qed.

Lemma enriched_isSendingQueue errorData s :
  isSendingQueue (enriched errorData s).2 = isSendingQueue s.
Proof.
  unfold enriched.
  destruct (attachRecording errorData s) as [[e1 s1]|err] eqn:Hatt; [|done].
  assert (H1 : isSendingQueue s1 = isSendingQueue s).
  { unfold attachRecording in Hatt.
    destruct (_ && _); [|by injection Hatt as _ <-].
    destruct (JSON_stringify_frames _); [|done]. injection Hatt as _ <-.
    unfold console_log. cbn. by destruct (console_log_patched s). }
  rewrite <- H1. unfold mergeMetadata, callOnErrorCaptured. cbn.
  destruct (analyticsHooks _) as [hooks|]; [|done].
  by destruct (onErrorCaptured hooks) as [[]|].
Qed.

(** C10.  Take an instance constructed in a browser, at any point of
    its life, and call [destroy].  The call stops the recorder, empties
    the frame buffer, cancels the batch timer and posts the batch.  It
    removes no listener and restores no console function: whatever
    happens to the instance afterwards, the seven window listeners that
    construction registered are registered, [console.log] is patched,
    and [console.error] and [console.warn] are patched when
    [captureConsole] is on.  So a window 'error' or
    'unhandledrejection' event and a call of [console.error] or
    [console.warn] still hand their event to [handleError], a
    [console.log] still leaves a breadcrumb, and an event that
    [handleError] captures then is put in the batch and posted within
    [BATCH_INTERVAL], with what the batch held. *)
Theorem destroy_leaves_interception (depth : nat) (c : ErrorWatchConfig)
    (h : Host) (s0 : Sys) (before after : list Op) :
  host_isBrowser h = true ->
  constructor c h = Normal s0 ->
  let s := run depth before s0 in
  let s' := destroy s in
  let s'' := run depth after s' in
  (recorders s' = [] /\ isRecording s' = false /\ recordingEvents s' = []
   /\ batchTimer s' = None /\ timers s' = [] /\ batch s' = []
   /\ flushes s' = flushes s ++ match batch s with
                                | [] => []
                                | _ :: _ => [(now s, batch s)]
                                end)
  /\ (listeners s'' = browserListeners
      /\ console_log_patched s'' = true
      /\ console_error_patched s'' = captureConsole (defaultConfig c)
      /\ console_warn_patched s'' = captureConsole (defaultConfig c)
      /\ recorders s'' = [])
  /\ (forall k msg errStack filename lineno colno,
        dispatchEvent k (EvError msg errStack filename lineno colno) s''
        = (handleError k
             (windowErrorData msg errStack filename lineno colno s'') s'').1)
  /\ (forall k reason reasonStack,
        dispatchEvent k (EvUnhandledRejection reason reasonStack) s''
        = (handleError k (rejectionData reason reasonStack s'') s'').1)
  /\ (forall k args,
        captureConsole (defaultConfig c) = true ->
        (console_error (S k) args s'').1
        = (handleError k
             (consoleEvent SevError "console.error" args
                (log_call "error" (VStr <$> args) s''))
             (log_call "error" (VStr <$> args) s'')).1
        /\ (console_warn (S k) args s'').1
           = (handleError k
                (consoleEvent SevWarning "console.warn" args
                   (log_call "warn" (VStr <$> args) s''))
                (log_call "warn" (VStr <$> args) s'')).1)
  /\ (forall args,
        console_log args s''
        = addBreadcrumb
            (mkBreadcrumb "console" "log" (VObj [("args", VArr args)]) (now s''))
            (log_call "log" args s''))
  /\ (forall k errorData p,
        beforeSend (config s'') (mkErrorEvent errorData (Some "error"))
        = Normal (Some p) ->
        failsAfterTransform errorData s'' = None ->
        let captured := (handleError k errorData s'').1 in
        let e := (enriched errorData s'').1 in
        message e = message errorData
        /\ (batch s'' = [] -> batch captured = [e])
        /\ exists due,
             (now s'' <= due <= now s'' + BATCH_INTERVAL)%Z
             /\ flushes (elapse BATCH_INTERVAL captured)
                = flushes s'' ++ [(due, batch s'' ++ [e])]
             /\ (batch s'' = [] -> due = (now s'' + BATCH_INTERVAL)%Z)).
Proof.
  intros Hbrowser Hc s s' s''.
  destruct (constructor_installs c h s0 Hbrowser Hc) as (Hl0 & Hlog0 & Herr0 & Hwarn0).
  assert (Hnew : newInstance c h = s0) by (unfold newInstance; by rewrite Hc).
  assert (Hok0 : delivery_ok s0) by (rewrite <- Hnew; apply newInstance_ok).
  assert (Hrec0 : recording_ok s0 s0)
    by (rewrite <- Hnew; apply newInstance_recording_ok).
  assert (Hok : delivery_ok s) by (by apply run_ok).
  assert (Hok' : delivery_ok s') by (by apply destroy_ok).
  assert (Hok'' : delivery_ok s'') by (by apply run_ok).
  pose proof (recording_ok_run depth before s0 Hok0 Hrec0) as Hrec. fold s in Hrec.
  destruct (destroy_facts s)
    as (Hir & Hbuf & Hbt & Hb & Hl & Hpe & Hpw & Hpl & Hnow & Hcfg & Hrs & Htm & Hfl).
  fold s' in Hir, Hbuf, Hbt, Hb, Hl, Hpe, Hpw, Hpl, Hnow, Hcfg, Hrs, Htm, Hfl.
  assert (Hrs' : recorders s' = []).
  { rewrite Hrs. destruct Hrec as [Hr|(_ & _ & r & Hr & Hstop)].
    - rewrite Hr. by destruct (stopRecording s).
    - rewrite Hr, Hstop. by rewrite filter_cons_False, filter_nil by (cbn; tauto). }
  assert (Htm' : timers s' = []).
  { rewrite Htm. destruct Hok as [[_ Hbo] _].
    destruct (batchTimer s) as [id|].
    - destruct Hbo as (_ & due & -> & _).
      by rewrite filter_cons_False, filter_nil by (cbn; tauto).
    - by destruct Hbo. }
  destruct (run_same_setup depth before s0 Hok0) as (Sl & Se & Sw & Slog & _).
  fold s in Sl, Se, Sw, Slog.
  destruct (run_same_setup depth after s' Hok') as (Tl & Te & Tw & Tlog & _).
  fold s'' in Tl, Te, Tw, Tlog.
  assert (Hl'' : listeners s'' = browserListeners) by congruence.
  assert (Hlog'' : console_log_patched s'' = true) by congruence.
  assert (Herr'' : console_error_patched s'' = captureConsole (defaultConfig c))
    by congruence.
  assert (Hwarn'' : console_warn_patched s'' = captureConsole (defaultConfig c))
    by congruence.
  assert (Hrs'' : recorders s'' = []).
  { by destruct (recording_over_run depth [] after s' Hok' (conj Hrs' (or_introl Hbuf))). }
  clearbody s''. clearbody s'. clearbody s.
  split; [done|]. split; [done|].
  split; [|split; [|split; [|split]]].
  - intros k msg errStack filename lineno colno.
    unfold dispatchEvent. rewrite Hl''. reflexivity.
  - intros k reason reasonStack.
    unfold dispatchEvent. rewrite Hl''. reflexivity.
  - intros k args Hcap. unfold console_error, console_warn, console_capture. cbn.
    by rewrite Herr'', Hwarn'', Hcap.
  - intros args. unfold console_log. cbn. by rewrite Hlog''.
  - intros k errorData p Hbs Hfails captured e.
    destruct (enriched_same_delivery errorData s'')
      as ((Hq3 & Hb3 & Hi3 & Ht3 & Hbt3 & _ & _ & Hn3 & Hid3) & Hmsg).
    assert (Hcap : captured = addToBatch e (enriched errorData s'').2)
      by (by apply (handleError_batches k errorData s'' p)).
    destruct Hok'' as [Hbo Hdo].
    assert (Hbo3 : batch_ok (enriched errorData s'').2) by (by apply (batch_ok_same s'')).
    assert (Hdo3 : drain_ok (enriched errorData s'').2).
    { apply (drain_ok_same s''); try done; [lia|apply enriched_isSendingQueue]. }
    destruct (addToBatch_sent e _ Hbo3 Hdo3) as (due & Hdue & Hfl3 & Hnil).
    rewrite Hn3 in Hdue, Hnil. rewrite Hb3 in Hfl3, Hnil.
    split; [exact Hmsg|]. split.
    + intros Hempty. rewrite Hcap. unfold addToBatch. cbn. rewrite Hb3, Hempty. cbn.
      replace (BATCH_SIZE <=? 1) with false by reflexivity.
      by destruct (batchTimer (enriched errorData s'').2).
    + exists due. split; [done|]. split; [|done].
      rewrite Hcap, Hfl3. unfold flushes. by rewrite Hi3.
Qed.

Lemma destroy_leaves_interception_witness :
  let s := run 1 [CallCaptureMessage "m" None None]
             (newInstance sampleConfig browserHost) in
  let s'' := run 1 [TimePasses 10] (destroy s) in
  let hit := dispatchEvent 1 (EvError "boom" None "" 1 1) s'' in
  message <$> batch s = ["m"]
  /\ batch (destroy s) = []
  /\ flushes (destroy s) = [(now s, batch s)]
  /\ message <$> batch hit = ["boom"]
  /\ flushes (elapse BATCH_INTERVAL hit)
     = flushes s'' ++ [((now s'' + BATCH_INTERVAL)%Z, batch hit)].
Proof.
  intros s s'' hit.
  assert (Hc : constructor sampleConfig browserHost
               = Normal (newInstance sampleConfig browserHost))
    by (vm_compute; reflexivity).
  assert (Hm : message <$> batch s = ["m"]) by (vm_compute; reflexivity).
  assert (Hf : flushes s = []) by (vm_compute; reflexivity).
  assert (Hempty : batch s'' = []) by (vm_compute; reflexivity).
  assert (Hbs : beforeSend (config s'')
                  (mkErrorEvent (windowErrorData "boom" None "" 1 1 s'') (Some "error"))
                = Normal (Some (mkErrorEvent (windowErrorData "boom" None "" 1 1 s'')
                                  (Some "error"))))
    by (vm_compute; reflexivity).
  assert (Hfails : failsAfterTransform (windowErrorData "boom" None "" 1 1 s'') s''
                   = None)
    by (vm_compute; reflexivity).
  pose proof (destroy_leaves_interception 1 sampleConfig browserHost
                (newInstance sampleConfig browserHost)
                [CallCaptureMessage "m" None None] [TimePasses 10]
                eq_refl Hc) as H.
  cbv zeta in H. fold s in H. fold s'' in H.
  clearbody s''. clearbody s.
  destruct H as ((_ & _ & _ & _ & _ & Hb & Hfl) & _ & Herr & _ & _ & _ & Hcap).
  specialize (Herr 1 "boom" None "" 1%Z 1%Z). fold hit in Herr.
  clearbody hit.
  destruct (Hcap 1 _ _ Hbs Hfails) as (Hmsg & Hone & due & _ & Hsent & Hdue).
  rewrite <- Herr in Hone, Hsent.
  specialize (Hone Hempty). specialize (Hdue Hempty).
  split; [exact Hm|]. split; [exact Hb|].
  split; [rewrite Hfl, Hf; by destruct (batch s)|].
  split; [rewrite Hone; cbn [fmap list_fmap]; by rewrite Hmsg|].
  by rewrite Hsent, Hempty, Hone, Hdue.
Defined.
